(** * CodeGraph: a shallow embedding of the indexing pipeline

    The development follows the TypeScript sources of the repository:
    - [src/extraction/tree-sitter.ts]  node ids and the tree walk,
    - [src/extraction/grammars.ts]     the grammar registry,
    - [src/utils.ts]                   path checks, the pid lock file, the
                                       extraction orchestrator and [sync],
    - the SQLite adapter               the portable backend's [transaction].

    JavaScript strings are modelled as [string] (a sequence of bytes, read as
    the UTF-8 encoding that [crypto] hashes and the file system stores),
    numbers that the code uses as line numbers, sizes and pids as [nat], [N]
    or [Z].  Part I holds the definitions, Part II the lemmas. *)

From Stdlib Require Import ZArith Lia Bool Ascii String.
From stdpp Require Import base option list strings gmap fin_maps pretty.

Local Open Scope string_scope.

#[local] Set Warnings "-clear-no-such-hyp".

(* ===================================================================== *)
(** * Part I: definitions                                                 *)
(* ===================================================================== *)

(** ** SHA-256 (FIPS 180-4), the digest behind [crypto.createHash('sha256')] *)

Module Sha256.

Local Open Scope Z_scope.

Definition w32 (x : Z) : Z := x mod 2 ^ 32.
Definition add32 (x y : Z) : Z := w32 (x + y).
Definition rotr (n x : Z) : Z :=
  Z.lor (Z.shiftr x n) (w32 (Z.shiftl x (32 - n))).
Definition not32 (x : Z) : Z := Z.lxor x 0xffffffff.

Definition Ch (x y z : Z) : Z := Z.lxor (Z.land x y) (Z.land (not32 x) z).
Definition Maj (x y z : Z) : Z :=
  Z.lxor (Z.lxor (Z.land x y) (Z.land x z)) (Z.land y z).
Definition Sigma0 (x : Z) : Z := Z.lxor (Z.lxor (rotr 2 x) (rotr 13 x)) (rotr 22 x).
Definition Sigma1 (x : Z) : Z := Z.lxor (Z.lxor (rotr 6 x) (rotr 11 x)) (rotr 25 x).
Definition sigma0 (x : Z) : Z := Z.lxor (Z.lxor (rotr 7 x) (rotr 18 x)) (Z.shiftr x 3).
Definition sigma1 (x : Z) : Z := Z.lxor (Z.lxor (rotr 17 x) (rotr 19 x)) (Z.shiftr x 10).

(** the prime numbers below [n], in increasing order *)
Definition is_prime (p : Z) : bool :=
  (1 <? p) && forallb (fun d => negb (p mod d =? 0))
                      (map Z.of_nat (seq 2 (Z.to_nat (Z.sqrt p) - 1))).

Definition primes_below (n : nat) : list Z :=
  List.filter is_prime (map Z.of_nat (seq 0 n)).

(** the integer cube root, found bit by bit from bit [n - 1] down *)
Fixpoint cbrt_bits (n : nat) (target acc : Z) : Z :=
  match n with
  | O => acc
  | S n' =>
      let candidate := acc + 2 ^ Z.of_nat n' in
      if candidate * candidate * candidate <=? target
      then cbrt_bits n' target candidate
      else cbrt_bits n' target acc
  end.

(** the first 32 bits of the fractional part of the cube root of [p] *)
Definition frac_cbrt (p : Z) : Z := w32 (cbrt_bits 40 (p * 2 ^ 96) 0).
(** the first 32 bits of the fractional part of the square root of [p] *)
Definition frac_sqrt (p : Z) : Z := w32 (Z.sqrt (p * 2 ^ 64)).

(** the round constants: from the cube roots of the first 64 primes *)
Definition K : list Z := Eval vm_compute in map frac_cbrt (primes_below 312).

(** the initial hash value: from the square roots of the first 8 primes *)
Definition H0 : list Z := Eval vm_compute in map frac_sqrt (primes_below 20).

Definition bytes_of_string (s : string) : list Z :=
  map (fun c => Z.of_N (Ascii.N_of_ascii c)) (String.list_ascii_of_string s).

(** big-endian bytes of [x], [n] of them *)
Fixpoint be_bytes (n : nat) (x : Z) : list Z :=
  match n with
  | O => []
  | S n' => Z.shiftr x (8 * Z.of_nat n') mod 256 :: be_bytes n' x
  end.

(** message, 0x80, zeros up to 56 mod 64, bit length on 8 bytes *)
Definition pad (msg : list Z) : list Z :=
  let l := Z.of_nat (length msg) in
  let k := Z.to_nat ((55 - l) mod 64) in
  msg ++ [0x80] ++ repeat 0 k ++ be_bytes 8 (8 * l).

Fixpoint words_of_bytes (bs : list Z) : list Z :=
  match bs with
  | b0 :: b1 :: b2 :: b3 :: rest =>
      (((b0 * 256 + b1) * 256 + b2) * 256 + b3) :: words_of_bytes rest
  | _ => []
  end.

(** the message schedule, extended from 16 to 64 words *)
Fixpoint schedule (n : nat) (w : list Z) : list Z :=
  match n with
  | O => w
  | S n' =>
      let t := length w in
      let x := add32 (add32 (sigma1 (nth (t - 2) w 0)) (nth (t - 7) w 0))
                     (add32 (sigma0 (nth (t - 15) w 0)) (nth (t - 16) w 0)) in
      schedule n' (w ++ [x])
  end.

Definition round (st : list Z) (kw : Z * Z) : list Z :=
  match st with
  | [a; b; c; d; e; f; g; h] =>
      let t1 := add32 (add32 (add32 h (Sigma1 e)) (add32 (Ch e f g) (fst kw))) (snd kw) in
      let t2 := add32 (Sigma0 a) (Maj a b c) in
      [add32 t1 t2; a; b; c; add32 d t1; e; f; g]
  | _ => st
  end.

Definition compress (h : list Z) (block : list Z) : list Z :=
  let w := schedule 48 block in
  let st := fold_left round (combine K w) h in
  map (fun p => add32 (fst p) (snd p)) (combine h st).

Fixpoint blocks (n : nat) (ws : list Z) : list (list Z) :=
  match n with
  | O => []
  | S n' =>
      match ws with
      | [] => []
      | _ => firstn 16 ws :: blocks n' (skipn 16 ws)
      end
  end.

Definition digest_words (msg : list Z) : list Z :=
  let ws := words_of_bytes (pad msg) in
  fold_left compress (blocks (length ws) ws) H0.

Definition hex_digit (x : Z) : Ascii.ascii :=
  nth (Z.to_nat (x mod 16))
      (String.list_ascii_of_string "0123456789abcdef") "0"%char.

(** the eight hexadecimal digits of a 32-bit word *)
Definition hex_word (x : Z) : list Ascii.ascii :=
  map (fun i => hex_digit (Z.shiftr x (4 * i))) [7; 6; 5; 4; 3; 2; 1; 0].

(** the eight state words as they come out of the compression; a state of
    any other shape is completed with zeros, so a digest always has eight
    words *)
Definition eight (ws : list Z) : list Z :=
  map (fun i => nth i ws 0) (seq 0 8).

Definition hex (msg : string) : string :=
  String.string_of_list_ascii
    (concat (map hex_word (eight (digest_words (bytes_of_string msg))))).

End Sha256.

(** ** Node identifiers ([generateNodeId], tree-sitter.ts) *)

(** Modelled from the spec: the node kinds of the data model ([NodeKind] of
    types.ts, which is not among the sources). *)
Inductive NodeKind :=
| KFile | KModule | KNamespace | KClass | KInterface | KTrait | KStruct
| KEnum | KFunction | KMethod | KVariable | KConstant | KProperty | KField
| KParameter | KTypeAlias | KComponent | KRoute | KImport | KExport
| KProtocol | KEnumMember.

Definition kind_name (k : NodeKind) : string :=
  match k with
  | KFile => "file" | KModule => "module" | KNamespace => "namespace"
  | KClass => "class" | KInterface => "interface" | KTrait => "trait"
  | KStruct => "struct" | KEnum => "enum" | KFunction => "function"
  | KMethod => "method" | KVariable => "variable" | KConstant => "constant"
  | KProperty => "property" | KField => "field" | KParameter => "parameter"
  | KTypeAlias => "type_alias" | KComponent => "component" | KRoute => "route"
  | KImport => "import" | KExport => "export" | KProtocol => "protocol"
  | KEnumMember => "enum_member"
  end.

#[global] Instance NodeKind_eq_dec : EqDecision NodeKind.
Proof. solve_decision. Defined.

(** [String.prototype.substring(0, n)] *)
Definition substring0 (n : nat) (s : string) : string := String.substring 0 n s.

(** [`${line}`] for a line number *)
Definition show_nat (n : nat) : string := pretty n.

Definition generateNodeId (filePath : string) (kind : NodeKind) (name : string)
    (line : nat) : string :=
  let hash :=
    substring0 16
      (Sha256.hex (filePath ++ ":" ++ kind_name kind ++ ":" ++ name ++ ":" ++ show_nat line)) in
  kind_name kind ++ ":" ++ hash.

(** ** JavaScript string helpers *)

Module Js.

(** [s.startsWith(p)] *)
Definition startsWith (s p : string) : bool := String.prefix p s.

(** [s.includes(p)] *)
Definition includes (s p : string) : bool :=
  match String.index 0 p s with Some _ => true | None => false end.

(** A string is held as the bytes of its UTF-8 encoding.  The white space
    that [trim] and [parseInt] strip is WhiteSpace and LineTerminator of
    ECMAScript: TAB, LF, VT, FF, CR, space, U+00A0, U+1680, U+2000 to
    U+200A, U+2028, U+2029, U+202F, U+205F, U+3000 and U+FEFF, each
    recognised by its encoding.  Every encoding starts with a byte that
    starts a character wherever it stands, so the bytes of an encoding in a
    string are that character. *)
Definition whiteSpace : list (list nat) :=
  [ [9]; [10]; [11]; [12]; [13]; [32];
    [0xC2; 0xA0];
    [0xE1; 0x9A; 0x80];
    [0xE2; 0x80; 0x80]; [0xE2; 0x80; 0x81]; [0xE2; 0x80; 0x82];
    [0xE2; 0x80; 0x83]; [0xE2; 0x80; 0x84]; [0xE2; 0x80; 0x85];
    [0xE2; 0x80; 0x86]; [0xE2; 0x80; 0x87]; [0xE2; 0x80; 0x88];
    [0xE2; 0x80; 0x89]; [0xE2; 0x80; 0x8A];
    [0xE2; 0x80; 0xA8]; [0xE2; 0x80; 0xA9]; [0xE2; 0x80; 0xAF];
    [0xE2; 0x81; 0x9F];
    [0xE3; 0x80; 0x80];
    [0xEF; 0xBB; 0xBF] ]%nat.

(** [s] without the bytes [p] at its head, when it starts with them *)
Fixpoint stripBytes (p : list nat) (s : list ascii) : option (list ascii) :=
  match p, s with
  | [], _ => Some s
  | b :: p', c :: s' => if (nat_of_ascii c =? b)%nat then stripBytes p' s' else None
  | _ :: _, [] => None
  end.

(** [s] without the white-space character of [table] at its head *)
Fixpoint stripOne (table : list (list nat)) (s : list ascii) : option (list ascii) :=
  match table with
  | [] => None
  | p :: rest =>
      match stripBytes p s with
      | Some s' => Some s'
      | None => stripOne rest s
      end
  end.

(** white-space characters are taken off the head as long as there are
    any; each one takes at least a byte, so [n] steps are enough for a
    string of [n] bytes *)
Fixpoint stripAll (table : list (list nat)) (n : nat) (s : list ascii) : list ascii :=
  match n with
  | O => s
  | S n' =>
      match stripOne table s with
      | Some s' => stripAll table n' s'
      | None => s
      end
  end.

Definition trimStart (s : string) : string :=
  let l := String.list_ascii_of_string s in
  String.string_of_list_ascii (stripAll whiteSpace (length l) l).

(** the same from the end: the string and the encodings are read backwards *)
Definition trimEnd (s : string) : string :=
  let l := rev (String.list_ascii_of_string s) in
  String.string_of_list_ascii (rev (stripAll (map (@rev nat) whiteSpace) (length l) l)).

(** [s.trim()] *)
Definition trim (s : string) : string := trimEnd (trimStart s).

Definition digit_of (c : ascii) : option Z :=
  let n := nat_of_ascii c in
  if (48 <=? n)%nat && (n <=? 57)%nat then Some (Z.of_nat (n - 48)) else None.

(** the longest run of decimal digits at the head of [s], read in base 10;
    [None] when [s] does not start with a digit *)
Fixpoint digits (acc : option Z) (s : string) : option Z :=
  match s with
  | String c s' =>
      match digit_of c with
      | Some d => digits (Some (10 * default 0 acc + d)%Z) s'
      | None => acc
      end
  | EmptyString => acc
  end.

(** the Number values that [parseInt] returns *)
Inductive Num :=
| NaN
| Finite (z : Z)
| Infinity (negative : bool).

#[global] Instance Num_eq_dec : EqDecision Num.
Proof. solve_decision. Defined.

(** the Number for the integer [z]: [z] itself up to 2^53, beyond that the
    nearest integer with a 53-bit significand, the even one of two that
    are as near, and an infinity from 2^1024 on *)
Definition toNumber (z : Z) : Num :=
  let m := Z.abs z in
  if (m <? 2 ^ 53)%Z then Finite z
  else
    let e := (Z.log2 m - 52)%Z in
    let q := Z.shiftr m e in
    let r := (m - Z.shiftl q e)%Z in
    let half := Z.shiftl 1 (e - 1) in
    let q' := if (half <? r)%Z || ((r =? half)%Z && Z.odd q) then (q + 1)%Z else q in
    let v := Z.shiftl q' e in
    if (2 ^ 1024 <=? v)%Z then Infinity (z <? 0)%Z
    else Finite (Z.sgn z * v).

(** [parseInt(s, 10)]: leading white space, an optional sign, then digits;
    without a digit the result is NaN, otherwise the Number for the
    integer read (the two zeros are one value here) *)
Definition parseInt (s : string) : Num :=
  let number (negative : bool) (ds : string) :=
    match digits None ds with
    | Some v => toNumber (if negative then - v else v)
    | None => NaN
    end in
  match trimStart s with
  | String "-" s' => number true s'
  | String "+" s' => number false s'
  | s' => number false s'
  end.

(** [isNaN(n)] *)
Definition isNaN (n : Num) : bool :=
  match n with NaN => true | _ => false end.

Definition toLowerChar (c : ascii) : ascii :=
  let n := nat_of_ascii c in
  if (65 <=? n)%nat && (n <=? 90)%nat then ascii_of_nat (n + 32) else c.

(** [s.toLowerCase()] on ASCII letters *)
Fixpoint toLowerCase (s : string) : string :=
  match s with
  | String c s' => String (toLowerChar c) (toLowerCase s')
  | EmptyString => EmptyString
  end.

(** the part of [s] from its last ["."] on, when it has one:
    [s.substring(s.lastIndexOf('.'))] for a found index *)
Fixpoint fromLastDot (s : string) : option string :=
  match s with
  | String c s' =>
      match fromLastDot s' with
      | Some t => Some t
      | None => if Ascii.eqb c "." then Some s else None
      end
  | EmptyString => None
  end.

(** [arr.join(sepr)] *)
Fixpoint join (sepr : string) (l : list string) : string :=
  match l with
  | [] => ""
  | [x] => x
  | x :: rest => x ++ sepr ++ join sepr rest
  end.

(** [s.split(c)] for a one-character separator *)
Fixpoint split (c : ascii) (s : string) : list string :=
  match s with
  | EmptyString => [""]
  | String d s' =>
      if Ascii.eqb d c then "" :: split c s'
      else match split c s' with
           | x :: xs => String d x :: xs
           | [] => [String d ""]
           end
  end.

End Js.

(** ** Exceptions, and code that throws while it changes a state *)

Record Exn := mkExn { message : string; code : string }.

Definition Error (msg : string) : Exn := mkExn msg "".

Inductive Res (A : Type) : Type :=
| Ok (a : A)
| Throw (e : Exn).
Arguments Ok {A} a.
Arguments Throw {A} e.

(** a computation over a state [S] that returns or throws; the state
    reached when the exception was thrown is kept *)
Definition M (S A : Type) : Type := S -> Res A * S.

Definition ret {S A} (a : A) : M S A := fun s => (Ok a, s).
Definition throw {S A} (e : Exn) : M S A := fun s => (Throw e, s).
Definition bind {S A B} (m : M S A) (k : A -> M S B) : M S B :=
  fun s => match m s with
           | (Ok a, s') => k a s'
           | (Throw e, s') => (Throw e, s')
           end.
(** [try { m } catch (e) { h e }] *)
Definition try_catch {S A} (m : M S A) (h : Exn -> M S A) : M S A :=
  fun s => match m s with
           | (Ok a, s') => (Ok a, s')
           | (Throw e, s') => h e s'
           end.
Definition get {S} : M S S := fun s => (Ok s, s).
Definition put {S} (s : S) : M S unit := fun _ => (Ok tt, s).
Definition modify {S} (f : S -> S) : M S unit := fun s => (Ok tt, f s).

Notation "'let*' x ':=' m 'in' k" := (bind m (fun x => k))
  (at level 10, x name, m at level 100, k at level 200).
Notation "m ';;' k" := (bind m (fun _ => k))
  (at level 100, k at level 200, right associativity).

(** [for (const x of l) body(x)] *)
Fixpoint for_each {S A} (l : list A) (body : A -> M S unit) : M S unit :=
  match l with
  | [] => ret tt
  | x :: rest => body x ;; for_each rest body
  end.

(** [try { return m } finally { f }] *)
Definition try_finally {S A} (m : M S A) (f : M S unit) : M S A :=
  fun s =>
    let '(r, s') := m s in
    match f s' with
    | (Ok _, s'') => (r, s'')
    | (Throw e, s'') => (Throw e, s'')
    end.

(** ** Path checks ([validatePathWithinRoot], [isPathWithinRoot],
       [isPathWithinRootReal], utils.ts) over Node's POSIX [path] *)

Module Path.

Definition sep : string := "/".

Definition isAbsolute (p : string) : bool :=
  match p with String "/" _ => true | _ => false end.

(** Node's [normalizeString]: empty and ["."] segments go, [".."] removes
    the segment before it; above the root it is dropped, or kept when
    [allowAboveRoot].  [acc] is the stack of segments kept so far, last
    segment first. *)
Fixpoint normalizeSegs (allowAboveRoot : bool) (acc segs : list string)
    : list string :=
  match segs with
  | [] => rev acc
  | s :: rest =>
      if String.eqb s "" || String.eqb s "." then
        normalizeSegs allowAboveRoot acc rest
      else if String.eqb s ".." then
        match acc with
        | top :: acc' =>
            if String.eqb top ".." then
              normalizeSegs allowAboveRoot
                (if allowAboveRoot then ".." :: acc else acc) rest
            else normalizeSegs allowAboveRoot acc' rest
        | [] =>
            normalizeSegs allowAboveRoot
              (if allowAboveRoot then [".."] else []) rest
        end
      else normalizeSegs allowAboveRoot (s :: acc) rest
  end.

(** the loop of [path.resolve]: arguments are taken from the right, the
    working directory last, until one is absolute *)
Fixpoint resolveLoop (from_right : list string) (resolvedPath : string)
    : string * bool :=
  match from_right with
  | [] => (resolvedPath, false)
  | p :: rest =>
      if String.eqb p "" then resolveLoop rest resolvedPath
      else
        let resolvedPath' := p ++ "/" ++ resolvedPath in
        if isAbsolute p then (resolvedPath', true)
        else resolveLoop rest resolvedPath'
  end.

(** the segments of [path.resolve(...args)] *)
Definition resolveSegs (cwd : string) (args : list string) : list string :=
  let '(p, absolute) := resolveLoop (rev args ++ [cwd]) "" in
  normalizeSegs (negb absolute) [] (Js.split "/" p).

(** [path.resolve(...args)], in a process whose working directory is [cwd] *)
Definition resolve (cwd : string) (args : list string) : string :=
  let '(p, absolute) := resolveLoop (rev args ++ [cwd]) "" in
  let r := Js.join "/" (normalizeSegs (negb absolute) [] (Js.split "/" p)) in
  if absolute then "/" ++ r
  else if String.eqb r "" then "." else r.

Definition endsWithSlash (p : string) : bool :=
  match Js.split "/" p with
  | [] => false
  | l => String.eqb (List.last l "x") "" && negb (String.eqb p "")
  end.

(** [path.normalize(p)] *)
Definition normalize (p : string) : string :=
  if String.eqb p "" then "."
  else
    let absolute := isAbsolute p in
    let trailing := endsWithSlash p in
    let r := Js.join "/" (normalizeSegs (negb absolute) [] (Js.split "/" p)) in
    if String.eqb r "" then
      (if absolute then "/" else if trailing then "./" else ".")
    else
      let r' := if trailing then r ++ "/" else r in
      if absolute then "/" ++ r' else r'.

(** [path.join(...args)] *)
Definition join (args : list string) : string :=
  match filter (fun a => a <> "") args with
  | [] => "."
  | l => normalize (Js.join "/" l)
  end.

Definition validatePathWithinRoot (cwd projectRoot filePath : string)
    : option string :=
  let resolved := resolve cwd [projectRoot; filePath] in
  let normalizedRoot := resolve cwd [projectRoot] in
  if negb (Js.startsWith resolved (normalizedRoot ++ sep))
     && negb (String.eqb resolved normalizedRoot)
  then None
  else Some resolved.

Definition isPathWithinRoot (cwd filePath rootDir : string) : bool :=
  let resolvedPath := resolve cwd [rootDir; filePath] in
  let resolvedRoot := resolve cwd [rootDir] in
  Js.startsWith resolvedPath (resolvedRoot ++ sep)
  || String.eqb resolvedPath resolvedRoot.

(** [realpathSync] is the host's: [None] when it throws *)
Definition isPathWithinRootReal (realpathSync : string -> option string)
    (cwd filePath rootDir : string) : bool :=
  if negb (isPathWithinRoot cwd filePath rootDir) then false
  else
    match realpathSync (resolve cwd [rootDir; filePath]) with
    | None => true
    | Some realPath =>
        match realpathSync rootDir with
        | None => true
        | Some realRoot =>
            Js.startsWith realPath (realRoot ++ sep)
            || String.eqb realPath realRoot
        end
    end.

End Path.

(** ** The pid lock file ([FileLock], utils.ts) *)

Module Lock.

(** what [fs] shows of the directory that holds the lock file *)
Record File := mkFile { content : string; readable : bool }.
Record Fs := mkFs { files : gmap string File; dirWritable : bool }.

(** the running process: [process.pid], and whether [process.kill(p, 0)]
    returns for a pid [p] *)
Record Proc := mkProc { pid : Z; kill0 : Z -> bool }.

(** a [FileLock] instance together with the file system it works on *)
Record World := mkWorld { lockPath : string; held : bool; fs : Fs }.

Definition set_held (b : bool) : M World unit :=
  modify (fun w => mkWorld (lockPath w) b (fs w)).
Definition set_fs (f : Fs) : M World unit :=
  modify (fun w => mkWorld (lockPath w) (held w) f).

Definition fsError (c what p : string) : Exn :=
  mkExn (c ++ ": " ++ what ++ " '" ++ p ++ "'") c.

Definition existsSync (p : string) : M World bool :=
  let* w := get in ret (bool_decide (is_Some (files (fs w) !! p))).

Definition readFileSync (p : string) : M World string :=
  let* w := get in
  match files (fs w) !! p with
  | None => throw (fsError "ENOENT" "no such file or directory, open" p)
  | Some f =>
      if readable f then ret (content f)
      else throw (fsError "EACCES" "permission denied, open" p)
  end.

Definition unlinkSync (p : string) : M World unit :=
  let* w := get in
  match files (fs w) !! p with
  | None => throw (fsError "ENOENT" "no such file or directory, unlink" p)
  | Some _ =>
      if dirWritable (fs w)
      then set_fs (mkFs (delete p (files (fs w))) (dirWritable (fs w)))
      else throw (fsError "EACCES" "permission denied, unlink" p)
  end.

(** [writeFileSync(p, data, { flag: 'wx' })] *)
Definition writeFileSync_wx (p data : string) : M World unit :=
  let* w := get in
  match files (fs w) !! p with
  | Some _ => throw (fsError "EEXIST" "file already exists, open" p)
  | None =>
      if dirWritable (fs w)
      then set_fs (mkFs (<[p := mkFile data true]> (files (fs w))) (dirWritable (fs w)))
      else throw (fsError "EACCES" "permission denied, open" p)
  end.

(** [process.kill(p, 0)] throws for a [p] that is not a 32-bit integer
    ([p != (p | 0)]) before the system is asked; whatever [kill] throws,
    the process is taken for dead *)
Definition isProcessAlive (proc : Proc) (p : Js.Num) : bool :=
  match p with
  | Js.Finite z => (- 2 ^ 31 <=? z)%Z && (z <? 2 ^ 31)%Z && kill0 proc z
  | _ => false
  end.

(** [String(n)] for the Number of an integer below 2^53 *)
Definition showNumber (p : Js.Num) : string :=
  match p with
  | Js.Finite z => pretty z
  | Js.NaN => "NaN"
  | Js.Infinity negative => if negative then "-Infinity" else "Infinity"
  end.

Definition acquire (proc : Proc) : M World unit :=
  let* w := get in
  let lp := lockPath w in
  let* there := existsSync lp in
  (if there : bool then
     try_catch
       (let* raw := readFileSync lp in
        let content := Js.trim raw in
        let pid := Js.parseInt content in
        if negb (Js.isNaN pid) && isProcessAlive proc pid then
          throw (Error ("CodeGraph database is locked by another process (PID "
                        ++ showNumber pid ++ "). " ++ "If this is stale, delete " ++ lp))
        else unlinkSync lp)
       (fun err =>
          if Js.includes (message err) "locked by another" then throw err
          else try_catch (unlinkSync lp) (fun _ => ret tt))
   else ret tt) ;;
  try_catch
    (writeFileSync_wx lp (pretty (pid proc)) ;; set_held true)
    (fun err =>
       if String.eqb (code err) "EEXIST" then
         throw (Error ("CodeGraph database is locked by another process. "
                       ++ "If this is stale, delete " ++ lp))
       else throw err).

Definition release (proc : Proc) : M World unit :=
  let* w := get in
  if negb (held w) then ret tt
  else
    try_catch
      (let* raw := readFileSync (lockPath w) in
       let content := Js.trim raw in
       if bool_decide (Js.parseInt content = Js.Finite (pid proc))
       then unlinkSync (lockPath w)
       else ret tt)
      (fun _ => ret tt) ;;
    set_held false.


(** [withLock(fn)]: [fn] runs on the world that holds the lock instance *)
Definition withLock {A} (proc : Proc) (fn : M World A) : M World A :=
  acquire proc ;;
  try_finally fn (release proc).

End Lock.

(** ** The portable SQLite backend ([WasmDatabaseAdapter.transaction]) *)

Module Sqlite.

Section Adapter.

(** the rows of the database *)
Variable D : Type.

(** The wrapped engine [_db]: the committed rows, the rows of the open
    transaction if there is one, whether a COMMIT would find the file
    busy, and the SQL it was handed through [exec], oldest first. *)
Record Db := mkDb {
  committed : D;
  pending : option D;
  busy : bool;
  log : list string
}.

Definition logged (sql : string) (db : Db) : Db :=
  mkDb (committed db) (pending db) (busy db) (log db ++ [sql]).

(** [_db.exec(sql)] for the three statements the adapter issues *)
Definition exec (sql : string) : M Db unit :=
  fun db0 =>
    let db := logged sql db0 in
    if String.eqb sql "BEGIN" then
      match pending db with
      | Some _ =>
          (Throw (Error "cannot start a transaction within a transaction"), db)
      | None => (Ok tt, mkDb (committed db) (Some (committed db)) (busy db) (log db))
      end
    else if String.eqb sql "COMMIT" then
      match pending db with
      | Some d =>
          if busy db then (Throw (Error "database is locked"), db)
          else (Ok tt, mkDb d None (busy db) (log db))
      | None => (Throw (Error "cannot commit - no transaction is active"), db)
      end
    else if String.eqb sql "ROLLBACK" then
      match pending db with
      | Some _ => (Ok tt, mkDb (committed db) None (busy db) (log db))
      | None => (Throw (Error "cannot rollback - no transaction is active"), db)
      end
    else (Ok tt, db).

(** the rows a statement sees: those of the open transaction, else the
    committed ones *)
Definition current (db : Db) : D := default (committed db) (pending db).

Definition write (d : D) (db : Db) : Db :=
  match pending db with
  | Some _ => mkDb (committed db) (Some d) (busy db) (log db)
  | None => mkDb d None (busy db) (log db)
  end.

(** how a statement ends: it changes the rows; it fails and the open
    transaction stays as it is; or it fails and the engine rolls the open
    transaction back on its own, as SQLite does when the disk is full,
    on an I/O error, when out of memory, busy or interrupted *)
Inductive Outcome : Type :=
| Changed (d : D)
| Failed (e : Exn)
| RolledBack (e : Exn).

(** transaction control, however the statement is spelled *)
Inductive Control := Begin | Commit | Rollback.

Definition sql_of (c : Control) : string :=
  match c with Begin => "BEGIN" | Commit => "COMMIT" | Rollback => "ROLLBACK" end.

(** What a wrapped function can do: return, throw, run a statement, read
    rows, issue transaction control of its own, and catch what a part of
    it throws. *)
Inductive Fn : Type -> Type :=
| Return {A} (a : A) : Fn A
| Raise {A} (e : Exn) : Fn A
| Run {A} (stmt : D -> Outcome) (k : Fn A) : Fn A
| Query {A} (V : Type) (q : D -> V) (k : V -> Fn A) : Fn A
| Issue {A} (c : Control) (k : Fn A) : Fn A
| Attempt {A B} (body : Fn B) (k : Res B -> Fn A) : Fn A.

Fixpoint call {A} (fn : Fn A) : M Db A :=
  match fn with
  | Return a => ret a
  | Raise e => throw e
  | Run stmt k =>
      fun db => match stmt (current db) with
                | Changed d => call k (write d db)
                | Failed e => (Throw e, db)
                | RolledBack e =>
                    (Throw e, mkDb (committed db) None (busy db) (log db))
                end
  | Query V q k => fun db => call (k (q (current db))) db
  | Issue c k => exec (sql_of c) ;; call k
  | Attempt body k => fun db => let '(r, db') := call body db in call (k r) db'
  end.

(** the function leaves transaction control to its caller: it issues
    none, and none of its statements makes the engine roll back *)
Fixpoint leavesControl {A} (fn : Fn A) : Prop :=
  match fn with
  | Return _ | Raise _ => True
  | Run stmt k => (forall d e, stmt d <> RolledBack e) /\ leavesControl k
  | Query V q k => forall v, leavesControl (k v)
  | Issue _ _ => False
  | Attempt body k => leavesControl body /\ forall r, leavesControl (k r)
  end.

(** the function on rows that [fn] computes when run on its own *)
Fixpoint effect {A} (fn : Fn A) (d : D) : Res A * D :=
  match fn with
  | Return a => (Ok a, d)
  | Raise e => (Throw e, d)
  | Run stmt k =>
      match stmt d with
      | Changed d' => effect k d'
      | Failed e | RolledBack e => (Throw e, d)
      end
  | Query V q k => effect (k (q d)) d
  | Issue _ k => effect k d
  | Attempt body k => let '(r, d') := effect body d in effect (k r) d'
  end.

Definition transaction {A} (fn : M Db A) : M Db A :=
  exec "BEGIN" ;;
  try_catch
    (let* result := fn in
     exec "COMMIT" ;;
     ret result)
    (fun error => exec "ROLLBACK" ;; throw error).

End Adapter.

Arguments mkDb {D}.
Arguments committed {D}.
Arguments pending {D}.
Arguments busy {D}.
Arguments log {D}.
Arguments Changed {D}.
Arguments Failed {D}.
Arguments RolledBack {D}.
Arguments Return {D A}.
Arguments Raise {D A}.
Arguments Run {D A}.
Arguments Query {D A}.
Arguments Issue {D A}.
Arguments Attempt {D A B}.
Arguments call {D A}.
Arguments leavesControl {D A}.
Arguments effect {D A}.
Arguments transaction {D A}.
Arguments exec {D}.


(** a character of [\w] *)
Definition isWordChar (c : ascii) : bool :=
  let n := nat_of_ascii c in
  ((48 <=? n) && (n <=? 57) || (65 <=? n) && (n <=? 90)
   || (97 <=? n) && (n <=? 122) || (n =? 95))%nat.

Definition startsWithWord (s : string) : bool :=
  match s with String c _ => isWordChar c | EmptyString => false end.

(** [sql.replace(/@(\w+)/g, ...)] with the callback that pushes the name
    and returns [?]: the rewritten text and the names, from left to right.
    With [Some n] the text is read inside a name, of which [n] was read
    and whose [@] was replaced already. *)
Fixpoint replaceNamed (s : string) (name : option string) : string * list string :=
  match s with
  | EmptyString => (EmptyString, match name with Some n => [n] | None => [] end)
  | String c s' =>
      let outside :=
        if Ascii.eqb c "@" && startsWithWord s' then
          let '(o, ns) := replaceNamed s' (Some EmptyString) in (String "?" o, ns)
        else
          let '(o, ns) := replaceNamed s' None in (String c o, ns) in
      match name with
      | Some n =>
          if isWordChar c then replaceNamed s' (Some (n ++ String c EmptyString))
          else (fst outside, n :: snd outside)
      | None => outside
      end
  end.

(** [translateNamedParams(sql)]: [None] stands for the null [paramOrder] *)
Definition translateNamedParams (sql : string) : string * option (list string) :=
  let '(rewritten, paramOrder) := replaceNamed sql None in
  match paramOrder with
  | [] => (sql, None)
  | _ => (rewritten, Some paramOrder)
  end.

End Sqlite.

(** ** The grammar registry (grammars.ts) *)

Inductive Language :=
| LTypescript | LJavascript | LTsx | LJsx | LPython | LGo | LRust | LJava
| LC | LCpp | LCsharp | LPhp | LRuby | LSwift | LKotlin | LDart | LLiquid
| LUnknown.

#[global] Instance Language_eq_dec : EqDecision Language.
Proof. solve_decision. Defined.

Definition language_name (l : Language) : string :=
  match l with
  | LTypescript => "typescript" | LJavascript => "javascript" | LTsx => "tsx"
  | LJsx => "jsx" | LPython => "python" | LGo => "go" | LRust => "rust"
  | LJava => "java" | LC => "c" | LCpp => "cpp" | LCsharp => "csharp"
  | LPhp => "php" | LRuby => "ruby" | LSwift => "swift" | LKotlin => "kotlin"
  | LDart => "dart" | LLiquid => "liquid" | LUnknown => "unknown"
  end.

Module Grammars.

(** the grammar modules that [tryRequire] loads *)
Inductive Grammar :=
| TypeScript | TSX | JavaScript | Python | Go | Rust | Java | C | Cpp
| CSharp | PHP | Ruby | Swift | Kotlin | Dart.

#[global] Instance Grammar_eq_dec : EqDecision Grammar.
Proof. solve_decision. Defined.

Definition grammarEntries : list (Language * Grammar) :=
  [ (LTypescript, TypeScript); (LTsx, TSX); (LJavascript, JavaScript);
    (LJsx, JavaScript); (LPython, Python); (LGo, Go); (LRust, Rust);
    (LJava, Java); (LC, C); (LCpp, Cpp); (LCsharp, CSharp); (LPhp, PHP);
    (LRuby, Ruby); (LSwift, Swift); (LKotlin, Kotlin); (LDart, Dart) ].

(** [loaded g]: [tryRequire] found the module of [g] on this host.
    [GRAMMAR_MAP] holds the entries whose grammar is loaded. *)
Definition GRAMMAR_MAP (loaded : Grammar -> bool) (l : Language) : option Grammar :=
  snd <$> List.find (fun e => bool_decide (fst e = l) && loaded (snd e)) grammarEntries.

Definition EXTENSION_MAP : list (string * Language) :=
  [ (".ts", LTypescript); (".tsx", LTsx); (".js", LJavascript);
    (".mjs", LJavascript); (".cjs", LJavascript); (".jsx", LJsx);
    (".py", LPython); (".pyw", LPython); (".go", LGo); (".rs", LRust);
    (".java", LJava); (".c", LC); (".h", LC); (".cpp", LCpp); (".cc", LCpp);
    (".cxx", LCpp); (".hpp", LCpp); (".hxx", LCpp); (".cs", LCsharp);
    (".php", LPhp); (".rb", LRuby); (".rake", LRuby); (".swift", LSwift);
    (".kt", LKotlin); (".kts", LKotlin); (".dart", LDart);
    (".liquid", LLiquid) ].

(** The parser of a language is its grammar.  The parser cache only keeps
    what this function returned before, so it is left out. *)
Definition getParser (loaded : Grammar -> bool) (l : Language) : option Grammar :=
  GRAMMAR_MAP loaded l.

(** [lastIndexOf] gives -1 for a path without a dot, and [substring(-1)]
    is then the whole path *)
Definition detectLanguage (filePath : string) : Language :=
  let ext := Js.toLowerCase (default filePath (Js.fromLastDot filePath)) in
  match List.find (fun e => String.eqb (fst e) ext) EXTENSION_MAP with
  | Some e => snd e
  | None => LUnknown
  end.

Definition isLanguageSupported (loaded : Grammar -> bool) (l : Language) : bool :=
  if bool_decide (l = LLiquid) then true
  else negb (bool_decide (l = LUnknown))
       && bool_decide (is_Some (GRAMMAR_MAP loaded l)).


(** [Object.keys(GRAMMAR_MAP)], which are in the order in which the
    entries were stored, followed by ['liquid'] *)
Definition getSupportedLanguages (loaded : Grammar -> bool) : list Language :=
  ((fst <$> List.filter (fun e => loaded (snd e)) grammarEntries) ++ [LLiquid])%list.

End Grammars.

(** ** The graph model, as the extractor and the store use it *)

(** Modelled from the spec: the edge kinds of the data model ([EdgeKind] of
    types.ts, which is not among the sources). *)
Inductive EdgeKind :=
| EContains | EImports | EExports | ECalls | EExtends | EImplements
| EReturnsType | EThrows | EReads | EWrites | ERenders | EInstantiates
| EDecorates | EDependsOn | EReferences.

#[global] Instance EdgeKind_eq_dec : EqDecision EdgeKind.
Proof. solve_decision. Defined.

(** A node of the graph, with the fields that [createNode] sets.  The
    optional attributes that the per-language
    hooks fill in (docstring, signature, visibility and the exported, async
    and static flags) play no part in identity, containment or references
    and are not carried. *)
Record Node := mkNode {
  n_id : string;
  n_kind : NodeKind;
  n_name : string;
  n_qualifiedName : string;
  n_filePath : string;
  n_language : Language;
  n_startLine : nat;
  n_endLine : nat;
  n_startColumn : nat;
  n_endColumn : nat;
  n_updatedAt : nat
}.

Record Edge := mkEdge {
  e_source : string;
  e_target : string;
  e_kind : EdgeKind
}.

Record UnresolvedReference := mkRef {
  r_fromNodeId : string;
  r_referenceName : string;
  r_referenceKind : EdgeKind;
  r_line : nat;
  r_column : nat;
  r_filePath : option string;
  r_language : option Language
}.

Inductive Severity := SevError | SevWarning.

#[global] Instance Severity_eq_dec : EqDecision Severity.
Proof. solve_decision. Defined.

Record ExtractionError := mkError {
  err_message : string;
  severity : Severity
}.

(** [durationMs] is a reading of the clock and is not carried *)
Record ExtractionResult := mkResult {
  nodes : list Node;
  edges : list Edge;
  unresolvedReferences : list UnresolvedReference;
  errors : list ExtractionError
}.

#[global] Instance Node_eq_dec : EqDecision Node.
Proof. solve_decision. Defined.
#[global] Instance Edge_eq_dec : EqDecision Edge.
Proof. solve_decision. Defined.
#[global] Instance UnresolvedReference_eq_dec : EqDecision UnresolvedReference.
Proof. solve_decision. Defined.
#[global] Instance ExtractionError_eq_dec : EqDecision ExtractionError.
Proof. solve_decision. Defined.

(** ** Syntax trees, as tree-sitter hands them over *)

Record Point := mkPoint { row : nat; column : nat }.

#[local] Unset Elimination Schemes.
Inductive SyntaxNode := SN {
  sn_type : string;
  isNamed : bool;
  (** the field name under which the parent holds this node *)
  fieldName : option string;
  startIndex : nat;
  endIndex : nat;
  startPosition : Point;
  endPosition : Point;
  children : list SyntaxNode
}.
#[local] Set Elimination Schemes.

Definition namedChildren (n : SyntaxNode) : list SyntaxNode :=
  List.filter isNamed (children n).

Definition namedChild (n : SyntaxNode) (i : nat) : option SyntaxNode :=
  namedChildren n !! i.

Definition has_field (f : string) (c : SyntaxNode) : bool :=
  match fieldName c with Some g => String.eqb g f | None => false end.

Definition childForFieldName (n : SyntaxNode) (f : string) : option SyntaxNode :=
  List.find (has_field f) (children n).

(** [a || b] on values that may be null *)
Definition or_else {A} (a b : option A) : option A :=
  match a with Some _ => a | None => b end.

Definition isIn (s : string) (l : list string) : bool :=
  existsb (String.eqb s) l.


(** ** The extractor ([TreeSitterExtractor], tree-sitter.ts) *)

Module Extract.

Definition getNodeText (node : SyntaxNode) (source : string) : string :=
  String.substring (startIndex node) (endIndex node - startIndex node) source.

(** the per-language rule table; the optional hooks for signature,
    visibility and flags are left out together with the attributes they
    compute *)
Record LanguageExtractor := mkExtractor {
  functionTypes : list string;
  classTypes : list string;
  methodTypes : list string;
  interfaceTypes : list string;
  structTypes : list string;
  enumTypes : list string;
  importTypes : list string;
  callTypes : list string;
  nameField : string;
  bodyField : string
}.

Definition typescript_extractor : LanguageExtractor :=
  {| functionTypes := ["function_declaration"; "arrow_function"; "function_expression"];
     classTypes := ["class_declaration"];
     methodTypes := ["method_definition"; "public_field_definition"];
     interfaceTypes := ["interface_declaration"];
     structTypes := [];
     enumTypes := ["enum_declaration"];
     importTypes := ["import_statement"];
     callTypes := ["call_expression"];
     nameField := "name";
     bodyField := "body" |}.

Definition javascript_extractor : LanguageExtractor :=
  {| functionTypes := ["function_declaration"; "arrow_function"; "function_expression"];
     classTypes := ["class_declaration"];
     methodTypes := ["method_definition"; "field_definition"];
     interfaceTypes := [];
     structTypes := [];
     enumTypes := [];
     importTypes := ["import_statement"];
     callTypes := ["call_expression"];
     nameField := "name";
     bodyField := "body" |}.

Definition python_extractor : LanguageExtractor :=
  {| functionTypes := ["function_definition"];
     classTypes := ["class_definition"];
     methodTypes := ["function_definition"];
     interfaceTypes := [];
     structTypes := [];
     enumTypes := [];
     importTypes := ["import_statement"; "import_from_statement"];
     callTypes := ["call"];
     nameField := "name";
     bodyField := "body" |}.

Definition go_extractor : LanguageExtractor :=
  {| functionTypes := ["function_declaration"];
     classTypes := [];
     methodTypes := ["method_declaration"];
     interfaceTypes := ["interface_type"];
     structTypes := ["struct_type"];
     enumTypes := [];
     importTypes := ["import_declaration"];
     callTypes := ["call_expression"];
     nameField := "name";
     bodyField := "body" |}.

Definition rust_extractor : LanguageExtractor :=
  {| functionTypes := ["function_item"];
     classTypes := [];
     methodTypes := ["function_item"];
     interfaceTypes := ["trait_item"];
     structTypes := ["struct_item"];
     enumTypes := ["enum_item"];
     importTypes := ["use_declaration"];
     callTypes := ["call_expression"];
     nameField := "name";
     bodyField := "body" |}.

Definition java_extractor : LanguageExtractor :=
  {| functionTypes := [];
     classTypes := ["class_declaration"];
     methodTypes := ["method_declaration"; "constructor_declaration"];
     interfaceTypes := ["interface_declaration"];
     structTypes := [];
     enumTypes := ["enum_declaration"];
     importTypes := ["import_declaration"];
     callTypes := ["method_invocation"];
     nameField := "name";
     bodyField := "body" |}.

Definition c_extractor : LanguageExtractor :=
  {| functionTypes := ["function_definition"];
     classTypes := [];
     methodTypes := [];
     interfaceTypes := [];
     structTypes := ["struct_specifier"];
     enumTypes := ["enum_specifier"];
     importTypes := ["preproc_include"];
     callTypes := ["call_expression"];
     nameField := "declarator";
     bodyField := "body" |}.

Definition cpp_extractor : LanguageExtractor :=
  {| functionTypes := ["function_definition"];
     classTypes := ["class_specifier"];
     methodTypes := ["function_definition"];
     interfaceTypes := [];
     structTypes := ["struct_specifier"];
     enumTypes := ["enum_specifier"];
     importTypes := ["preproc_include"];
     callTypes := ["call_expression"];
     nameField := "declarator";
     bodyField := "body" |}.

Definition csharp_extractor : LanguageExtractor :=
  {| functionTypes := [];
     classTypes := ["class_declaration"];
     methodTypes := ["method_declaration"; "constructor_declaration"];
     interfaceTypes := ["interface_declaration"];
     structTypes := ["struct_declaration"];
     enumTypes := ["enum_declaration"];
     importTypes := ["using_directive"];
     callTypes := ["invocation_expression"];
     nameField := "name";
     bodyField := "body" |}.

Definition php_extractor : LanguageExtractor :=
  {| functionTypes := ["function_definition"];
     classTypes := ["class_declaration"];
     methodTypes := ["method_declaration"];
     interfaceTypes := ["interface_declaration"];
     structTypes := [];
     enumTypes := ["enum_declaration"];
     importTypes := ["namespace_use_declaration"];
     callTypes := ["function_call_expression"; "member_call_expression"; "scoped_call_expression"];
     nameField := "name";
     bodyField := "body" |}.

Definition ruby_extractor : LanguageExtractor :=
  {| functionTypes := ["method"];
     classTypes := ["class"];
     methodTypes := ["method"; "singleton_method"];
     interfaceTypes := [];
     structTypes := [];
     enumTypes := [];
     importTypes := ["call"];
     callTypes := ["call"; "method_call"];
     nameField := "name";
     bodyField := "body" |}.

Definition swift_extractor : LanguageExtractor :=
  {| functionTypes := ["function_declaration"];
     classTypes := ["class_declaration"];
     methodTypes := ["function_declaration"];
     interfaceTypes := ["protocol_declaration"];
     structTypes := ["struct_declaration"];
     enumTypes := ["enum_declaration"];
     importTypes := ["import_declaration"];
     callTypes := ["call_expression"];
     nameField := "name";
     bodyField := "body" |}.

Definition kotlin_extractor : LanguageExtractor :=
  {| functionTypes := ["function_declaration"];
     classTypes := ["class_declaration"];
     methodTypes := ["function_declaration"];
     interfaceTypes := ["class_declaration"];
     structTypes := [];
     enumTypes := ["class_declaration"];
     importTypes := ["import_header"];
     callTypes := ["call_expression"];
     nameField := "simple_identifier";
     bodyField := "function_body" |}.

Definition EXTRACTORS (l : Language) : option LanguageExtractor :=
  match l with
  | LTypescript | LTsx => Some typescript_extractor
  | LJavascript | LJsx => Some javascript_extractor
  | LPython => Some python_extractor
  | LGo => Some go_extractor
  | LRust => Some rust_extractor
  | LJava => Some java_extractor
  | LC => Some c_extractor
  | LCpp => Some cpp_extractor
  | LCsharp => Some csharp_extractor
  | LPhp => Some php_extractor
  | LRuby => Some ruby_extractor
  | LSwift => Some swift_extractor
  | LKotlin => Some kotlin_extractor
  | LDart | LLiquid | LUnknown => None
  end.

Definition anonymous : string := "<anonymous>".

Definition extractName (node : SyntaxNode) (source : string)
    (extractor : LanguageExtractor) : string :=
  match childForFieldName node (nameField extractor) with
  | Some nameNode =>
      if String.eqb (sn_type nameNode) "function_declarator"
         || String.eqb (sn_type nameNode) "declarator"
      then
        match or_else (childForFieldName nameNode "declarator")
                      (namedChild nameNode 0) with
        | Some innerName => getNodeText innerName source
        | None => getNodeText nameNode source
        end
      else getNodeText nameNode source
  | None =>
      match List.find
              (fun child =>
                 isIn (sn_type child)
                      ["identifier"; "type_identifier"; "simple_identifier"; "constant"])
              (namedChildren node) with
      | Some child => getNodeText child source
      | None => anonymous
      end
  end.

(** the fields of an extractor instance that are set once *)
Record Config := mkConfig {
  filePath : string;
  source : string;
  language : Language;
  (** [Date.now()] at the creation of the k-th node *)
  clock : nat -> nat
}.

(** the fields that the walk updates; the top of [nodeStack] is the head
    of the list *)
Record State := mkState {
  st_nodes : list Node;
  st_edges : list Edge;
  st_refs : list UnresolvedReference;
  st_errors : list ExtractionError;
  nodeStack : list string
}.

Definition initial : State := mkState [] [] [] [] [].

Definition push (i : string) (st : State) : State :=
  mkState (st_nodes st) (st_edges st) (st_refs st) (st_errors st) (i :: nodeStack st).
Definition pop (st : State) : State :=
  mkState (st_nodes st) (st_edges st) (st_refs st) (st_errors st) (tail (nodeStack st)).
Definition addRef (r : UnresolvedReference) (st : State) : State :=
  mkState (st_nodes st) (st_edges st) (st_refs st ++ [r]) (st_errors st) (nodeStack st).

Definition buildQualifiedName (cfg : Config) (st : State) (name : string) : string :=
  let parts :=
    ([filePath cfg]
     ++ omap (fun nodeId =>
                n_name <$> List.find (fun n => String.eqb (n_id n) nodeId) (st_nodes st))
             (rev (nodeStack st))
     ++ [name])%list in
  Js.join "::" parts.

Definition createNode (cfg : Config) (kind : NodeKind) (name : string)
    (node : SyntaxNode) (st : State) : Node * State :=
  let id := generateNodeId (filePath cfg) kind name (row (startPosition node) + 1) in
  let newNode :=
    {| n_id := id;
       n_kind := kind;
       n_name := name;
       n_qualifiedName := buildQualifiedName cfg st name;
       n_filePath := filePath cfg;
       n_language := language cfg;
       n_startLine := row (startPosition node) + 1;
       n_endLine := row (endPosition node) + 1;
       n_startColumn := column (startPosition node);
       n_endColumn := column (endPosition node);
       n_updatedAt := clock cfg (length (st_nodes st)) |} in
  let contains :=
    match nodeStack st with
    | parentId :: _ =>
        if String.eqb parentId "" then [] else [mkEdge parentId id EContains]
    | [] => []
    end in
  (newNode,
   mkState (st_nodes st ++ [newNode]) (st_edges st ++ contains)
           (st_refs st) (st_errors st) (nodeStack st)).

Definition extractCall (cfg : Config) (node : SyntaxNode) (st : State) : State :=
  match nodeStack st with
  | [] => st
  | callerId :: _ =>
      if String.eqb callerId "" then st
      else
        let calleeName :=
          match or_else (childForFieldName node "function") (namedChild node 0) with
          | Some func =>
              if String.eqb (sn_type func) "member_expression"
                 || String.eqb (sn_type func) "attribute"
              then
                match or_else (childForFieldName func "property") (namedChild func 1) with
                | Some property => getNodeText property (source cfg)
                | None => ""
                end
              else getNodeText func (source cfg)
          | None => ""
          end in
        if String.eqb calleeName "" then st
        else addRef {| r_fromNodeId := callerId;
                       r_referenceName := calleeName;
                       r_referenceKind := ECalls;
                       r_line := row (startPosition node) + 1;
                       r_column := column (startPosition node);
                       r_filePath := None;
                       r_language := None |} st
  end.

(** [visitForCalls] of [visitFunctionBody]: every call expression below
    and including [node] *)
Fixpoint visitForCalls (cfg : Config) (e : LanguageExtractor)
    (node : SyntaxNode) (st : State) : State :=
  let st1 := if isIn (sn_type node) (callTypes e) then extractCall cfg node st else st in
  (fix each (cs : list SyntaxNode) (s : State) : State :=
     match cs with
     | [] => s
     | child :: rest =>
         each rest (if isNamed child then visitForCalls cfg e child s else s)
     end) (children node) st1.

Definition visitFunctionBody (cfg : Config) (e : LanguageExtractor)
    (body : SyntaxNode) (st : State) : State :=
  visitForCalls cfg e body st.

Definition extractFunction (cfg : Config) (e : LanguageExtractor)
    (node : SyntaxNode) (st : State) : State :=
  let name := extractName node (source cfg) e in
  if String.eqb name anonymous then st
  else
    let '(funcNode, st1) := createNode cfg KFunction name node st in
    let st2 := push (n_id funcNode) st1 in
    let st3 :=
      match childForFieldName node (bodyField e) with
      | Some body => visitFunctionBody cfg e body st2
      | None => st2
      end in
    pop st3.

Definition extractMethod (cfg : Config) (e : LanguageExtractor)
    (node : SyntaxNode) (st : State) : State :=
  if bool_decide (nodeStack st = []) && negb (bool_decide (language cfg = LGo))
  then extractFunction cfg e node st
  else
    let name := extractName node (source cfg) e in
    let '(methodNode, st1) := createNode cfg KMethod name node st in
    let st2 := push (n_id methodNode) st1 in
    let st3 :=
      match childForFieldName node (bodyField e) with
      | Some body => visitFunctionBody cfg e body st2
      | None => st2
      end in
    pop st3.

(** the double quote and the single quote, which the [replace] of
    [extractImport] removes wherever they stand *)
Definition is_quote (c : ascii) : bool :=
  (nat_of_ascii c =? 34)%nat || (nat_of_ascii c =? 39)%nat.

Fixpoint stripQuotes (s : string) : string :=
  match s with
  | String c s' => if is_quote c then stripQuotes s' else String c (stripQuotes s')
  | EmptyString => EmptyString
  end.

Definition extractInheritance (cfg : Config) (node : SyntaxNode)
    (classId : string) (st : State) : State :=
  fold_left
    (fun s child =>
       let s1 :=
         if isIn (sn_type child) ["extends_clause"; "class_heritage"; "superclass"]
         then
           match namedChild child 0 with
           | Some superclass =>
               addRef {| r_fromNodeId := classId;
                         r_referenceName := getNodeText superclass (source cfg);
                         r_referenceKind := EExtends;
                         r_line := row (startPosition child) + 1;
                         r_column := column (startPosition child);
                         r_filePath := None;
                         r_language := None |} s
           | None => s
           end
         else s in
       if isIn (sn_type child) ["implements_clause"; "class_interface_clause"]
       then
         fold_left
           (fun s' iface =>
              addRef {| r_fromNodeId := classId;
                        r_referenceName := getNodeText iface (source cfg);
                        r_referenceKind := EImplements;
                        r_line := row (startPosition iface) + 1;
                        r_column := column (startPosition iface);
                        r_filePath := None;
                        r_language := None |} s')
           (namedChildren child) s1
       else s1)
    (namedChildren node) st.

(** [extractClass] and [extractStruct]; [visitBody] visits the named
    children of the body, which is the body field of the node or, without
    one, the node itself *)
Definition extractContainer (kind : NodeKind) (inherits : bool) (cfg : Config)
    (e : LanguageExtractor) (visitBody : State -> State)
    (node : SyntaxNode) (st : State) : State :=
  let name := extractName node (source cfg) e in
  let '(newNode, st1) := createNode cfg kind name node st in
  let st2 := if inherits then extractInheritance cfg node (n_id newNode) st1 else st1 in
  pop (visitBody (push (n_id newNode) st2)).

Definition extractClass := extractContainer KClass true.
Definition extractStruct := extractContainer KStruct false.

Definition extractInterface (cfg : Config) (e : LanguageExtractor)
    (node : SyntaxNode) (st : State) : State :=
  let name := extractName node (source cfg) e in
  let kind := if bool_decide (language cfg = LRust) then KTrait else KInterface in
  snd (createNode cfg kind name node st).

Definition extractEnum (cfg : Config) (e : LanguageExtractor)
    (node : SyntaxNode) (st : State) : State :=
  let name := extractName node (source cfg) e in
  snd (createNode cfg KEnum name node st).

Definition moduleNameOf (cfg : Config) (node : SyntaxNode) : string :=
  let importText := getNodeText node (source cfg) in
  if bool_decide (language cfg = LTypescript) || bool_decide (language cfg = LJavascript)
  then
    match childForFieldName node "source" with
    | Some src => stripQuotes (getNodeText src (source cfg))
    | None => ""
    end
  else if bool_decide (language cfg = LPython) then
    match or_else (childForFieldName node "module_name") (namedChild node 0) with
    | Some module => getNodeText module (source cfg)
    | None => ""
    end
  else if bool_decide (language cfg = LGo) then
    match namedChild node 0 with
    | Some path => stripQuotes (getNodeText path (source cfg))
    | None => ""
    end
  else importText.

Definition extractImport (cfg : Config) (node : SyntaxNode) (st : State) : State :=
  let moduleName := moduleNameOf cfg node in
  if negb (String.eqb moduleName "") && negb (bool_decide (nodeStack st = [])) then
    match nodeStack st with
    | parentId :: _ =>
        if String.eqb parentId "" then st
        else addRef {| r_fromNodeId := parentId;
                       r_referenceName := moduleName;
                       r_referenceKind := EImports;
                       r_line := row (startPosition node) + 1;
                       r_column := column (startPosition node);
                       r_filePath := None;
                       r_language := None |} st
    | [] => st
    end
  else st.

Definition hasChildOfType (node : SyntaxNode) (type : string) : bool :=
  existsb (fun child => String.eqb (sn_type child) type) (children node).

(** one step of [visitNode]: the dispatch on the node type.  [visitBody]
    and [visitChildren] stand for the visits of the named children of the
    body and of the node. *)
Definition visitNodeWith (cfg : Config) (e : LanguageExtractor)
    (visitBody visitChildren : State -> State)
    (node : SyntaxNode) (st : State) : State :=
  let nodeType := sn_type node in
  if isIn nodeType (functionTypes e) then
    if negb (bool_decide (nodeStack st = [])) && isIn nodeType (methodTypes e)
    then extractMethod cfg e node st
    else extractFunction cfg e node st
  else if isIn nodeType (classTypes e) then
    if bool_decide (language cfg = LSwift) && hasChildOfType node "struct"
    then extractStruct cfg e visitBody node st
    else if bool_decide (language cfg = LSwift) && hasChildOfType node "enum"
    then extractEnum cfg e node st
    else extractClass cfg e visitBody node st
  else if isIn nodeType (methodTypes e) then extractMethod cfg e node st
  else if isIn nodeType (interfaceTypes e) then extractInterface cfg e node st
  else if isIn nodeType (structTypes e) then extractStruct cfg e visitBody node st
  else if isIn nodeType (enumTypes e) then extractEnum cfg e node st
  else if isIn nodeType (importTypes e) then visitChildren (extractImport cfg node st)
  else if isIn nodeType (callTypes e) then visitChildren (extractCall cfg node st)
  else visitChildren st.

(** [visitNode] and the loop over the named children of a node, defined
    together by recursion on the tree: for every child the two visits are
    computed, and the body is looked up among the children *)
Fixpoint visitors (cfg : Config) (e : LanguageExtractor) (node : SyntaxNode)
    : (State -> State) * (State -> State) :=
  let kids :=
    (fix each (cs : list SyntaxNode) :=
       match cs with
       | [] => []
       | child :: rest => (child, visitors cfg e child) :: each rest
       end) (children node) in
  let visitChildren :=
    fun st =>
      fold_left (fun s kv => if isNamed (fst kv) then fst (snd kv) s else s) kids st in
  let visitBody :=
    match List.find (fun kv => has_field (bodyField e) (fst kv)) kids with
    | Some kv => snd (snd kv)
    | None => visitChildren
    end in
  (visitNodeWith cfg e visitBody visitChildren node, visitChildren).

Definition visitNode (cfg : Config) (node : SyntaxNode) (st : State) : State :=
  match EXTRACTORS (language cfg) with
  | None => st
  | Some e => fst (visitors cfg e node) st
  end.

(** [for (let i = 0; i < node.namedChildCount; i++) visitNode(node.namedChild(i))] *)
Definition visitNamedChildren (cfg : Config) (node : SyntaxNode) (st : State) : State :=
  fold_left (fun s child => visitNode cfg child s) (namedChildren node) st.

(** [getChildByField(node, bodyField) || node] *)
Definition bodyOf (e : LanguageExtractor) (node : SyntaxNode) : SyntaxNode :=
  default node (childForFieldName node (bodyField e)).

(** the host: which grammars loaded, what the parsers return (or throw),
    and the clock *)
Record Host := mkHost {
  loaded : Grammars.Grammar -> bool;
  parse : Grammars.Grammar -> string -> Exn + SyntaxNode;
  now : nat -> nat
}.

Definition extract (host : Host) (filePath source : string) (language : Language)
    : ExtractionResult :=
  if negb (Grammars.isLanguageSupported (loaded host) language) then
    mkResult [] [] []
      [mkError ("Unsupported language: " ++ language_name language) SevError]
  else
    match Grammars.getParser (loaded host) language with
    | None =>
        mkResult [] [] []
          [mkError ("Failed to get parser for language: " ++ language_name language)
                   SevError]
    | Some parser =>
        let cfg := mkConfig filePath source language (now host) in
        let st :=
          match parse host parser source with
          | inr rootNode => visitNode cfg rootNode initial
          | inl error =>
              mkState [] [] [] [mkError ("Parse error: " ++ message error) SevError] []
          end in
        mkResult (st_nodes st) (st_edges st) (st_refs st) (st_errors st)
    end.

(** [extractFromSource(filePath, source, language?)] *)
Definition extractFromSource (host : Host) (filePath source : string)
    (language : option Language) : ExtractionResult :=
  extract host filePath source
    (default (Grammars.detectLanguage filePath) language).

End Extract.

(** ** The graph store *)

Module Store.

Record FileRecord := mkFileRecord {
  f_path : string;
  f_contentHash : string;
  f_language : Language;
  f_size : N;
  f_modifiedAt : nat;
  f_indexedAt : nat;
  f_nodeCount : nat;
  f_errors : option (list ExtractionError)
}.

(** the tables: file records by path, and the rows of nodes, edges and
    unresolved references *)
Record Db := mkDb {
  t_files : gmap string FileRecord;
  t_nodes : list Node;
  t_edges : list Edge;
  t_refs : list UnresolvedReference
}.

Definition empty : Db := mkDb ∅ [] [] [].

(** Modelled from the spec: the prepared operations of the query builder
    ([db/queries], not among the sources).  [get_file_by_path] and
    [get_all_files] read the file records. *)
Definition getFileByPath (path : string) (db : Db) : option FileRecord :=
  t_files db !! path.

(** Modelled from the spec: [get_all_files()], every file record. *)
Definition getAllFiles (db : Db) : list FileRecord :=
  snd <$> map_to_list (t_files db).

(** Modelled from the spec: [delete_file(path)] cascades: deleting a file
    record deletes all its nodes and all outbound edges rooted at those
    nodes; the pending references of those nodes go with them. *)
Definition deleteFile (path : string) (db : Db) : Db :=
  let gone := n_id <$> List.filter (fun n => String.eqb (n_filePath n) path) (t_nodes db) in
  mkDb (delete path (t_files db))
       (List.filter (fun n => negb (String.eqb (n_filePath n) path)) (t_nodes db))
       (List.filter (fun e => negb (isIn (e_source e) gone)) (t_edges db))
       (List.filter (fun r => negb (isIn (r_fromNodeId r) gone)) (t_refs db)).

(** Modelled from the spec: [insert_nodes(nodes[])], the rows of a batch
    are added. *)
Definition insertNodes (ns : list Node) (db : Db) : Db :=
  mkDb (t_files db) (t_nodes db ++ ns) (t_edges db) (t_refs db).
(** Modelled from the spec: [insert_edges(edges[])]. *)
Definition insertEdges (es : list Edge) (db : Db) : Db :=
  mkDb (t_files db) (t_nodes db) (t_edges db ++ es) (t_refs db).
(** Modelled from the spec: [insert_unresolved_refs(refs[])]. *)
Definition insertUnresolvedRefsBatch (rs : list UnresolvedReference) (db : Db) : Db :=
  mkDb (t_files db) (t_nodes db) (t_edges db) (t_refs db ++ rs).
(** Modelled from the spec: [upsert_file(record)], the record of its path. *)
Definition upsertFile (r : FileRecord) (db : Db) : Db :=
  mkDb (<[f_path r := r]> (t_files db)) (t_nodes db) (t_edges db) (t_refs db).

End Store.

(** ** The extraction orchestrator ([ExtractionOrchestrator], utils.ts) *)

Module Orchestrator.

Record CodeGraphConfig := mkCodeGraphConfig {
  include : list string;
  exclude : list string;
  maxFileSize : N
}.

Record Stats := mkStats { size : N; mtimeMs : nat }.

(** What surrounds the orchestrator: the working directory, the files as
    [fs] reads them (or throws), [picomatch], the missing helper
    [normalizePath] of utils, the output of [git status --porcelain
    --no-renames] (none when the command fails), the list that
    [scanDirectory] returns, the host of the extractor and the clock. *)
Record Env := mkEnv {
  cwd : string;
  readFile : string -> Exn + string;
  stat : string -> Exn + Stats;
  isMatch : string -> string -> bool;
  normalizePath : string -> string;
  gitStatus : option string;
  scanned : list string;
  host : Extract.Host;
  dateNow : nat
}.

Inductive IoEvent := IoStat (p : string) | IoRead (p : string).

(** The store, the files touched so far, and a fault to come: with
    [Some k] the store performs [k] more mutations and fails the next. *)
Record World := mkWorld {
  db : Store.Db;
  io : list IoEvent;
  fault : option nat
}.

Definition query {A} (q : Store.Db -> A) : M World A :=
  fun w => (Ok (q (db w)), w).

Definition mutate (operation : string) (f : Store.Db -> Store.Db) : M World unit :=
  fun w =>
    match fault w with
    | Some O =>
        (Throw (mkExn ("Database error in " ++ operation) "SQLITE_ERROR"),
         mkWorld (db w) (io w) None)
    | Some (S k) => (Ok tt, mkWorld (f (db w)) (io w) (Some k))
    | None => (Ok tt, mkWorld (f (db w)) (io w) None)
    end.

Definition trace (ev : IoEvent) : M World unit :=
  modify (fun w => mkWorld (db w) (io w ++ [ev]) (fault w)).

Definition of_sum {A} (r : Exn + A) : M World A :=
  match r with inl e => throw e | inr a => ret a end.

Definition fsStat (env : Env) (p : string) : M World Stats :=
  trace (IoStat p) ;; of_sum (stat env p).
Definition fsReadFile (env : Env) (p : string) : M World string :=
  trace (IoRead p) ;; of_sum (readFile env p).

Definition hashContent (content : string) : string := Sha256.hex content.

Definition matchesGlob (env : Env) (filePath pattern : string) : bool :=
  isMatch env (normalizePath env filePath) pattern.

Definition shouldIncludeFile (env : Env) (filePath : string)
    (config : CodeGraphConfig) : bool :=
  if existsb (matchesGlob env filePath) (exclude config) then false
  else existsb (matchesGlob env filePath) (include config).

Record GitChanges := mkGitChanges {
  modified : list string;
  added : list string;
  deleted : list string
}.

Definition newline : ascii := ascii_of_nat 10.

Definition parseStatusLine (env : Env) (config : CodeGraphConfig)
    (acc : GitChanges) (line : string) : GitChanges :=
  if (String.length line <? 4)%nat then acc
  else
    let statusCode := String.substring 0 2 line in
    let filePath := normalizePath env (String.substring 3 (String.length line - 3) line) in
    if negb (shouldIncludeFile env filePath config) then acc
    else if String.eqb statusCode "??" then
      mkGitChanges (modified acc) (added acc ++ [filePath]) (deleted acc)
    else if Js.includes statusCode "D" then
      mkGitChanges (modified acc) (added acc) (deleted acc ++ [filePath])
    else
      mkGitChanges (modified acc ++ [filePath]) (added acc) (deleted acc).

Definition getGitChangedFiles (env : Env) (config : CodeGraphConfig)
    : option GitChanges :=
  match gitStatus env with
  | None => None
  | Some output =>
      Some (fold_left (parseStatusLine env config) (Js.split newline output)
                      (mkGitChanges [] [] []))
  end.

Section Instance.

Variable env : Env.
Variable rootDir : string.
Variable config : CodeGraphConfig.

Definition emptyResult (errs : list ExtractionError) : ExtractionResult :=
  mkResult [] [] [] errs.

Definition fileRecordOf (filePath content : string) (language : Language)
    (stats : Stats) (result : ExtractionResult) : Store.FileRecord :=
  {| Store.f_path := filePath;
     Store.f_contentHash := hashContent content;
     Store.f_language := language;
     Store.f_size := size stats;
     Store.f_modifiedAt := mtimeMs stats;
     Store.f_indexedAt := dateNow env;
     Store.f_nodeCount := length (nodes result);
     Store.f_errors :=
       match errors result with [] => None | l => Some l end |}.

Definition withContext (filePath : string) (language : Language)
    (ref : UnresolvedReference) : UnresolvedReference :=
  {| r_fromNodeId := r_fromNodeId ref;
     r_referenceName := r_referenceName ref;
     r_referenceKind := r_referenceKind ref;
     r_line := r_line ref;
     r_column := r_column ref;
     r_filePath := Some (default filePath (r_filePath ref));
     r_language := Some (default language (r_language ref)) |}.

Definition when (b : bool) (m : M World unit) : M World unit :=
  if b then m else ret tt.

Definition nonEmpty {A} (l : list A) : bool :=
  match l with [] => false | _ => true end.

Definition storeExtractionResult (filePath content : string)
    (language : Language) (stats : Stats) (result : ExtractionResult)
    : M World unit :=
  let contentHash := hashContent content in
  let* existingFile := query (Store.getFileByPath filePath) in
  if match existingFile with
     | Some existing => String.eqb (Store.f_contentHash existing) contentHash
     | None => false
     end
  then ret tt
  else
    when (bool_decide (is_Some existingFile))
         (mutate "deleteFile" (Store.deleteFile filePath)) ;;
    when (nonEmpty (nodes result))
         (mutate "insertNodes" (Store.insertNodes (nodes result))) ;;
    when (nonEmpty (edges result))
         (mutate "insertEdges" (Store.insertEdges (edges result))) ;;
    when (nonEmpty (unresolvedReferences result))
         (mutate "insertUnresolvedRefsBatch"
            (Store.insertUnresolvedRefsBatch
               (withContext filePath language <$> unresolvedReferences result))) ;;
    mutate "upsertFile"
      (Store.upsertFile (fileRecordOf filePath content language stats result)).

Definition indexFileWithContent (relativePath content : string) (stats : Stats)
    : M World ExtractionResult :=
  match Path.validatePathWithinRoot (cwd env) rootDir relativePath with
  | None => ret (emptyResult [mkError "Path traversal blocked" SevError])
  | Some _ =>
      if (maxFileSize config <? size stats)%N then
        ret (emptyResult
               [mkError ("File exceeds max size (" ++ pretty (size stats) ++ " > "
                         ++ pretty (maxFileSize config) ++ ")") SevWarning])
      else
        let language := Grammars.detectLanguage relativePath in
        if negb (Grammars.isLanguageSupported (Extract.loaded (host env)) language)
        then ret (emptyResult [])
        else
          let result :=
            Extract.extractFromSource (host env) relativePath content (Some language) in
          when (nonEmpty (nodes result) || negb (nonEmpty (errors result)))
               (storeExtractionResult relativePath content language stats result) ;;
          ret result
  end.

Definition indexFile (relativePath : string) : M World ExtractionResult :=
  match Path.validatePathWithinRoot (cwd env) rootDir relativePath with
  | None =>
      ret (emptyResult
             [mkError ("Path traversal blocked: " ++ relativePath) SevError])
  | Some fullPath =>
      let* read :=
        try_catch
          (let* stats := fsStat env fullPath in
           let* content := fsReadFile env fullPath in
           ret (inr (content, stats)))
          (fun error => ret (inl error)) in
      match read with
      | inl error =>
          ret (emptyResult
                 [mkError ("Failed to read file: " ++ message error) SevError])
      | inr (content, stats) => indexFileWithContent relativePath content stats
      end
  end.

(** [durationMs] is a reading of the clock and is not carried *)
Record IndexResult := mkIndexResult {
  success : bool;
  filesIndexed : nat;
  filesSkipped : nat;
  nodesCreated : nat;
  edgesCreated : nat;
  indexErrors : list ExtractionError
}.

Definition countFile (result : ExtractionResult) (r : IndexResult) : IndexResult :=
  let errs := (indexErrors r ++ errors result)%list in
  if nonEmpty (nodes result) then
    mkIndexResult (success r) (filesIndexed r + 1) (filesSkipped r)
                  (nodesCreated r + length (nodes result))
                  (edgesCreated r + length (edges result)) errs
  else
    mkIndexResult (success r) (filesIndexed r) (filesSkipped r + 1)
                  (nodesCreated r) (edgesCreated r) errs.

Fixpoint indexEach (filePaths : list string) (r : IndexResult) : M World IndexResult :=
  match filePaths with
  | [] => ret r
  | filePath :: rest =>
      let* result := indexFile filePath in
      indexEach rest (countFile result r)
  end.

Definition indexFiles (filePaths : list string) : M World IndexResult :=
  let* r := indexEach filePaths (mkIndexResult true 0 0 0 0 []) in
  ret (mkIndexResult
         (negb (existsb (fun e => bool_decide (severity e = SevError)) (indexErrors r)))
         (filesIndexed r) (filesSkipped r) (nodesCreated r) (edgesCreated r)
         (indexErrors r)).

Record SyncResult := mkSyncResult {
  filesChecked : nat;
  filesAdded : nat;
  filesModified : nat;
  filesRemoved : nat;
  nodesUpdated : nat;
  changedFilePaths : option (list string)
}.

(** the counters and lists that the loops of [sync] update *)
Record Tally := mkTally {
  filesToIndex : list string;
  changed : list string;
  nAdded : nat;
  nModified : nat;
  nRemoved : nat
}.

Definition tallyAdded (filePath : string) (t : Tally) : Tally :=
  mkTally (filesToIndex t ++ [filePath]) (changed t ++ [filePath])
          (nAdded t + 1) (nModified t) (nRemoved t).
Definition tallyModified (filePath : string) (t : Tally) : Tally :=
  mkTally (filesToIndex t ++ [filePath]) (changed t ++ [filePath])
          (nAdded t) (nModified t + 1) (nRemoved t).
Definition tallyRemoved (t : Tally) : Tally :=
  mkTally (filesToIndex t) (changed t) (nAdded t) (nModified t) (nRemoved t + 1).

(** the elements of [new Set(l)] in iteration order: each one at its first
    occurrence *)
Fixpoint distinct (seen l : list string) : list string :=
  match l with
  | [] => []
  | x :: rest =>
      if bool_decide (x ∈ seen) then distinct seen rest
      else x :: distinct (x :: seen) rest
  end.

(** [for (const x of l)] with the tally carried along *)
Fixpoint loop {A} (l : list A) (body : A -> Tally -> M World Tally) (t : Tally)
    : M World Tally :=
  match l with
  | [] => ret t
  | x :: rest => let* t' := body x t in loop rest body t'
  end.

(** the body shared by the loop over the modified files of the fast path
    and the loop over the scanned files of the fallback: read, hash,
    compare with the record [tracked] *)
Definition checkFile (lookup : string -> M World (option Store.FileRecord))
    (filePath : string) (t : Tally) : M World Tally :=
  let fullPath := Path.join [rootDir; filePath] in
  let* read :=
    try_catch (let* content := fsReadFile env fullPath in ret (Some content))
              (fun _ => ret None) in
  match read with
  | None => ret t
  | Some content =>
      let contentHash := hashContent content in
      let* tracked := lookup filePath in
      match tracked with
      | None => ret (tallyAdded filePath t)
      | Some r =>
          if negb (String.eqb (Store.f_contentHash r) contentHash)
          then ret (tallyModified filePath t)
          else ret t
      end
  end.

(** the body of the loop over the deleted files of the fast path *)
Definition removeIfTracked (filePath : string) (t : Tally) : M World Tally :=
  let* tracked := query (Store.getFileByPath filePath) in
  match tracked with
  | Some _ =>
      mutate "deleteFile" (Store.deleteFile filePath) ;;
      ret (tallyRemoved t)
  | None => ret t
  end.

Definition syncGit (gitChanges : GitChanges) : M World Tally :=
  let* t1 := loop (deleted gitChanges) removeIfTracked (mkTally [] [] 0 0 0) in
  let* t2 :=
    loop (modified gitChanges)
      (checkFile (fun p => query (Store.getFileByPath p))) t1 in
  loop (added gitChanges) (fun filePath t => ret (tallyAdded filePath t)) t2.

(** the body of the loop over the file records of the fallback *)
Definition removeIfGone (currentFiles : list string) (tracked : Store.FileRecord)
    (t : Tally) : M World Tally :=
  if negb (bool_decide (Store.f_path tracked ∈ currentFiles)) then
    mutate "deleteFile" (Store.deleteFile (Store.f_path tracked)) ;;
    ret (tallyRemoved t)
  else ret t.

(** [trackedMap]: the file records by path *)
Definition trackedMapOf (trackedFiles : list Store.FileRecord)
    : gmap string Store.FileRecord :=
  fold_left (fun m f => <[Store.f_path f := f]> m) trackedFiles ∅.

Definition syncScan : M World Tally :=
  let currentFiles := distinct [] (scanned env) in
  let* trackedFiles := query Store.getAllFiles in
  let trackedMap := trackedMapOf trackedFiles in
  let* t1 := loop trackedFiles (removeIfGone currentFiles) (mkTally [] [] 0 0 0) in
  loop currentFiles (checkFile (fun p => ret (trackedMap !! p))) t1.

(** the last loop of [sync]: index the changed files, counting the nodes *)
Fixpoint indexChanged (l : list string) (nodesUpdated : nat) : M World nat :=
  match l with
  | [] => ret nodesUpdated
  | filePath :: rest =>
      let* result := indexFile filePath in
      indexChanged rest (nodesUpdated + length (nodes result))
  end.

Definition sync : M World SyncResult :=
  let gitChanges := getGitChangedFiles env config in
  let* checked_tally :=
    match gitChanges with
    | Some g =>
        let* t := syncGit g in
        ret (length (modified g) + length (added g) + length (deleted g), t)
    | None =>
        let* t := syncScan in
        ret (length (distinct [] (scanned env)), t)
    end in
  let '(checked, t) := checked_tally in
  let* updated := indexChanged (filesToIndex t) 0 in
  ret {| filesChecked := checked;
         filesAdded := nAdded t;
         filesModified := nModified t;
         filesRemoved := nRemoved t;
         nodesUpdated := updated;
         changedFilePaths :=
           match changed t with [] => None | l => Some l end |}.


(** what [getChangedFiles] returns *)
Record ChangedFiles := mkChangedFiles {
  addedFiles : list string;
  modifiedFiles : list string;
  removedFiles : list string
}.

Definition pushAdded (filePath : string) (c : ChangedFiles) : ChangedFiles :=
  mkChangedFiles (addedFiles c ++ [filePath]) (modifiedFiles c) (removedFiles c).
Definition pushModified (filePath : string) (c : ChangedFiles) : ChangedFiles :=
  mkChangedFiles (addedFiles c) (modifiedFiles c ++ [filePath]) (removedFiles c).
Definition pushRemoved (filePath : string) (c : ChangedFiles) : ChangedFiles :=
  mkChangedFiles (addedFiles c) (modifiedFiles c) (removedFiles c ++ [filePath]).

(** [for (const x of l)] with the three lists carried along *)
Fixpoint collect {A} (l : list A) (body : A -> ChangedFiles -> M World ChangedFiles)
    (c : ChangedFiles) : M World ChangedFiles :=
  match l with
  | [] => ret c
  | x :: rest => let* c' := body x c in collect rest body c'
  end.

(** the body shared by the loop of [getChangedFiles] over the modified
    files of the fast path and its loop over the scanned files of the
    fallback *)
Definition detectFile (lookup : string -> M World (option Store.FileRecord))
    (filePath : string) (c : ChangedFiles) : M World ChangedFiles :=
  let fullPath := Path.join [rootDir; filePath] in
  let* read :=
    try_catch (let* content := fsReadFile env fullPath in ret (Some content))
              (fun _ => ret None) in
  match read with
  | None => ret c
  | Some content =>
      let contentHash := hashContent content in
      let* tracked := lookup filePath in
      match tracked with
      | None => ret (pushAdded filePath c)
      | Some r =>
          if negb (String.eqb (Store.f_contentHash r) contentHash)
          then ret (pushModified filePath c)
          else ret c
      end
  end.

Definition reportIfTracked (filePath : string) (c : ChangedFiles)
    : M World ChangedFiles :=
  let* tracked := query (Store.getFileByPath filePath) in
  match tracked with
  | Some _ => ret (pushRemoved filePath c)
  | None => ret c
  end.

Definition reportIfGone (currentFiles : list string) (tracked : Store.FileRecord)
    (c : ChangedFiles) : M World ChangedFiles :=
  if negb (bool_decide (Store.f_path tracked ∈ currentFiles))
  then ret (pushRemoved (Store.f_path tracked) c)
  else ret c.

Definition getChangedFiles : M World ChangedFiles :=
  match getGitChangedFiles env config with
  | Some gitChanges =>
      let* c1 := collect (deleted gitChanges) reportIfTracked (mkChangedFiles [] [] []) in
      let* c2 :=
        collect (modified gitChanges)
          (detectFile (fun p => query (Store.getFileByPath p))) c1 in
      collect (added gitChanges) (fun filePath c => ret (pushAdded filePath c)) c2
  | None =>
      let currentFiles := distinct [] (scanned env) in
      let* trackedFiles := query Store.getAllFiles in
      let trackedMap := trackedMapOf trackedFiles in
      let* c1 := collect trackedFiles (reportIfGone currentFiles) (mkChangedFiles [] [] []) in
      collect currentFiles (detectFile (fun p => ret (trackedMap !! p))) c1
  end.

End Instance.

End Orchestrator.

(** ** Vocabulary of the results *)

(** the lock file is there, can be read and holds the pid of [proc] *)
Definition ownsFile (proc : Lock.Proc) (w : Lock.World) : bool :=
  match Lock.files (Lock.fs w) !! Lock.lockPath w with
  | Some f => Lock.readable f && bool_decide (Js.parseInt (Js.trim (Lock.content f)) = Js.Finite (Lock.pid proc))
  | None => false
  end.

(** the mutations that [storeExtractionResult] issues for a file that is new
    or stale, in the order in which it issues them *)
Definition mutationsFor (env : Orchestrator.Env) (filePath content : string)
    (language : Language) (stats : Orchestrator.Stats) (result : ExtractionResult)
    (d : Store.Db) : list (Store.Db -> Store.Db) :=
  ((if bool_decide (is_Some (Store.getFileByPath filePath d))
    then [Store.deleteFile filePath] else [])
   ++ (if Orchestrator.nonEmpty (nodes result)
       then [Store.insertNodes (nodes result)] else [])
   ++ (if Orchestrator.nonEmpty (edges result)
       then [Store.insertEdges (edges result)] else [])
   ++ (if Orchestrator.nonEmpty (unresolvedReferences result)
       then [Store.insertUnresolvedRefsBatch
               (Orchestrator.withContext filePath language <$> unresolvedReferences result)]
       else [])
   ++ [Store.upsertFile
         (Orchestrator.fileRecordOf env filePath content language stats result)])%list.

Definition applyAll (fs : list (Store.Db -> Store.Db)) (d : Store.Db) : Store.Db :=
  fold_left (fun d f => f d) fs d.

(** the store holds a record of [filePath] with the hash of [content] *)
Definition unchanged (filePath content : string) (d : Store.Db) : Prop :=
  exists r, Store.getFileByPath filePath d = Some r
            /\ Store.f_contentHash r = Orchestrator.hashContent content.

(** ** Sample programs, hosts and stores *)

Definition ts_import_source : string :=
  "import { x } from './x';
export function hello() { return x(); }
".

Definition ts_import_tree : SyntaxNode :=
  (SN "program" true None 0 65 (mkPoint 0 0) (mkPoint 2 0)
     [ (SN "import_statement" true None 0 24 (mkPoint 0 0) (mkPoint 0 24)
       [ (SN "import" false None 0 6 (mkPoint 0 0) (mkPoint 0 6) []);
         (SN "import_clause" true None 7 12 (mkPoint 0 7) (mkPoint 0 12)
         [ (SN "named_imports" true None 7 12 (mkPoint 0 7) (mkPoint 0 12)
           [ (SN "import_specifier" true None 9 10 (mkPoint 0 9) (mkPoint 0 10)
             [ (SN "identifier" true (Some "name") 9 10 (mkPoint 0 9) (mkPoint 0 10) []) ]) ]) ]);
         (SN "from" false None 13 17 (mkPoint 0 13) (mkPoint 0 17) []);
         (SN "string" true (Some "source") 18 23 (mkPoint 0 18) (mkPoint 0 23)
         [ (SN "string_fragment" true None 19 22 (mkPoint 0 19) (mkPoint 0 22) []) ]) ]);
       (SN "export_statement" true None 25 64 (mkPoint 1 0) (mkPoint 1 39)
       [ (SN "export" false None 25 31 (mkPoint 1 0) (mkPoint 1 6) []);
         (SN "function_declaration" true (Some "declaration") 32 64 (mkPoint 1 7) (mkPoint 1 39)
         [ (SN "function" false None 32 40 (mkPoint 1 7) (mkPoint 1 15) []);
           (SN "identifier" true (Some "name") 41 46 (mkPoint 1 16) (mkPoint 1 21) []);
           (SN "formal_parameters" true (Some "parameters") 46 48 (mkPoint 1 21) (mkPoint 1 23) []);
           (SN "statement_block" true (Some "body") 49 64 (mkPoint 1 24) (mkPoint 1 39)
           [ (SN "return_statement" true None 51 62 (mkPoint 1 26) (mkPoint 1 37)
             [ (SN "call_expression" true None 58 61 (mkPoint 1 33) (mkPoint 1 36)
               [ (SN "identifier" true (Some "function") 58 59 (mkPoint 1 33) (mkPoint 1 34) []);
                 (SN "arguments" true (Some "arguments") 59 61 (mkPoint 1 34) (mkPoint 1 36) []) ]) ]) ]) ]) ]) ]).

Definition ts_static_block_source : string :=
  "class A {
  static {
    function f() {}
  }
  m() { g(); }
}
".

Definition ts_static_block_tree : SyntaxNode :=
  (SN "program" true None 0 62 (mkPoint 0 0) (mkPoint 6 0)
     [ (SN "class_declaration" true None 0 61 (mkPoint 0 0) (mkPoint 5 1)
       [ (SN "class" false None 0 5 (mkPoint 0 0) (mkPoint 0 5) []);
         (SN "type_identifier" true (Some "name") 6 7 (mkPoint 0 6) (mkPoint 0 7) []);
         (SN "class_body" true (Some "body") 8 61 (mkPoint 0 8) (mkPoint 5 1)
         [ (SN "class_static_block" true None 12 44 (mkPoint 1 2) (mkPoint 3 3)
           [ (SN "static" false None 12 18 (mkPoint 1 2) (mkPoint 1 8) []);
             (SN "statement_block" true (Some "body") 19 44 (mkPoint 1 9) (mkPoint 3 3)
             [ (SN "function_declaration" true None 25 40 (mkPoint 2 4) (mkPoint 2 19)
               [ (SN "function" false None 25 33 (mkPoint 2 4) (mkPoint 2 12) []);
                 (SN "identifier" true (Some "name") 34 35 (mkPoint 2 13) (mkPoint 2 14) []);
                 (SN "formal_parameters" true (Some "parameters") 35 37 (mkPoint 2 14) (mkPoint 2 16) []);
                 (SN "statement_block" true (Some "body") 38 40 (mkPoint 2 17) (mkPoint 2 19) []) ]) ]) ]);
           (SN "method_definition" true None 47 59 (mkPoint 4 2) (mkPoint 4 14)
           [ (SN "property_identifier" true (Some "name") 47 48 (mkPoint 4 2) (mkPoint 4 3) []);
             (SN "formal_parameters" true (Some "parameters") 48 50 (mkPoint 4 3) (mkPoint 4 5) []);
             (SN "statement_block" true (Some "body") 51 59 (mkPoint 4 6) (mkPoint 4 14)
             [ (SN "expression_statement" true None 53 57 (mkPoint 4 8) (mkPoint 4 12)
               [ (SN "call_expression" true None 53 56 (mkPoint 4 8) (mkPoint 4 11)
                 [ (SN "identifier" true (Some "function") 53 54 (mkPoint 4 8) (mkPoint 4 9) []);
                   (SN "arguments" true (Some "arguments") 54 56 (mkPoint 4 9) (mkPoint 4 11) []) ]) ]) ]) ]) ]) ]) ]).

Definition py_nested_source : string :=
  "def outer():
    def inner():
        pass
    inner()
".

Definition py_nested_tree : SyntaxNode :=
  (SN "module" true None 0 55 (mkPoint 0 0) (mkPoint 4 0)
     [ (SN "function_definition" true None 0 54 (mkPoint 0 0) (mkPoint 3 11)
       [ (SN "def" false None 0 3 (mkPoint 0 0) (mkPoint 0 3) []);
         (SN "identifier" true (Some "name") 4 9 (mkPoint 0 4) (mkPoint 0 9) []);
         (SN "parameters" true (Some "parameters") 9 11 (mkPoint 0 9) (mkPoint 0 11) []);
         (SN "block" true (Some "body") 17 54 (mkPoint 1 4) (mkPoint 3 11)
         [ (SN "function_definition" true None 17 42 (mkPoint 1 4) (mkPoint 2 12)
           [ (SN "def" false None 17 20 (mkPoint 1 4) (mkPoint 1 7) []);
             (SN "identifier" true (Some "name") 21 26 (mkPoint 1 8) (mkPoint 1 13) []);
             (SN "parameters" true (Some "parameters") 26 28 (mkPoint 1 13) (mkPoint 1 15) []);
             (SN "block" true (Some "body") 38 42 (mkPoint 2 8) (mkPoint 2 12)
             [ (SN "pass_statement" true None 38 42 (mkPoint 2 8) (mkPoint 2 12) []) ]) ]);
           (SN "expression_statement" true None 47 54 (mkPoint 3 4) (mkPoint 3 11)
           [ (SN "call" true None 47 54 (mkPoint 3 4) (mkPoint 3 11)
             [ (SN "identifier" true (Some "function") 47 52 (mkPoint 3 4) (mkPoint 3 9) []);
               (SN "argument_list" true (Some "arguments") 52 54 (mkPoint 3 9) (mkPoint 3 11) []) ]) ]) ]) ]) ]).

Definition py_class_import_source : string :=
  "class A:
    import os
    def m(self):
        pass
".

Definition py_class_import_tree : SyntaxNode :=
  (SN "module" true None 0 53 (mkPoint 0 0) (mkPoint 4 0)
     [ (SN "class_definition" true None 0 52 (mkPoint 0 0) (mkPoint 3 12)
       [ (SN "class" false None 0 5 (mkPoint 0 0) (mkPoint 0 5) []);
         (SN "identifier" true (Some "name") 6 7 (mkPoint 0 6) (mkPoint 0 7) []);
         (SN "block" true (Some "body") 13 52 (mkPoint 1 4) (mkPoint 3 12)
         [ (SN "import_statement" true None 13 22 (mkPoint 1 4) (mkPoint 1 13)
           [ (SN "import" false None 13 19 (mkPoint 1 4) (mkPoint 1 10) []);
             (SN "dotted_name" true (Some "name") 20 22 (mkPoint 1 11) (mkPoint 1 13)
             [ (SN "identifier" true None 20 22 (mkPoint 1 11) (mkPoint 1 13) []) ]) ]);
           (SN "function_definition" true None 27 52 (mkPoint 2 4) (mkPoint 3 12)
           [ (SN "def" false None 27 30 (mkPoint 2 4) (mkPoint 2 7) []);
             (SN "identifier" true (Some "name") 31 32 (mkPoint 2 8) (mkPoint 2 9) []);
             (SN "parameters" true (Some "parameters") 32 38 (mkPoint 2 9) (mkPoint 2 15)
             [ (SN "identifier" true None 33 37 (mkPoint 2 10) (mkPoint 2 14) []) ]);
             (SN "block" true (Some "body") 48 52 (mkPoint 3 8) (mkPoint 3 12)
             [ (SN "pass_statement" true None 48 52 (mkPoint 3 8) (mkPoint 3 12) []) ]) ]) ]) ]) ]).

(** a host on which every grammar loaded and the parser returns [t] *)
Definition host_with (t : SyntaxNode) : Extract.Host :=
  Extract.mkHost (fun _ => true) (fun _ _ => inr t) (fun k => 1000 + k).

Definition stale_record : Store.FileRecord :=
  Store.mkFileRecord "src/a.ts" "0000" LTypescript 10 0 0 1 None.

Definition old_node : Node :=
  mkNode "function:0123456789abcdef" KFunction "old" "src/a.ts::old" "src/a.ts"
         LTypescript 1 1 0 10 0.

(** a store that holds an outdated record of src/a.ts *)
Definition stale_store : Store.Db :=
  Store.mkDb {[ "src/a.ts" := stale_record ]} [old_node] [] [].

Definition static_block_result : ExtractionResult :=
  Extract.extractFromSource (host_with ts_static_block_tree)
    "src/a.ts" ts_static_block_source None.

Definition lock_proc : Lock.Proc := Lock.mkProc 4242 (fun p => bool_decide (p = 777%Z)).
(** the string with the bytes [l] *)
Definition bytes (l : list nat) : string :=
  String.string_of_list_ascii (map ascii_of_nat l).

(** the lock is held and the lock file holds a byte order mark, the pid
    of the process and a line feed *)
Definition lock_with_mark : Lock.World :=
  Lock.mkWorld "l" true
    (Lock.mkFs {[ "l" := Lock.mkFile (bytes [0xEF; 0xBB; 0xBF] ++ "4242" ++ bytes [10]) true ]}
               true).

Definition lock_free : Lock.World :=
  Lock.mkWorld "/p/.codegraph/codegraph.lock" false (Lock.mkFs ∅ true).

(** a statement that inserts a number, refused when it is already there *)
Definition insert_row (n : nat) (rows : list nat) : Sqlite.Outcome (list nat) :=
  if bool_decide (n ∈ rows) then Sqlite.Failed (Error "UNIQUE constraint failed")
  else Sqlite.Changed (rows ++ [n])%list.

(** a statement for which the disk is full: the engine rolls the
    transaction back as it fails *)
Definition insert_on_full_disk (rows : list nat) : Sqlite.Outcome (list nat) :=
  Sqlite.RolledBack (Error "database or disk is full").

Definition plain_env (readFile : string -> Exn + string)
    (gitStatus : option string) (scanned : list string) (host : Extract.Host)
    : Orchestrator.Env :=
  {| Orchestrator.cwd := "/";
     Orchestrator.readFile := readFile;
     Orchestrator.stat := fun p =>
       match readFile p with
       | inl e => inl e
       | inr c => inr (Orchestrator.mkStats (N.of_nat (String.length c)) 0)
       end;
     Orchestrator.isMatch := fun p _ => true;
     Orchestrator.normalizePath := fun p => p;
     Orchestrator.gitStatus := gitStatus;
     Orchestrator.scanned := scanned;
     Orchestrator.host := host;
     Orchestrator.dateNow := 0 |}.

Definition no_parse_host : Extract.Host :=
  Extract.mkHost (fun _ => true) (fun _ _ => inl (Error "no tree")) (fun _ => 0).

Definition plain_config : Orchestrator.CodeGraphConfig :=
  Orchestrator.mkCodeGraphConfig ["**/*"] [] 1000000.

Definition fresh_world : Orchestrator.World :=
  Orchestrator.mkWorld Store.empty [] None.

Definition stale_world (fault : option nat) : Orchestrator.World :=
  Orchestrator.mkWorld stale_store [] fault.

Definition empty_env : Orchestrator.Env :=
  plain_env (fun _ => inl (Error "ENOENT")) None [] no_parse_host.

(** a project with the one file src/a.ts, whose parser returns the tree
    of the file *)
Definition one_file_env : Orchestrator.Env :=
  plain_env (fun p => if String.eqb p "/proj/src/a.ts" then inr ts_static_block_source
                      else inl (Error "ENOENT"))
            None ["src/a.ts"] (host_with ts_static_block_tree).

(** the store after src/a.ts was indexed, about to fail at its next
    mutation *)
Definition indexed_world : Orchestrator.World :=
  Orchestrator.mkWorld
    (Orchestrator.db
       (snd (Orchestrator.indexFile one_file_env "/proj" plain_config "src/a.ts"
               fresh_world)))
    [] (Some 0%nat).

(** the kind of the node whose id is on top of the stack *)
Definition topKind (st : Extract.State) : option NodeKind :=
  match Extract.nodeStack st with
  | top :: _ => n_kind <$> List.find (fun n => String.eqb (n_id n) top) (Extract.st_nodes st)
  | [] => None
  end.

Definition isContainerKind (k : NodeKind) : bool :=
  match k with
  | KClass | KStruct | KInterface | KTrait => true
  | _ => false
  end.

(** the kinds of the nodes that a visit of [node] adds, in order *)
Definition createdKinds (cfg : Extract.Config) (node : SyntaxNode)
    (st : Extract.State) : list NodeKind :=
  n_kind <$> drop (length (Extract.st_nodes st))
                  (Extract.st_nodes (Extract.visitNode cfg node st)).

(** the node that [createNode] makes of [node] with the kind [kind] *)
Definition nodeOf (kind : NodeKind) (cfg : Extract.Config)
    (e : Extract.LanguageExtractor) (node : SyntaxNode) (st : Extract.State) : Node :=
  fst (Extract.createNode cfg kind (Extract.extractName node (Extract.source cfg) e) node st).

(** the reference that [extractImport] records on [parentId] *)
Definition importRef (cfg : Extract.Config) (node : SyntaxNode) (parentId : string)
    : UnresolvedReference :=
  {| r_fromNodeId := parentId;
     r_referenceName := Extract.moduleNameOf cfg node;
     r_referenceKind := EImports;
     r_line := row (startPosition node) + 1;
     r_column := column (startPosition node);
     r_filePath := None;
     r_language := None |}.

(** the type of [node] is in none of the sets that [visitNode] checks
    before the import set *)
Definition reachesImport (e : Extract.LanguageExtractor) (node : SyntaxNode) : bool :=
  negb (isIn (sn_type node) (Extract.functionTypes e))
  && negb (isIn (sn_type node) (Extract.classTypes e))
  && negb (isIn (sn_type node) (Extract.methodTypes e))
  && negb (isIn (sn_type node) (Extract.interfaceTypes e))
  && negb (isIn (sn_type node) (Extract.structTypes e))
  && negb (isIn (sn_type node) (Extract.enumTypes e))
  && isIn (sn_type node) (Extract.importTypes e).

(** the node reached from [n] by taking the children at the given indices *)
Definition descend (path : list nat) (n : SyntaxNode) : SyntaxNode :=
  fold_left (fun m i => default m (children m !! i)) path n.

Definition ts_config (source : string) : Extract.Config :=
  Extract.mkConfig "src/a.ts" source LTypescript (fun k => 1000 + k).

Definition py_config (source : string) : Extract.Config :=
  Extract.mkConfig "a.py" source LPython (fun k => 1000 + k).

(** the state of the walk inside the body of the class at [path]: the class
    node is created and its id is on the stack *)
Definition inside_class (cfg : Extract.Config) (e : Extract.LanguageExtractor)
    (class : SyntaxNode) : Extract.State :=
  let created :=
    Extract.createNode cfg KClass (Extract.extractName class (Extract.source cfg) e)
                       class Extract.initial in
  Extract.push (n_id (fst created)) (snd created).

(** [function f() {}] in the static block of class A *)
Definition ts_function_f : SyntaxNode := descend [0; 2; 0; 1; 0] ts_static_block_tree.
Definition ts_class_A : SyntaxNode := descend [0] ts_static_block_tree.
(** the import statement at the top of the TypeScript sample *)
Definition ts_import_statement : SyntaxNode := descend [0] ts_import_tree.
(** [import os] in the body of the Python class A *)
Definition py_import_statement : SyntaxNode := descend [0; 2; 0] py_class_import_tree.
Definition py_class_A : SyntaxNode := descend [0] py_class_import_tree.

(** the characters of a string *)
Definition chars (s : string) : list ascii := String.list_ascii_of_string s.

(** a path segment: not empty and without a separator *)
Definition segment (s : string) : Prop := s <> "" /\ "/"%char ∉ chars s.

(** the resolution of [filePath] against [rootDir] stays at or below the
    resolution of [rootDir], segment by segment *)
Definition staysWithin (cwd rootDir filePath : string) : Prop :=
  Path.resolveSegs cwd [rootDir] `prefix_of` Path.resolveSegs cwd [rootDir; filePath].

(** a project directory /proj in which link.ts is a symbolic link to a
    file outside of it *)
Definition symlink_realpath (p : string) : option string :=
  if String.eqb p "/proj/link.ts" then Some "/etc/secret.ts" else Some p.

Definition symlink_env : Orchestrator.Env :=
  plain_env (fun p => if String.eqb p "/proj/link.ts" then inr ts_static_block_source
                      else inl (Error "ENOENT"))
            None ["link.ts"] (host_with ts_static_block_tree).

Definition isHexDigit (c : ascii) : Prop :=
  c ∈ chars "0123456789abcdef".

(** a node without its time stamp *)
Definition erase (n : Node) : Node :=
  mkNode (n_id n) (n_kind n) (n_name n) (n_qualifiedName n) (n_filePath n)
         (n_language n) (n_startLine n) (n_endLine n) (n_startColumn n)
         (n_endColumn n) 0.

Definition eraseState (st : Extract.State) : Extract.State :=
  Extract.mkState (erase <$> Extract.st_nodes st) (Extract.st_edges st)
                  (Extract.st_refs st) (Extract.st_errors st) (Extract.nodeStack st).

(** the same extractor with a clock that stands still *)
Definition stopped (cfg : Extract.Config) : Extract.Config :=
  Extract.mkConfig (Extract.filePath cfg) (Extract.source cfg) (Extract.language cfg)
                   (fun _ => 0).

(** the same host at another time *)
Definition sameHostLater (h1 h2 : Extract.Host) : Prop :=
  (forall g, Extract.loaded h1 g = Extract.loaded h2 g)
  /\ (forall g s, Extract.parse h1 g s = Extract.parse h2 g s).

(** the id of a node is the digest of its own path, kind, name and line *)
Definition idFromAttributes (filePath : string) (n : Node) : Prop :=
  n_id n = generateNodeId filePath (n_kind n) (n_name n) (n_startLine n)
  /\ n_filePath n = filePath.

(** the host of the samples some time later *)
Definition host_later (t : SyntaxNode) : Extract.Host :=
  Extract.mkHost (fun _ => true) (fun _ _ => inr t) (fun k => 4600 + 7 * k).

(** [indexFile] can read the file at [p], finds [content] in it, and gets
    from it a result that it stores *)
Definition storable (env : Orchestrator.Env) (rootDir : string)
    (config : Orchestrator.CodeGraphConfig) (p content : string) : Prop :=
  exists fullPath stats,
    Path.validatePathWithinRoot (Orchestrator.cwd env) rootDir p = Some fullPath
    /\ Orchestrator.stat env fullPath = inr stats
    /\ Orchestrator.readFile env fullPath = inr content
    /\ (Orchestrator.size stats <= Orchestrator.maxFileSize config)%N
    /\ Grammars.isLanguageSupported (Extract.loaded (Orchestrator.host env))
         (Grammars.detectLanguage p) = true
    /\ (Orchestrator.nonEmpty
          (nodes (Extract.extractFromSource (Orchestrator.host env) p content
                    (Some (Grammars.detectLanguage p))))
        || negb (Orchestrator.nonEmpty
                   (errors (Extract.extractFromSource (Orchestrator.host env) p content
                              (Some (Grammars.detectLanguage p)))))) = true.

(** every file record is filed under its own path *)
Definition keyed (d : Store.Db) : Prop :=
  forall p r, Store.t_files d !! p = Some r -> Store.f_path r = p.

(** what the loops of [sync] over the modified or scanned files put on the
    list of files to index: the files that can be read and have no record,
    or a record with another hash *)
Definition needsIndex (env : Orchestrator.Env) (rootDir : string)
    (look : string -> option Store.FileRecord) (p : string) : bool :=
  match Orchestrator.readFile env (Path.join [rootDir; p]) with
  | inl _ => false
  | inr content =>
      match look p with
      | None => true
      | Some r => negb (String.eqb (Store.f_contentHash r) (Orchestrator.hashContent content))
      end
  end.

(** the project /proj with the one file src/a.ts, where git status has
    nothing to report *)
Definition clean_git_env : Orchestrator.Env :=
  plain_env (fun p => if String.eqb p "/proj/src/a.ts" then inr ts_static_block_source
                      else inl (Error "ENOENT"))
            (Some "") ["src/a.ts"] (host_with ts_static_block_tree).

(** the same project outside of git *)
Definition no_git_env : Orchestrator.Env :=
  plain_env (fun p => if String.eqb p "/proj/src/a.ts" then inr ts_static_block_source
                      else inl (Error "ENOENT"))
            None ["src/a.ts"] (host_with ts_static_block_tree).

(** a store with a record of gone.ts, a file that is no longer there *)
Definition gone_store : Store.Db :=
  Store.upsertFile (Store.mkFileRecord "gone.ts" "1111" LTypescript 10 0 0 0 None)
                   Store.empty.

Definition gone_world : Orchestrator.World := Orchestrator.mkWorld gone_store [] None.

(** every child with its two visits, as [visitors] lists them *)
Definition kidsOf (cfg : Extract.Config) (e : Extract.LanguageExtractor)
    (cs : list SyntaxNode) :=
  map (fun c => (c, Extract.visitors cfg e c)) cs.

(** a step that only records references *)
Definition onlyRefs (st st' : Extract.State) : Prop :=
  Extract.st_nodes st' = Extract.st_nodes st
  /\ Extract.st_edges st' = Extract.st_edges st
  /\ Extract.st_errors st' = Extract.st_errors st
  /\ Extract.nodeStack st' = Extract.nodeStack st.

(** two steps that take states related by [R] to states related by [R] *)
Definition respects (R : Extract.State -> Extract.State -> Prop)
    (f1 f2 : Extract.State -> Extract.State) : Prop :=
  forall s1 s2, R s1 s2 -> R (f1 s1) (f2 s2).

(** every node made so far has the id of its attributes *)
Definition idsOk (cfg : Extract.Config) (st : Extract.State) : Prop :=
  Forall (idFromAttributes (Extract.filePath cfg)) (Extract.st_nodes st).

(** a theme directory /shop with one Liquid template *)
Definition liquid_env : Orchestrator.Env :=
  plain_env (fun p => if String.eqb p "/shop/sections/header.liquid"
                      then inr "{% render 'logo' %}"
                      else inl (Error "ENOENT"))
            None ["sections/header.liquid"] no_parse_host.

(** the lock can be taken: the directory can be written, and the lock
    file is not there or is read and names no live process *)
Definition lockAvailable (proc : Lock.Proc) (w : Lock.World) : bool :=
  Lock.dirWritable (Lock.fs w)
  && match Lock.files (Lock.fs w) !! Lock.lockPath w with
     | None => true
     | Some f =>
         Lock.readable f
         && negb (Lock.isProcessAlive proc (Js.parseInt (Js.trim (Lock.content f))))
     end.

(** the world in which [proc] has written its lock file *)
Definition lockedBy (proc : Lock.Proc) (w : Lock.World) : Lock.World :=
  Lock.mkWorld (Lock.lockPath w) true
    (Lock.mkFs (<[Lock.lockPath w := Lock.mkFile (pretty (Lock.pid proc)) true]>
                  (Lock.files (Lock.fs w)))
               (Lock.dirWritable (Lock.fs w))).

(** a stale lock file, of a process that is gone, beside another file *)
Definition lock_stale : Lock.World :=
  Lock.mkWorld "l" false
    (Lock.mkFs {[ "l" := Lock.mkFile ("31337" ++ bytes [10]) true;
                  "db" := Lock.mkFile "rows" true ]} true).

(** a process for which [process.kill(pid, 0)] finds itself and 777 *)
Definition lock_holder : Lock.Proc :=
  Lock.mkProc 4242 (fun p => bool_decide (p = 4242%Z \/ p = 777%Z)).

(** the ids of the nodes made so far *)
Definition idsOf (st : Extract.State) : list string := n_id <$> Extract.st_nodes st.

(** every edge is a containment edge between nodes made so far, and every
    reference and every entry of the stack names a node made so far *)
Definition closed (st : Extract.State) : Prop :=
  Forall (fun e => e_kind e = EContains
                   /\ e_source e ∈ idsOf st /\ e_target e ∈ idsOf st)
         (Extract.st_edges st)
  /\ Forall (fun r => r_fromNodeId r ∈ idsOf st
                      /\ r_referenceKind r ∈ [ECalls; EImports; EExtends; EImplements])
            (Extract.st_refs st)
  /\ Forall (fun i => i ∈ idsOf st) (Extract.nodeStack st).

(** the text in which the placeholders [?] of [s] are replaced, from left
    to right, by the names with an [@] in front *)
Fixpoint fillNames (s : string) (names : list string) : string :=
  match s with
  | EmptyString => EmptyString
  | String c s' =>
      if Ascii.eqb c "?" then
        match names with
        | n :: ns => String "@" (n ++ fillNames s' ns)
        | [] => String c (fillNames s' [])
        end
      else String c (fillNames s' names)
  end.

(** the number of placeholders of [s] *)
Fixpoint placeholders (s : string) : nat :=
  match s with
  | EmptyString => 0
  | String c s' => (if Ascii.eqb c "?" then 1 else 0) + placeholders s'
  end.

(** a parameter name: one or more characters of [\w] *)
Definition isName (n : string) : Prop :=
  n <> EmptyString /\ Forall (fun c => Sqlite.isWordChar c = true) (chars n).


(** a file that can be read and has no record in [look] *)
Definition looksAdded (env : Orchestrator.Env) (rootDir : string)
    (look : string -> option Store.FileRecord) (p : string) : bool :=
  match Orchestrator.readFile env (Path.join [rootDir; p]) with
  | inl _ => false
  | inr _ => match look p with None => true | Some _ => false end
  end.

(** a file that can be read and has a record in [look] with another hash *)
Definition looksModified (env : Orchestrator.Env) (rootDir : string)
    (look : string -> option Store.FileRecord) (p : string) : bool :=
  match Orchestrator.readFile env (Path.join [rootDir; p]) with
  | inl _ => false
  | inr content =>
      match look p with
      | None => false
      | Some r => negb (String.eqb (Store.f_contentHash r) (Orchestrator.hashContent content))
      end
  end.

(** the file at [p] can be read and the store has no record of it *)
Definition appearsNew (env : Orchestrator.Env) (rootDir : string) (d : Store.Db)
    (p : string) : Prop :=
  (exists content, Orchestrator.readFile env (Path.join [rootDir; p]) = inr content)
  /\ Store.t_files d !! p = None.

(** the file at [p] can be read and the store has a record of it with the
    hash of another content *)
Definition appearsChanged (env : Orchestrator.Env) (rootDir : string) (d : Store.Db)
    (p : string) : Prop :=
  exists content r,
    Orchestrator.readFile env (Path.join [rootDir; p]) = inr content
    /\ Store.t_files d !! p = Some r
    /\ Store.f_contentHash r <> Orchestrator.hashContent content.

(** what git status reports is a set of paths: none is listed twice as
    deleted, and none is listed both as deleted and as modified *)
Definition reportsEachPathOnce (g : option Orchestrator.GitChanges) : Prop :=
  match g with
  | None => True
  | Some g =>
      NoDup (Orchestrator.deleted g)
      /\ Forall (fun p => p ∉ Orchestrator.deleted g) (Orchestrator.modified g)
  end.

(** the project /proj in git: a.ts was edited, new.ts is untracked, old.ts
    was deleted, and never.ts was deleted before it was ever indexed *)
Definition busy_git_env : Orchestrator.Env :=
  plain_env (fun p => if String.eqb p "/proj/src/a.ts" then inr ts_static_block_source
                      else if String.eqb p "/proj/src/new.ts" then inr "let x = 1"
                      else inl (Error "ENOENT"))
            (Some (" M src/a.ts" ++ bytes [10] ++ "?? src/new.ts" ++ bytes [10]
                   ++ " D src/old.ts" ++ bytes [10] ++ " D src/never.ts" ++ bytes [10]))
            [] (host_with ts_static_block_tree).

(** a store with records of src/a.ts, under the hash of an older content,
    and of src/old.ts *)
Definition busy_store : Store.Db :=
  Store.upsertFile (Store.mkFileRecord "src/a.ts" "1111" LTypescript 10 0 0 0 None)
    (Store.upsertFile (Store.mkFileRecord "src/old.ts" "2222" LTypescript 10 0 0 0 None)
       Store.empty).

(* ===================================================================== *)
(** * Part II: lemmas                                                     *)
(* ===================================================================== *)

Example sha256_constants :
  length Sha256.K = 64%nat /\ length Sha256.H0 = 8%nat
  /\ nth 0 Sha256.K 0%Z = 0x428a2f98%Z /\ nth 63 Sha256.K 0%Z = 0xc67178f2%Z
  /\ nth 0 Sha256.H0 0%Z = 0x6a09e667%Z /\ nth 7 Sha256.H0 0%Z = 0x5be0cd19%Z.
Proof. vm_compute. repeat split; reflexivity. Qed.

Example sha256_abc :
  Sha256.hex "abc" = "ba7816bf8f01cfea414140de5dae2223b00361a396177a9cb410ff61f20015ad".
Proof. vm_compute. reflexivity. Qed.

Example sha256_empty :
  Sha256.hex "" = "e3b0c44298fc1c149afbf4c8996fb92427ae41e4649b934ca495991b7852b855".
Proof. vm_compute. reflexivity. Qed.

Example sha256_two_blocks :
  Sha256.hex "aaaaaaaaaaaaaaaaaaaaaaaaaaaaaaaaaaaaaaaaaaaaaaaaaaaaaaaaaaaaaaaaaaaaaaaaaaaaaaaaaaaaaaaaaaaaaaaaaaaaaaaaaaaaaaaaaaaaaaa"
  = "31eba51c313a5c08226adf18d4a359cfdfd8d2e816b13f4af952f7ea6584dcfb".
Proof. vm_compute. reflexivity. Qed.

Example generateNodeId_hello :
  generateNodeId "src/index.ts" KFunction "hello" 1 = "function:8456deb280c2532c".
Proof. vm_compute. reflexivity. Qed.

Example resolve_dots :
  Path.resolve "/home/u" ["/proj"; "src/../../etc/./passwd"] = "/etc/passwd".
Proof. vm_compute. reflexivity. Qed.

Example resolve_relative_root :
  Path.resolve "/home/u" ["proj"; "a.ts"] = "/home/u/proj/a.ts".
Proof. vm_compute. reflexivity. Qed.

Example join_trailing : Path.join ["/proj"; "dir/"] = "/proj/dir/".
Proof. vm_compute. reflexivity. Qed.

Example join_above : Path.join [".."; "a"; ".."; ".."; "b"] = "../../b".
Proof. vm_compute. reflexivity. Qed.

Example validate_sibling_prefix :
  Path.validatePathWithinRoot "/" "/home/proj" "../project/x" = None.
Proof. vm_compute. reflexivity. Qed.

Example validate_inside :
  Path.validatePathWithinRoot "/" "/home/proj" "src/a.ts" = Some "/home/proj/src/a.ts".
Proof. vm_compute. reflexivity. Qed.

Example parseInt_examples :
  Js.parseInt "123" = Js.Finite 123 /\ Js.parseInt " 42abc" = Js.Finite 42
  /\ Js.parseInt "abc" = Js.NaN /\ Js.parseInt "-7" = Js.Finite (-7)
  /\ Js.parseInt "" = Js.NaN
  /\ Js.parseInt "9007199254740993" = Js.Finite 9007199254740992
  /\ Js.parseInt "9007199254740995" = Js.Finite 9007199254740996
  /\ Js.parseInt "36893488147419103233" = Js.Finite 36893488147419103232.
Proof. vm_compute. repeat split; reflexivity. Qed.

Example trim_example : Js.trim "  12 3
 " = "12 3".
Proof. vm_compute. reflexivity. Qed.

(** white space beyond ASCII: a byte order mark and a no-break space at
    the head, a line separator and an ideographic space at the end; the
    no-break space inside stays, and so does a byte of an encoding cut
    short *)
Example trim_unicode_white_space :
  Js.trim (bytes [0xEF; 0xBB; 0xBF; 0xC2; 0xA0] ++ "12" ++ bytes [0xC2; 0xA0] ++ "3"
           ++ bytes [0xE2; 0x80; 0xA8; 0xE3; 0x80; 0x80])
  = "12" ++ bytes [0xC2; 0xA0] ++ "3"
  /\ Js.trim (bytes [0xE2; 0x80] ++ " 7 " ++ bytes [0x80; 0xA8])
     = bytes [0xE2; 0x80] ++ " 7 " ++ bytes [0x80; 0xA8]
  /\ Js.parseInt (bytes [0xEF; 0xBB; 0xBF; 0xE2; 0x80; 0x89] ++ "-15px") = Js.Finite (-15).
Proof. vm_compute. repeat split; reflexivity. Qed.

(** ** The lock file *)

Section LockFacts.
Import Lock.


Lemma release_closed_form (proc : Proc) (w : World) :
  release proc w =
  (Ok tt,
   mkWorld (lockPath w) false
     (if held w && ownsFile proc w && dirWritable (fs w)
      then mkFs (delete (lockPath w) (files (fs w))) (dirWritable (fs w))
      else fs w)).
Proof.
  destruct w as [lp h [fl dw]]. unfold release, ownsFile, bind, get. simpl.
  destruct h; simpl; [| reflexivity].
  unfold try_catch, bind, readFileSync, unlinkSync, get, bind. simpl.
  destruct (fl !! lp) as [[c r] |] eqn:E; simpl; [| reflexivity].
  destruct r; simpl; [| reflexivity].
  destruct (bool_decide _); simpl; [| reflexivity].
  rewrite E. destruct dw; reflexivity.
Qed.

(** C9. [release] never throws and always leaves this instance not
    holding the lock; the only change it can make to the file system is
    to remove the lock file, and it does so only when the instance held
    the lock and the file, read back, gives the pid of this process; a
    lock file that cannot be read, or that holds another pid, stays as it
    is, and so does every other file. *)
Theorem release_removes_only_own_lock (proc : Proc) (w : World) :
  exists fs',
    release proc w = (Ok tt, mkWorld (lockPath w) false fs')
    /\ (held w = false -> fs' = fs w)
    /\ (fs' = fs w
        \/ fs' = mkFs (delete (lockPath w) (files (fs w))) (dirWritable (fs w)))
    /\ (fs' <> fs w ->
        held w = true
        /\ exists f, files (fs w) !! lockPath w = Some f
                     /\ readable f = true
                     /\ Js.parseInt (Js.trim (content f)) = Js.Finite (pid proc))
    /\ (forall f, files (fs w) !! lockPath w = Some f ->
          readable f = false
          \/ Js.parseInt (Js.trim (content f)) <> Js.Finite (pid proc) ->
          fs' = fs w)
    /\ (forall p, p <> lockPath w -> files fs' !! p = files (fs w) !! p).
Proof.
  eexists. split.
  { apply release_closed_form. }
  unfold ownsFile.
  destruct (held w) eqn:Hh; simpl; [| by intuition ].
  destruct (files (fs w) !! lockPath w) as [f |] eqn:Hf; simpl;
    [| by intuition; congruence ].
  destruct (readable f) eqn:Hr; simpl;
    [| by intuition; congruence ].
  case_bool_decide as Hp; simpl;
    [| by intuition; congruence ].
  destruct (dirWritable (fs w)) eqn:Hd; simpl; [| by intuition; congruence ].
  split; [congruence |]. split; [by right |].
  split; [intros _; split; [done | eauto] |].
  split.
  - intros f' [= <-] [? | ?]; congruence.
  - intros p Hne. by rewrite lookup_delete_ne.
Qed.

End LockFacts.


(** acquired, then released: the lock file is gone *)
Example acquire_release :
  (let* _ := Lock.acquire lock_proc in Lock.release lock_proc) lock_free
  = (Ok tt, lock_free).
Proof. vm_compute. reflexivity. Qed.

(** while the lock is held, the file is replaced by the one of process 777:
    [release] leaves that file where it is *)
Example release_keeps_foreign_lock :
  (let* _ := Lock.acquire lock_proc in
   let* _ := Lock.set_fs (Lock.mkFs {[ "/p/.codegraph/codegraph.lock" := Lock.mkFile "777" true ]} true) in
   Lock.release lock_proc) lock_free
  = (Ok tt,
     Lock.mkWorld "/p/.codegraph/codegraph.lock" false
       (Lock.mkFs {[ "/p/.codegraph/codegraph.lock" := Lock.mkFile "777" true ]} true)).
Proof. vm_compute. reflexivity. Qed.

(** the pid is read through a byte order mark and a line feed: the lock
    file is the own one and [release] removes it *)
Example release_reads_through_byte_order_mark :
  ownsFile lock_proc lock_with_mark = true
  /\ Lock.release lock_proc lock_with_mark
     = (Ok tt, Lock.mkWorld "l" false (Lock.mkFs ∅ true)).
Proof. vm_compute. split; reflexivity. Qed.

(** a pid that is no 32-bit integer is never taken for a live process: the
    stale lock is replaced *)
Example acquire_ignores_impossible_pid :
  Lock.acquire (Lock.mkProc 4242 (fun _ => true))
    (Lock.mkWorld "l" false (Lock.mkFs {[ "l" := Lock.mkFile "99999999999" true ]} true))
  = (Ok tt, Lock.mkWorld "l" true (Lock.mkFs {[ "l" := Lock.mkFile "4242" true ]} true)).
Proof. vm_compute. reflexivity. Qed.

(** a live owner makes [acquire] throw, and the lock file stays *)
Example acquire_live_owner :
  Lock.acquire lock_proc
    (Lock.mkWorld "l" false (Lock.mkFs {[ "l" := Lock.mkFile "777" true ]} true))
  = (Throw (Error "CodeGraph database is locked by another process (PID 777). If this is stale, delete l"),
     Lock.mkWorld "l" false (Lock.mkFs {[ "l" := Lock.mkFile "777" true ]} true)).
Proof. vm_compute. reflexivity. Qed.

(** ** The portable backend's transactions *)

Section SqliteFacts.
Import Sqlite.
Context {D : Type}.

Lemma call_in_transaction {A} (fn : Fn D A) (c d : D) (b : bool) (l : list string) :
  leavesControl fn ->
  call fn (mkDb c (Some d) b l)
  = (fst (effect fn d), mkDb c (Some (snd (effect fn d))) b l).
Proof.
  revert d.
  induction fn as [A a | A e | A stmt k IH | A V q k IH | A ctl k IH | A B body IHb k IHk];
    intros d Hplain; cbn [call effect leavesControl] in *.
  - reflexivity.
  - reflexivity.
  - destruct Hplain as [Hstmt Hk]. unfold current. simpl.
    destruct (stmt d) as [d' | e | e] eqn:E; [| reflexivity | by destruct (Hstmt d e)].
    unfold write. simpl. by apply IH.
  - unfold current. simpl. by apply IH.
  - destruct Hplain.
  - destruct Hplain as [Hb Hk]. rewrite (IHb d Hb).
    destruct (effect body d) as [r d']. cbn [fst snd]. by apply IHk.
Qed.


End SqliteFacts.




(** a function that commits on its own and then throws: its rows stay, and
    again the refused ROLLBACK is what the caller sees *)
Example own_commit_is_not_undone :
  Sqlite.transaction
    (Sqlite.call (Sqlite.Run (insert_row 1)
                    (Sqlite.Issue Sqlite.Commit (Sqlite.Raise (Error "too late")))))
    (Sqlite.mkDb [0] None false [])
  = (Throw (Error "cannot rollback - no transaction is active") : Res unit,
     Sqlite.mkDb [0; 1] None false ["BEGIN"; "COMMIT"; "ROLLBACK"]).
Proof. vm_compute. reflexivity. Qed.

(** a function that catches the failure of one of its statements goes on,
    and what it did before and after is committed together *)
Example caught_failure_commits_the_rest :
  Sqlite.transaction
    (Sqlite.call
       (Sqlite.Run (insert_row 1)
          (Sqlite.Attempt (Sqlite.Run (insert_row 1) (Sqlite.Return tt))
             (fun _ => Sqlite.Run (insert_row 2) (Sqlite.Return 7)))))
    (Sqlite.mkDb [0] None false [])
  = (Ok 7, Sqlite.mkDb [0; 1; 2] None false ["BEGIN"; "COMMIT"]).
Proof. vm_compute. reflexivity. Qed.

Example wasm_transaction_commits :
  Sqlite.transaction
    (Sqlite.call (Sqlite.Run (insert_row 1) (Sqlite.Run (insert_row 2) (Sqlite.Return 7))))
    (Sqlite.mkDb [0] None false [])
  = (Ok 7, Sqlite.mkDb [0; 1; 2] None false ["BEGIN"; "COMMIT"]).
Proof. vm_compute. reflexivity. Qed.

(** inside an open transaction the engine refuses BEGIN, and the wrapped
    function is not run *)
Example wasm_transaction_nested :
  Sqlite.transaction (Sqlite.call (Sqlite.Run (insert_row 1) (Sqlite.Return tt)))
    (Sqlite.mkDb [0] (Some [0; 5]) false [])
  = (Throw (Error "cannot start a transaction within a transaction"),
     Sqlite.mkDb [0] (Some [0; 5]) false ["BEGIN"]).
Proof. vm_compute. reflexivity. Qed.

Example detectLanguage_examples :
  Grammars.detectLanguage "src/a.TS" = LTypescript
  /\ Grammars.detectLanguage "theme/sections/header.liquid" = LLiquid
  /\ Grammars.detectLanguage "Makefile" = LUnknown
  /\ Grammars.detectLanguage "a.b/c" = LUnknown.
Proof. vm_compute. repeat split; reflexivity. Qed.

(** ** The grammar registry and files without a parser *)

Section RegistryFacts.
Import Grammars Extract Orchestrator.

Lemma liquid_has_no_grammar (loaded : Grammar -> bool) :
  GRAMMAR_MAP loaded LLiquid = None.
Proof.
  unfold GRAMMAR_MAP, grammarEntries. simpl.
  repeat (rewrite ?andb_false_l; simpl). reflexivity.
Qed.

(** C4 (the code departs from it). Liquid is reported as supported on
    every host and never has a parser; extraction of a Liquid file
    returns no nodes and one entry of severity error, and the orchestrator
    hands that entry on and stores nothing. *)
Theorem liquid_extraction_reports_error (env : Env) (rootDir : string)
    (config : CodeGraphConfig) (relativePath content : string)
    (stats : Stats) (w : World) :
  detectLanguage relativePath = LLiquid ->
  is_Some (Path.validatePathWithinRoot (cwd env) rootDir relativePath) ->
  (size stats <= maxFileSize config)%N ->
  isLanguageSupported (loaded (host env)) LLiquid = true
  /\ getParser (loaded (host env)) LLiquid = None
  /\ indexFileWithContent env rootDir config relativePath content stats w
     = (Ok (mkResult [] [] []
              [mkError "Failed to get parser for language: liquid" SevError]), w).
Proof.
  intros Hlang [full Hfull] Hsize.
  split; [reflexivity |]. split; [apply liquid_has_no_grammar |].
  unfold indexFileWithContent. rewrite Hfull, Hlang.
  destruct (N.ltb_spec (maxFileSize config) (size stats)) as [? | _]; [lia |].
  change (isLanguageSupported (loaded (host env)) LLiquid) with true. simpl.
  unfold extractFromSource, extract. simpl.
  reflexivity.
Qed.

(** a language whose grammar did not load is not reported as supported:
    its files are skipped with an empty result and no error *)
Lemma unloaded_grammar_is_skipped (env : Env) (rootDir : string)
    (config : CodeGraphConfig) (relativePath content : string)
    (stats : Stats) (w : World) :
  isLanguageSupported (loaded (host env)) (detectLanguage relativePath) = false ->
  is_Some (Path.validatePathWithinRoot (cwd env) rootDir relativePath) ->
  (size stats <= maxFileSize config)%N ->
  indexFileWithContent env rootDir config relativePath content stats w
  = (Ok (mkResult [] [] [] []), w).
Proof.
  intros Hlang [full Hfull] Hsize.
  unfold indexFileWithContent. rewrite Hfull, Hlang.
  destruct (N.ltb_spec (maxFileSize config) (size stats)) as [? | _]; [lia |].
  reflexivity.
Qed.

End RegistryFacts.


Lemma liquid_extraction_reports_error_witness :
  Orchestrator.indexFileWithContent
    (plain_env (fun _ => inl (Error "ENOENT")) None [] no_parse_host)
    "/proj" plain_config "sections/header.liquid" "{% render 'x' %}"
    (Orchestrator.mkStats 16 0) fresh_world
  = (Ok (mkResult [] [] []
           [mkError "Failed to get parser for language: liquid" SevError]),
     fresh_world).
Proof.
  refine (proj2 (proj2 (liquid_extraction_reports_error
            (plain_env (fun _ => inl (Error "ENOENT")) None [] no_parse_host)
            "/proj" plain_config "sections/header.liquid" "{% render 'x' %}"
            (Orchestrator.mkStats 16 0) fresh_world _ _ _))).
  - vm_compute. reflexivity.
  - vm_compute. eexists. reflexivity.
  - simpl. lia.
Defined.

(** ** Storing the result of an extraction *)

Section StoreFacts.
Import Orchestrator.
Variable env : Env.
Variable rootDir : string.
Variable config : CodeGraphConfig.

Lemma storeExtractionResult_unchanged (p content : string) (lang : Language)
    (stats : Stats) (result : ExtractionResult) (w : World) :
  unchanged p content (db w) ->
  storeExtractionResult env p content lang stats result w = (Ok tt, w).
Proof.
  intros (r & Hr & Hh). unfold storeExtractionResult, bind, query.
  rewrite Hr, Hh, String.eqb_refl. reflexivity.
Qed.

Lemma indexFileWithContent_unchanged (p content : string) (stats : Stats) (w : World) :
  unchanged p content (db w) ->
  exists res, indexFileWithContent env rootDir config p content stats w = (Ok res, w).
Proof.
  intros Hu. unfold indexFileWithContent.
  destruct (Path.validatePathWithinRoot _ _ _); [| by eexists].
  destruct (_ <? _)%N; [by eexists |].
  destruct (negb _); [by eexists |].
  unfold bind, when.
  destruct (_ || _); [| by eexists].
  rewrite storeExtractionResult_unchanged by done. by eexists.
Qed.

(** C6. When the store holds a record of the file with the hash of its
    content, storing takes the early return: no mutation is issued (so even
    a store about to fail is not touched), and indexing the file again
    returns with the store, every row of it, as it was. *)
Theorem reindex_unchanged_is_noop (p content : string) (w : World) :
  unchanged p content (db w) ->
  (forall lang stats result,
      storeExtractionResult env p content lang stats result w = (Ok tt, w))
  /\ (forall stats,
        exists res,
          indexFileWithContent env rootDir config p content stats w = (Ok res, w))
  /\ (forall fullPath,
        Path.validatePathWithinRoot (cwd env) rootDir p = Some fullPath ->
        readFile env fullPath = inr content ->
        exists res w',
          indexFile env rootDir config p w = (Ok res, w')
          /\ db w' = db w /\ fault w' = fault w).
Proof.
  intros Hu. split; [| split].
  - intros. by apply storeExtractionResult_unchanged.
  - intros. by apply indexFileWithContent_unchanged.
  - intros full Hfull Hread. unfold indexFile. rewrite Hfull.
    unfold bind, try_catch, fsStat, fsReadFile, bind, trace, modify, of_sum.
    destruct (stat env full) as [e | stats]; simpl.
    + by eexists _, _.
    + rewrite Hread. simpl.
      edestruct (indexFileWithContent_unchanged p content stats) as [res Hres];
        [| rewrite Hres; by eexists _, _].
      exact Hu.
Qed.

(** C1, as the code has it. For a file that is new or stale the mutations
    are issued one after the other with no transaction around them: when
    the store does not fail, all are applied; when it fails at the k-th,
    the error propagates, the mutations before it stay applied and the
    later ones are not issued. *)
Theorem store_mutations_apply_in_order (p content : string) (lang : Language)
    (stats : Stats) (result : ExtractionResult) (w : World) :
  ~ unchanged p content (db w) ->
  let muts := mutationsFor env p content lang stats result (db w) in
  match fault w with
  | None =>
      storeExtractionResult env p content lang stats result w
      = (Ok tt, mkWorld (applyAll muts (db w)) (io w) None)
  | Some k =>
      if (k <? length muts)%nat then
        exists e,
          storeExtractionResult env p content lang stats result w
          = (Throw e, mkWorld (applyAll (firstn k muts) (db w)) (io w) None)
      else
        storeExtractionResult env p content lang stats result w
        = (Ok tt, mkWorld (applyAll muts (db w)) (io w) (Some (k - length muts)))
  end.
Proof.
  intros Hu. destruct w as [d i f]. simpl in *.
  unfold mutationsFor, storeExtractionResult, bind, query, when, mutate, ret. simpl.
  destruct (Store.getFileByPath p d) as [r |] eqn:Hr.
  - destruct (String.eqb_spec (Store.f_contentHash r) (hashContent content)) as [Hh | _].
    { destruct Hu. by exists r. }
    rewrite !bool_decide_true by eauto.
    destruct (nonEmpty (nodes result)), (nonEmpty (edges result)),
      (nonEmpty (unresolvedReferences result));
      destruct f as [[|[|[|[|[|k]]]]] |]; simpl; rewrite ?Nat.sub_0_r; eauto.
  - rewrite !bool_decide_false by (intros [? ?]; congruence).
    destruct (nonEmpty (nodes result)), (nonEmpty (edges result)),
      (nonEmpty (unresolvedReferences result));
      destruct f as [[|[|[|[|k]]]] |]; simpl; rewrite ?Nat.sub_0_r; eauto.
Qed.

End StoreFacts.

Lemma reindex_unchanged_is_noop_witness :
  let run :=
    Orchestrator.indexFile one_file_env "/proj" plain_config "src/a.ts" indexed_world in
  (length (Store.t_nodes (Orchestrator.db indexed_world)) = 3%nat
   /\ is_Some (Store.getFileByPath "src/a.ts" (Orchestrator.db indexed_world)))
  /\ (exists res, fst run = Ok res /\ length (nodes res) = 3%nat)
  /\ (exists res w',
        run = (Ok res, w')
        /\ Orchestrator.db w' = Orchestrator.db indexed_world
        /\ Orchestrator.fault w' = Some 0%nat)
  /\ Orchestrator.storeExtractionResult one_file_env "src/a.ts" ts_static_block_source
       LTypescript (Orchestrator.mkStats 62 0) static_block_result indexed_world
     = (Ok tt, indexed_world).
Proof.
  cbv zeta.
  assert (unchanged "src/a.ts" ts_static_block_source (Orchestrator.db indexed_world))
    as Hu.
  { eexists. split; vm_compute; reflexivity. }
  destruct (reindex_unchanged_is_noop one_file_env "/proj" plain_config
              "src/a.ts" ts_static_block_source indexed_world Hu) as (Hstore & _ & Hfile).
  split; [split; [vm_compute; reflexivity | vm_compute; by eexists] |].
  split; [eexists; split; vm_compute; reflexivity |].
  split; [| apply Hstore].
  apply (Hfile "/proj/src/a.ts"); vm_compute; reflexivity.
Defined.

(** with other content for the same file the store is reached, and fails *)
Example changed_content_reaches_the_store :
  exists e w',
    Orchestrator.storeExtractionResult one_file_env "src/a.ts" "class A {}"
      LTypescript (Orchestrator.mkStats 10 0) static_block_result indexed_world
    = (Throw e, w').
Proof. eexists _, _. vm_compute. reflexivity. Qed.

(** C1 fails on the code: the store holds an outdated record of src/a.ts,
    the new result has nodes and edges, and the store fails at the third
    mutation.  The old record and its rows are deleted and the new nodes
    are inserted, but neither the edges nor the new record: the store is
    neither as before nor as after a complete run. *)
Lemma store_failure_leaves_partial_state :
  let run :=
    Orchestrator.storeExtractionResult empty_env "src/a.ts" ts_static_block_source
      LTypescript (Orchestrator.mkStats 62 0) static_block_result (stale_world (Some 2%nat)) in
  let all :=
    applyAll (mutationsFor empty_env "src/a.ts" ts_static_block_source LTypescript
                (Orchestrator.mkStats 62 0) static_block_result stale_store) stale_store in
  (exists e, fst run = Throw e)
  /\ Orchestrator.db (snd run) <> stale_store
  /\ Orchestrator.db (snd run) <> all
  /\ Store.t_files (Orchestrator.db (snd run)) !! "src/a.ts" = None
  /\ length (Store.t_nodes (Orchestrator.db (snd run))) = 3%nat
  /\ Store.t_edges (Orchestrator.db (snd run)) = [].
Proof.
  cbv zeta. refine (conj _ (conj _ (conj _ (conj _ (conj _ _))))).
  - eexists. vm_compute. reflexivity.
  - intros H. apply (f_equal (fun d => length (Store.t_nodes d))) in H.
    vm_compute in H. discriminate.
  - intros H. apply (f_equal (fun d => length (Store.t_edges d))) in H.
    vm_compute in H. discriminate.
  - vm_compute. reflexivity.
  - vm_compute. reflexivity.
  - vm_compute. reflexivity.
Qed.

Lemma store_mutations_apply_in_order_witness :
  exists e,
    Orchestrator.storeExtractionResult empty_env "src/a.ts" ts_static_block_source
      LTypescript (Orchestrator.mkStats 62 0) static_block_result (stale_world (Some 2%nat))
    = (Throw e,
       Orchestrator.mkWorld
         (Store.insertNodes (nodes static_block_result)
            (Store.deleteFile "src/a.ts" stale_store)) [] None).
Proof.
  refine (store_mutations_apply_in_order empty_env "src/a.ts" ts_static_block_source
            LTypescript (Orchestrator.mkStats 62 0) static_block_result
            (stale_world (Some 2%nat)) _).
  intros (r & Hr & Hh). vm_compute in Hr. injection Hr as <-.
  vm_compute in Hh. discriminate.
Defined.

(** ** The tree walk *)

Section WalkFacts.
Import Extract.

(** induction on a tree, with the property known of the children *)
Lemma SyntaxNode_ind (P : SyntaxNode -> Prop) :
  (forall ty nm fl si ei sp ep cs,
      Forall P cs -> P (SN ty nm fl si ei sp ep cs)) ->
  forall n, P n.
Proof.
  intros H. fix IH 1. intros [ty nm fl si ei sp ep cs]. apply H.
  induction cs as [| c cs IHcs]; constructor; [apply IH | apply IHcs].
Qed.

Variable cfg : Config.
Variable e : LanguageExtractor.


Lemma visitors_unfold (n : SyntaxNode) :
  visitors cfg e n
  = let visitChildren :=
      fun st =>
        fold_left (fun s kv => if isNamed (fst kv) then fst (snd kv) s else s)
                  (kidsOf cfg e (children n)) st in
    (visitNodeWith cfg e
       match List.find (fun kv => has_field (bodyField e) (fst kv)) (kidsOf cfg e (children n)) with
       | Some kv => snd (snd kv)
       | None => visitChildren
       end visitChildren n,
     visitChildren).
Proof.
  destruct n as [ty nm fl si ei sp ep cs]. simpl.
  assert (Hk : (fix each (cs0 : list SyntaxNode) :
                  list (SyntaxNode * ((State -> State) * (State -> State))) :=
                  match cs0 with
                  | [] => []
                  | child :: rest => (child, visitors cfg e child) :: each rest
                  end) cs = kidsOf cfg e cs).
  { induction cs as [| c cs IHcs]; simpl; [reflexivity | by rewrite IHcs]. }
  rewrite Hk. reflexivity.
Qed.

Lemma fold_kids (cs : list SyntaxNode) (st : State) :
  fold_left (fun s kv => if isNamed (fst kv) then fst (snd kv) s else s) (kidsOf cfg e cs) st
  = fold_left (fun s c => fst (visitors cfg e c) s) (List.filter isNamed cs) st.
Proof.
  revert st. induction cs as [| c cs IH]; intros st; simpl; [reflexivity |].
  destruct (isNamed c); simpl; apply IH.
Qed.

Lemma find_kids (f : string) (cs : list SyntaxNode) :
  List.find (fun kv => has_field f (fst kv)) (kidsOf cfg e cs)
  = (fun c => (c, visitors cfg e c)) <$> List.find (has_field f) cs.
Proof.
  induction cs as [| c cs IH]; simpl; [reflexivity |].
  destruct (has_field f c); [reflexivity | apply IH].
Qed.

Lemma visitors_children (n : SyntaxNode) (st : State) :
  snd (visitors cfg e n) st
  = fold_left (fun s c => fst (visitors cfg e c) s) (namedChildren n) st.
Proof. rewrite visitors_unfold. simpl. apply fold_kids. Qed.

(** the dispatch only applies the two visits it is given *)
Lemma visitNodeWith_ext (vb vb' vc vc' : State -> State) (n : SyntaxNode) (st : State) :
  (forall s, vb s = vb' s) -> (forall s, vc s = vc' s) ->
  visitNodeWith cfg e vb vc n st = visitNodeWith cfg e vb' vc' n st.
Proof.
  intros Hb Hc. unfold visitNodeWith, extractStruct, extractClass, extractContainer.
  repeat match goal with
         | |- context [if ?b then _ else _] => destruct b
         end; rewrite ?Hb, ?Hc; try reflexivity;
    destruct (createNode _ _ _ _ _); by rewrite Hb.
Qed.

Hypothesis He : EXTRACTORS (language cfg) = Some e.

Lemma visitNode_visitors (n : SyntaxNode) (st : State) :
  visitNode cfg n st = fst (visitors cfg e n) st.
Proof. unfold visitNode. by rewrite He. Qed.

Lemma visitNamedChildren_visitors (n : SyntaxNode) (st : State) :
  visitNamedChildren cfg n st = snd (visitors cfg e n) st.
Proof.
  rewrite visitors_children. unfold visitNamedChildren.
  generalize (namedChildren n). intros l. revert st.
  induction l as [| c l IH]; intros st; simpl; [reflexivity |].
  by rewrite visitNode_visitors, IH.
Qed.

(** [visitNode], as the source reads *)
Lemma visitNode_eq (n : SyntaxNode) (st : State) :
  visitNode cfg n st
  = visitNodeWith cfg e (visitNamedChildren cfg (bodyOf e n))
                  (visitNamedChildren cfg n) n st.
Proof.
  rewrite visitNode_visitors, visitors_unfold. simpl.
  apply visitNodeWith_ext.
  - intros s. unfold bodyOf, childForFieldName. rewrite find_kids.
    destruct (List.find (has_field (bodyField e)) (children n)) as [b |]; simpl.
    + by rewrite visitNamedChildren_visitors.
    + by rewrite fold_kids, visitNamedChildren_visitors, visitors_children.
  - intros s. by rewrite fold_kids, visitNamedChildren_visitors, visitors_children.
Qed.

End WalkFacts.

Section ClassificationFacts.
Import Extract.
Variable cfg : Config.
Variable e : LanguageExtractor.


Lemma onlyRefs_refl (st : State) : onlyRefs st st.
Proof. by repeat split. Qed.

Lemma onlyRefs_trans (a b c : State) : onlyRefs a b -> onlyRefs b c -> onlyRefs a c.
Proof. unfold onlyRefs. intuition congruence. Qed.

Lemma extractCall_onlyRefs (n : SyntaxNode) (st : State) :
  onlyRefs st (extractCall cfg n st).
Proof.
  unfold extractCall.
  repeat match goal with
         | |- context [match ?x with _ => _ end] => destruct x
         end; by repeat split.
Qed.

Lemma visitForCalls_onlyRefs (n : SyntaxNode) :
  forall st, onlyRefs st (visitForCalls cfg e n st).
Proof.
  induction n as [ty nm fl si ei sp ep cs IH] using SyntaxNode_ind. intros st. simpl.
  match goal with
  | |- onlyRefs st (?each cs ?st1) =>
      assert (H1 : onlyRefs st st1)
        by (destruct (isIn ty (callTypes e));
            [apply extractCall_onlyRefs | apply onlyRefs_refl]);
      revert H1; generalize st1
  end.
  induction IH as [| c cs Hc _ IHcs]; intros s Hs; [exact Hs |].
  apply IHcs. destruct (isNamed c); [| exact Hs].
  eapply onlyRefs_trans; [exact Hs | apply Hc].
Qed.

Lemma extractFunction_nodes (n : SyntaxNode) (st : State) :
  st_nodes (extractFunction cfg e n st)
  = (if String.eqb (extractName n (source cfg) e) anonymous then st_nodes st
     else st_nodes st ++ [nodeOf KFunction cfg e n st])%list
  /\ nodeStack (extractFunction cfg e n st) = nodeStack st.
Proof.
  unfold extractFunction, nodeOf.
  destruct (String.eqb _ anonymous); [done |].
  unfold createNode. simpl.
  destruct (childForFieldName n (bodyField e)) as [body |]; simpl; [| done].
  unfold visitFunctionBody.
  match goal with
  | |- context [visitForCalls cfg e body ?s] =>
      destruct (visitForCalls_onlyRefs body s) as (Hn & _ & _ & Hs)
  end.
  rewrite Hn, Hs. done.
Qed.

Lemma extractMethod_nodes (n : SyntaxNode) (st : State) :
  st_nodes (extractMethod cfg e n st)
  = (if bool_decide (nodeStack st = []) && negb (bool_decide (language cfg = LGo))
     then st_nodes (extractFunction cfg e n st)
     else st_nodes st ++ [nodeOf KMethod cfg e n st])%list
  /\ nodeStack (extractMethod cfg e n st) = nodeStack st.
Proof.
  unfold extractMethod, nodeOf.
  destruct (_ && _); [split; [done | apply extractFunction_nodes] |].
  unfold createNode. simpl.
  destruct (childForFieldName n (bodyField e)) as [body |]; simpl; [| done].
  unfold visitFunctionBody.
  match goal with
  | |- context [visitForCalls cfg e body ?s] =>
      destruct (visitForCalls_onlyRefs body s) as (Hn & _ & _ & Hs)
  end.
  rewrite Hn, Hs. done.
Qed.

Hypothesis He : EXTRACTORS (language cfg) = Some e.

(** C7, as the code has it. A node whose type is in the function set
    becomes a method exactly when the stack is not empty and its type is
    also in the method set of the language, whatever stands on top of the
    stack; otherwise it becomes a function, unless it is anonymous, and
    then it is skipped.  A node whose type is in the method set only
    becomes a method when the stack is not empty or the language is Go.
    In every case at most this one node is added: the body is searched for
    calls only, so a function nested in it gets no node of its own. *)
Theorem function_or_method_by_table_and_stack (n : SyntaxNode) (st : State) :
  (isIn (sn_type n) (functionTypes e) = true ->
   st_nodes (visitNode cfg n st)
   = (if negb (bool_decide (nodeStack st = [])) && isIn (sn_type n) (methodTypes e)
      then st_nodes st ++ [nodeOf KMethod cfg e n st]
      else if String.eqb (extractName n (source cfg) e) anonymous then st_nodes st
      else st_nodes st ++ [nodeOf KFunction cfg e n st])%list)
  /\ (isIn (sn_type n) (functionTypes e) = false ->
      isIn (sn_type n) (classTypes e) = false ->
      isIn (sn_type n) (methodTypes e) = true ->
      st_nodes (visitNode cfg n st)
      = (if negb (bool_decide (nodeStack st = [])) || bool_decide (language cfg = LGo)
         then st_nodes st ++ [nodeOf KMethod cfg e n st]
         else if String.eqb (extractName n (source cfg) e) anonymous then st_nodes st
         else st_nodes st ++ [nodeOf KFunction cfg e n st])%list).
Proof.
  split.
  - intros Hf. rewrite (visitNode_eq cfg e He). unfold visitNodeWith. rewrite Hf.
    destruct (negb (bool_decide (nodeStack st = []))) eqn:Hs; simpl.
    + destruct (isIn (sn_type n) (methodTypes e)).
      * rewrite (proj1 (extractMethod_nodes n st)).
        apply negb_true_iff in Hs. by rewrite Hs.
      * apply extractFunction_nodes.
    + apply extractFunction_nodes.
  - intros Hf Hc Hm. rewrite (visitNode_eq cfg e He). unfold visitNodeWith.
    rewrite Hf, Hc, Hm. rewrite (proj1 (extractMethod_nodes n st)).
    destruct (bool_decide (nodeStack st = [])), (bool_decide (language cfg = LGo));
      simpl; try reflexivity.
    apply extractFunction_nodes.
Qed.

(** C3, as the code has it. For a node whose type reaches the import
    check, [visitNode] calls [extractImport] and then visits the named
    children.  With an empty stack [extractImport] records nothing: there
    is no file-scope node to record on.  With a parent on the stack and a
    module name it records exactly one reference of kind imports on that
    parent. *)
Theorem import_recorded_on_parent_only (n : SyntaxNode) (st : State) :
  reachesImport e n = true ->
  visitNode cfg n st = visitNamedChildren cfg n (extractImport cfg n st)
  /\ (nodeStack st = [] -> extractImport cfg n st = st)
  /\ (forall parentId rest,
        nodeStack st = parentId :: rest ->
        parentId <> "" -> moduleNameOf cfg n <> "" ->
        extractImport cfg n st = addRef (importRef cfg n parentId) st)
  /\ (moduleNameOf cfg n = "" -> extractImport cfg n st = st).
Proof.
  unfold reachesImport. rewrite !andb_true_iff, !negb_true_iff.
  intros ((((((Hf & Hc) & Hm) & Hi) & Hs) & Hen) & Him).
  split; [| split; [| split]].
  - rewrite (visitNode_eq cfg e He). unfold visitNodeWith.
    by rewrite Hf, Hc, Hm, Hi, Hs, Hen, Him.
  - intros Hst. unfold extractImport. rewrite Hst.
    by rewrite bool_decide_true, andb_false_r.
  - intros p rest Hst Hp Hmod. unfold extractImport. rewrite Hst.
    apply String.eqb_neq in Hp, Hmod. by rewrite Hp, Hmod.
  - intros Hmod. unfold extractImport. by rewrite Hmod.
Qed.

End ClassificationFacts.

(** C7 fails on the code: in the static block of class A the class is the
    innermost containing node, and [function f() {}] becomes a function. *)
Lemma function_under_class_is_not_method :
  let cfg := ts_config ts_static_block_source in
  let st := inside_class cfg Extract.typescript_extractor ts_class_A in
  isIn (sn_type ts_function_f) (Extract.functionTypes Extract.typescript_extractor) = true
  /\ topKind st = Some KClass
  /\ ~ (createdKinds cfg ts_function_f st = [KMethod]
        <-> exists k, topKind st = Some k /\ isContainerKind k = true).
Proof.
  cbv zeta. split; [reflexivity |]. split; [vm_compute; reflexivity |].
  intros [_ H].
  assert (Hk : createdKinds (ts_config ts_static_block_source) ts_function_f
                 (inside_class (ts_config ts_static_block_source)
                    Extract.typescript_extractor ts_class_A) = [KFunction])
    by (vm_compute; reflexivity).
  rewrite Hk in H. enough ([KFunction] = [KMethod]) by discriminate.
  apply H. exists KClass. split; vm_compute; reflexivity.
Qed.

Example static_block_extraction :
  map (fun n => (n_kind n, n_qualifiedName n)) (nodes static_block_result)
  = [(KClass, "src/a.ts::A"); (KFunction, "src/a.ts::A::f"); (KMethod, "src/a.ts::A::m")].
Proof. vm_compute. reflexivity. Qed.

(** a function nested in a function body gets no node *)
Example nested_function_is_not_visited :
  map (fun n => (n_kind n, n_name n))
      (nodes (Extract.extractFromSource (host_with py_nested_tree) "a.py" py_nested_source None))
  = [(KFunction, "outer")].
Proof. vm_compute. reflexivity. Qed.

Lemma function_or_method_by_table_and_stack_witness :
  let cfg := ts_config ts_static_block_source in
  let st := inside_class cfg Extract.typescript_extractor ts_class_A in
  n_kind <$> Extract.st_nodes (Extract.visitNode cfg ts_function_f st)
  = [KClass; KFunction].
Proof.
  cbv zeta.
  rewrite (proj1 (function_or_method_by_table_and_stack
                    (ts_config ts_static_block_source) Extract.typescript_extractor
                    eq_refl ts_function_f
                    (inside_class (ts_config ts_static_block_source)
                       Extract.typescript_extractor ts_class_A)) eq_refl).
  vm_compute. reflexivity.
Defined.

(** C3 fails on the code: the import statement at the top of a file is
    visited with an empty stack and leaves no reference of kind imports,
    neither at its visit nor in the result of the extraction. *)
Lemma top_level_import_yields_no_reference :
  let cfg := ts_config ts_import_source in
  isIn (sn_type ts_import_statement) (Extract.importTypes Extract.typescript_extractor) = true
  /\ Extract.nodeStack Extract.initial = []
  /\ ~ (exists r, r ∈ Extract.st_refs (Extract.visitNode cfg ts_import_statement Extract.initial)
                  /\ r_referenceKind r = EImports)
  /\ ~ (exists r, r ∈ unresolvedReferences
                        (Extract.extractFromSource (host_with ts_import_tree)
                           "src/a.ts" ts_import_source None)
                  /\ r_referenceKind r = EImports).
Proof.
  cbv zeta. split; [reflexivity |]. split; [reflexivity |]. split.
  - intros (r & Hin & _). vm_compute in Hin. by apply elem_of_nil in Hin.
  - intros (r & Hin & Hk). vm_compute in Hin.
    apply list_elem_of_singleton in Hin. subst r. discriminate Hk.
Qed.

Lemma import_recorded_on_parent_only_witness :
  let cfg := py_config py_class_import_source in
  let st := inside_class cfg Extract.python_extractor py_class_A in
  Extract.extractImport cfg py_import_statement st
  = Extract.addRef (importRef cfg py_import_statement "class:29534ba9f020ec49") st.
Proof.
  cbv zeta.
  refine (proj1 (proj2 (proj2 (import_recorded_on_parent_only
            (py_config py_class_import_source) Extract.python_extractor eq_refl
            py_import_statement
            (inside_class (py_config py_class_import_source)
               Extract.python_extractor py_class_A) eq_refl)))
            "class:29534ba9f020ec49" [] _ _ _).
  - vm_compute. reflexivity.
  - discriminate.
  - vm_compute. discriminate.
Defined.

(** ** Paths *)

Section PathFacts.
Import Path.

Lemma chars_app (a b : string) : chars (a ++ b) = (chars a ++ chars b)%list.
Proof. induction a as [| c a IH]; simpl; [reflexivity | by rewrite <- IH]. Qed.

Lemma chars_inj (a b : string) : chars a = chars b -> a = b.
Proof.
  intros H. rewrite <- (String.string_of_list_ascii_of_string a).
  rewrite <- (String.string_of_list_ascii_of_string b). unfold chars in H. by rewrite H.
Qed.

Lemma string_prefix_chars (a b : string) :
  String.prefix a b = true <-> chars a `prefix_of` chars b.
Proof.
  revert b. induction a as [| c a IH]; intros b.
  - destruct b; simpl; split; intros _; try reflexivity; apply prefix_nil.
  - destruct b as [| d b]; simpl.
    + split; [discriminate |]. intros H. by apply prefix_nil_inv in H.
    + destruct (ascii_dec c d) as [-> | Hne].
      * rewrite IH. split; [apply prefix_cons | apply prefix_cons_inv_2].
      * split; [discriminate |]. intros H. by apply prefix_cons_inv_1 in H.
Qed.

Lemma split_segments (s : string) :
  Forall (fun x => "/"%char ∉ chars x) (Js.split "/" s).
Proof.
  induction s as [| c s IH]; simpl.
  - constructor; [apply not_elem_of_nil | constructor].
  - destruct (Ascii.eqb_spec c "/") as [-> | Hne].
    + constructor; [apply not_elem_of_nil | exact IH].
    + assert (Hc : forall x, "/"%char ∉ chars x -> "/"%char ∉ chars (String c x)).
      { intros x Hx. simpl. apply not_elem_of_cons. split; [congruence | exact Hx]. }
      destruct (Js.split "/" s) as [| x xs].
      * constructor; [| constructor]. apply Hc, not_elem_of_nil.
      * inversion IH as [| ? ? Hx Hxs]; subst. constructor; [by apply Hc | done].
Qed.

Lemma normalizeSegs_segments (allow : bool) (segs acc : list string) :
  Forall (fun x => "/"%char ∉ chars x) segs ->
  Forall segment acc ->
  Forall segment (normalizeSegs allow acc segs).
Proof.
  assert (Hdots : segment "..").
  { split; [discriminate |]. simpl.
    repeat (apply not_elem_of_cons; split; [discriminate |]). apply not_elem_of_nil. }
  revert acc. induction segs as [| s segs IH]; intros acc Hs Ha; simpl.
  - by apply Forall_rev.
  - inversion Hs as [| ? ? Hx Hxs]; subst.
    destruct (String.eqb_spec s "") as [-> | Hne]; simpl; [by apply IH |].
    destruct (String.eqb_spec s ".") as [-> | _]; simpl; [by apply IH |].
    destruct (String.eqb_spec s "..") as [-> | _].
    + destruct acc as [| top acc']; [destruct allow; apply IH; auto |].
      inversion Ha; subst.
      destruct (String.eqb top ".."); [destruct allow |]; apply IH; auto.
    + apply IH; [done |]. constructor; [by split | done].
Qed.

Lemma chars_join_cons (x y : string) (l : list string) :
  chars (Js.join "/" (x :: y :: l))
  = (chars x ++ "/"%char :: chars (Js.join "/" (y :: l)))%list.
Proof. change (Js.join "/" (x :: y :: l)) with (x ++ "/" ++ Js.join "/" (y :: l)).
       by rewrite !chars_app. Qed.

Lemma segment_chars (x : string) : segment x -> exists c cs, chars x = c :: cs.
Proof. intros [Hne _]. destruct x as [| c x]; [done | by eexists _, _]. Qed.

(** a joined path starts with a whole segment of another one only when the
    segments are the same *)
Lemma join_prefix (rs : list string) :
  forall ss,
    Forall segment rs -> Forall segment ss -> rs <> [] ->
    (chars (Js.join "/" rs) ++ ["/"%char])%list `prefix_of` chars (Js.join "/" ss) ->
    rs `prefix_of` ss.
Proof.
  induction rs as [| r rs IH]; intros ss Hrs Hss Hne Hp; [done |].
  inversion Hrs as [| ? ? [_ Hr] Hrs']; subst.
  destruct ss as [| s ss].
  { change (chars (Js.join "/" [])) with (@nil ascii) in Hp.
    apply prefix_nil_inv in Hp. by apply app_nil in Hp as [_ ?]. }
  inversion Hss as [| ? ? [_ Hs] Hss']; subst.
  destruct rs as [| r' rs], ss as [| s' ss].
  - simpl in Hp. destruct Hp as [k Hk]. destruct Hs. rewrite Hk.
    rewrite <- app_assoc. apply elem_of_app. right. by left.
  - simpl Js.join at 1 in Hp. rewrite chars_join_cons in Hp.
    apply (prefix_not_elem_of_app_cons_inv "/"%char "/"%char (chars r) [] (chars s)) in Hp;
      [| done | done].
    destruct Hp as (Heq & _ & _). apply chars_inj in Heq as ->.
    by apply prefix_cons, prefix_nil.
  - rewrite chars_join_cons in Hp. simpl Js.join in Hp.
    destruct Hp as [k Hk]. destruct Hs. rewrite Hk.
    rewrite <- !app_assoc. apply elem_of_app. right. by left.
  - rewrite !chars_join_cons in Hp. rewrite <- app_assoc in Hp. simpl in Hp.
    apply prefix_not_elem_of_app_cons_inv in Hp; [| done | done].
    destruct Hp as (Heq & _ & Hp). apply chars_inj in Heq as ->.
    apply prefix_cons. apply IH; [done | done | done |].
    exact Hp.
Qed.

Lemma chars_join_head (x : string) (l : list string) :
  segment x -> exists c rest, chars (Js.join "/" (x :: l)) = c :: rest.
Proof.
  intros Hx. destruct (segment_chars x Hx) as (c & cs & Hc).
  destruct l as [| y l].
  - exists c, cs. exact Hc.
  - rewrite chars_join_cons, Hc. by eexists _, _.
Qed.

Lemma join_inj (rs : list string) :
  forall ss,
    Forall segment rs -> Forall segment ss ->
    Js.join "/" rs = Js.join "/" ss -> rs = ss.
Proof.
  induction rs as [| r rs IH]; intros ss Hrs Hss Heq; apply (f_equal chars) in Heq.
  - destruct ss as [| s ss]; [done |]. inversion Hss as [| ? ? Hs _]; subst.
    destruct (chars_join_head s ss Hs) as (c & rest & Hc).
    rewrite Hc in Heq. discriminate Heq.
  - inversion Hrs as [| ? ? Hr Hrs']; subst.
    destruct ss as [| s ss].
    { destruct (chars_join_head r rs Hr) as (c & rest & Hc).
      rewrite Hc in Heq. discriminate Heq. }
    inversion Hss as [| ? ? Hs Hss']; subst.
    destruct rs as [| r' rs], ss as [| s' ss].
    + change (chars r = chars s) in Heq. by apply chars_inj in Heq as ->.
    + rewrite chars_join_cons in Heq. change (Js.join "/" [r]) with r in Heq.
      destruct Hr as [_ Hr]. destruct Hr. rewrite Heq.
      apply elem_of_app. right. by left.
    + rewrite chars_join_cons in Heq. change (Js.join "/" [s]) with s in Heq.
      destruct Hs as [_ Hs]. destruct Hs. rewrite <- Heq.
      apply elem_of_app. right. by left.
    + rewrite !chars_join_cons in Heq.
      apply not_elem_of_app_cons_inv_l in Heq; [| apply Hs | apply Hr].
      destruct Heq as (Heq1 & _ & Heq2). apply chars_inj in Heq1 as ->.
      f_equal. apply IH; [done | done |]. by apply chars_inj.
Qed.

Lemma resolveLoop_absolute (cwd : string) (l : list string) (acc : string) :
  isAbsolute cwd = true -> snd (resolveLoop (l ++ [cwd]) acc) = true.
Proof.
  intros Hc. revert acc. induction l as [| p l IH]; intros acc; simpl.
  - destruct (String.eqb_spec cwd "") as [-> | _]; [done |]. by rewrite Hc.
  - destruct (String.eqb p ""); [apply IH |].
    destruct (isAbsolute p); [done | apply IH].
Qed.

Lemma resolve_segments (cwd : string) (args : list string) :
  isAbsolute cwd = true ->
  resolve cwd args = "/" ++ Js.join "/" (resolveSegs cwd args)
  /\ Forall segment (resolveSegs cwd args).
Proof.
  intros Hc. unfold resolve, resolveSegs.
  pose proof (resolveLoop_absolute cwd (rev args) "" Hc) as Habs.
  destruct (resolveLoop (rev args ++ [cwd]) "") as [p absolute]. simpl in Habs. subst.
  split; [reflexivity |].
  apply normalizeSegs_segments; [apply split_segments | constructor].
Qed.

(** a path that [validatePathWithinRoot] lets through lies, segment by
    segment, at or below the root *)
Lemma validatePathWithinRoot_sound (cwd projectRoot filePath resolved : string) :
  isAbsolute cwd = true ->
  validatePathWithinRoot cwd projectRoot filePath = Some resolved ->
  resolved = resolve cwd [projectRoot; filePath]
  /\ resolveSegs cwd [projectRoot] `prefix_of` resolveSegs cwd [projectRoot; filePath].
Proof.
  intros Hc. unfold validatePathWithinRoot.
  destruct (resolve_segments cwd [projectRoot; filePath] Hc) as [Hp Hps].
  destruct (resolve_segments cwd [projectRoot] Hc) as [Hr Hrs].
  destruct (negb _ && negb _) eqn:Hcheck; [discriminate |].
  intros [= <-]. split; [reflexivity |].
  apply andb_false_iff in Hcheck. rewrite !negb_false_iff in Hcheck.
  destruct Hcheck as [Hstart | Heq].
  - unfold Js.startsWith in Hstart. apply string_prefix_chars in Hstart.
    rewrite Hp, Hr in Hstart. unfold sep in Hstart.
    rewrite !chars_app in Hstart. simpl in Hstart.
    apply prefix_cons_inv_2 in Hstart.
    destruct (resolveSegs cwd [projectRoot]) as [| r rs] eqn:Hrsegs; [apply prefix_nil |].
    by apply join_prefix.
  - apply String.eqb_eq in Heq. rewrite Hp, Hr in Heq. injection Heq as Heq.
    apply join_inj in Heq; [| done | done]. by rewrite Heq.
Qed.

End PathFacts.

Section PathSafety.
Import Orchestrator.
Variable env : Env.
Variable rootDir : string.
Variable config : CodeGraphConfig.

(** C8, as the code has it. A path whose lexical resolution against the
    project root leaves the root is rejected by the indexer: the result has
    the one error and no node, no file is looked at, the store is as it
    was; and the helper with the realpath check rejects it as well.  The
    indexer itself performs the lexical check only. *)
Theorem escaping_path_is_rejected (relativePath : string) (w : World) :
  Path.isAbsolute (cwd env) = true ->
  ~ staysWithin (cwd env) rootDir relativePath ->
  indexFile env rootDir config relativePath w
  = (Ok (mkResult [] [] []
           [mkError ("Path traversal blocked: " ++ relativePath) SevError]), w)
  /\ (forall content stats,
        indexFileWithContent env rootDir config relativePath content stats w
        = (Ok (mkResult [] [] [] [mkError "Path traversal blocked" SevError]), w))
  /\ (forall realpathSync,
        Path.isPathWithinRootReal realpathSync (cwd env) relativePath rootDir = false).
Proof.
  intros Hc Hout.
  assert (Hnone : Path.validatePathWithinRoot (cwd env) rootDir relativePath = None).
  { destruct (Path.validatePathWithinRoot _ _ _) as [r |] eqn:Hv; [| done].
    destruct Hout. by apply (validatePathWithinRoot_sound _ _ _ r). }
  split; [| split].
  - unfold indexFile. by rewrite Hnone.
  - intros. unfold indexFileWithContent. by rewrite Hnone.
  - intros rp. unfold Path.isPathWithinRootReal, Path.isPathWithinRoot.
    unfold Path.validatePathWithinRoot in Hnone.
    destruct (negb _ && negb _) eqn:Hcheck; [| discriminate].
    apply andb_true_iff in Hcheck as [H1 H2].
    apply negb_true_iff in H1, H2. by rewrite H1, H2.
Qed.

End PathSafety.

Lemma escaping_path_is_rejected_witness :
  Orchestrator.indexFile symlink_env "/proj" plain_config "../etc/passwd" fresh_world
  = (Ok (mkResult [] [] []
           [mkError "Path traversal blocked: ../etc/passwd" SevError]), fresh_world).
Proof.
  refine (proj1 (escaping_path_is_rejected symlink_env "/proj" plain_config
                   "../etc/passwd" fresh_world eq_refl _)).
  unfold staysWithin. vm_compute. intros [k Hk]. discriminate Hk.
Defined.

(** C8 fails on the code: link.ts lies in the project directory and its
    real target lies outside.  The check with realpath would reject it; the
    indexer reads the file and extracts its nodes. *)
Lemma symlink_escape_is_indexed :
  Path.isPathWithinRootReal symlink_realpath "/" "link.ts" "/proj" = false
  /\ exists res w',
       Orchestrator.indexFile symlink_env "/proj" plain_config "link.ts" fresh_world
       = (Ok res, w')
       /\ length (nodes res) = 3%nat
       /\ Orchestrator.io w'
          = [Orchestrator.IoStat "/proj/link.ts"; Orchestrator.IoRead "/proj/link.ts"]
       /\ is_Some (Store.getFileByPath "link.ts" (Orchestrator.db w')).
Proof.
  split; [vm_compute; reflexivity |].
  eexists _, _. split; [vm_compute; reflexivity |].
  split; [reflexivity |]. split; [reflexivity |]. vm_compute. by eexists.
Qed.

(** ** Node identifiers *)

Section DigestFacts.

Lemma chars_substring0 (n : nat) (s : string) :
  chars (substring0 n s) = take n (chars s).
Proof.
  unfold substring0. revert s. induction n as [| n IH]; intros [| c s]; simpl;
    try reflexivity. by rewrite <- IH.
Qed.

Lemma chars_of_list (l : list ascii) : chars (String.string_of_list_ascii l) = l.
Proof. apply String.list_ascii_of_string_of_list_ascii. Qed.

Lemma hex_digit_is_hex (x : Z) : isHexDigit (Sha256.hex_digit x).
Proof.
  unfold isHexDigit, Sha256.hex_digit. apply list_elem_of_In, nth_In.
  change (Z.to_nat (x mod 16) < 16)%nat.
  pose proof (Z.mod_pos_bound x 16 ltac:(lia)). lia.
Qed.

Lemma hex_digest_shape (msg : string) :
  length (chars (Sha256.hex msg)) = 64%nat /\ Forall isHexDigit (chars (Sha256.hex msg)).
Proof.
  unfold Sha256.hex. rewrite chars_of_list. unfold Sha256.eight.
  generalize (Sha256.digest_words (Sha256.bytes_of_string msg)). intros ws.
  split.
  - reflexivity.
  - apply Forall_concat, List.Forall_forall. intros w Hw.
    apply in_map_iff in Hw as (x & <- & _).
    apply List.Forall_forall. intros c Hc.
    apply in_map_iff in Hc as (i & <- & _). apply hex_digit_is_hex.
Qed.

End DigestFacts.

Section WalkSimulation.
Import Extract.
Variables cfg1 cfg2 : Config.
Variable e : LanguageExtractor.
Variable R : State -> State -> Prop.


Hypothesis Hstep :
  forall n vb1 vb2 vc1 vc2,
    respects R vb1 vb2 -> respects R vc1 vc2 ->
    respects R (visitNodeWith cfg1 e vb1 vc1 n) (visitNodeWith cfg2 e vb2 vc2 n).

Lemma fold_respects (cs : list SyntaxNode) :
  Forall (fun c => respects R (fst (visitors cfg1 e c)) (fst (visitors cfg2 e c))) cs ->
  respects R (fun st => fold_left (fun s c => fst (visitors cfg1 e c) s) cs st)
           (fun st => fold_left (fun s c => fst (visitors cfg2 e c) s) cs st).
Proof.
  induction 1 as [| c cs Hc _ IH]; intros s1 s2 HR; simpl; [exact HR |].
  apply IH, Hc, HR.
Qed.

(** what holds of one step of the dispatch holds of the whole walk *)
Lemma visitors_respect (n : SyntaxNode) :
  respects R (fst (visitors cfg1 e n)) (fst (visitors cfg2 e n))
  /\ respects R (snd (visitors cfg1 e n)) (snd (visitors cfg2 e n)).
Proof.
  induction n as [ty nm fl si ei sp ep cs IH] using SyntaxNode_ind.
  set (n := SN ty nm fl si ei sp ep cs).
  assert (Hkids : Forall (fun c => respects R (fst (visitors cfg1 e c))
                                            (fst (visitors cfg2 e c))) cs).
  { eapply Forall_impl; [exact IH |]. by intros c [H _]. }
  assert (Hc : forall s1 s2, R s1 s2 ->
                 R (fold_left (fun s kv => if isNamed (fst kv) then fst (snd kv) s else s)
                              (kidsOf cfg1 e (children n)) s1)
                   (fold_left (fun s kv => if isNamed (fst kv) then fst (snd kv) s else s)
                              (kidsOf cfg2 e (children n)) s2)).
  { intros s1 s2 HR. rewrite !fold_kids. apply fold_respects; [| exact HR].
    simpl. apply List.Forall_forall. intros c Hin.
    apply filter_In in Hin as [Hin _].
    rewrite List.Forall_forall in Hkids. by apply Hkids. }
  rewrite !visitors_unfold. simpl fst. simpl snd. split; [| exact Hc].
  apply Hstep; [| exact Hc].
  rewrite !find_kids. simpl children.
  destruct (List.find (has_field (bodyField e)) cs) as [b |] eqn:Hb; simpl; [| exact Hc].
  apply find_some in Hb as [Hin _].
  rewrite List.Forall_forall in IH. apply (IH b Hin).
Qed.

End WalkSimulation.

Section ClockFacts.
Import Extract.
Variable cfg : Config.
Variable e : LanguageExtractor.

Lemma find_erase (i : string) (l : list Node) :
  n_name <$> List.find (fun n => String.eqb (n_id n) i) (erase <$> l)
  = n_name <$> List.find (fun n => String.eqb (n_id n) i) l.
Proof.
  induction l as [| a l IH]; simpl; [reflexivity |].
  destruct (String.eqb (n_id a) i); [reflexivity | exact IH].
Qed.

Lemma buildQualifiedName_erase (st : State) (name : string) :
  buildQualifiedName (stopped cfg) (eraseState st) name = buildQualifiedName cfg st name.
Proof.
  assert (Hnames : forall l : list string,
             omap (fun nodeId =>
                     n_name <$> List.find (fun n => String.eqb (n_id n) nodeId)
                                          (erase <$> st_nodes st)) l
             = omap (fun nodeId =>
                       n_name <$> List.find (fun n => String.eqb (n_id n) nodeId)
                                            (st_nodes st)) l).
  { intros l. apply list_omap_ext, Forall_Forall2_diag, Forall_true.
    intros i. apply find_erase. }
  unfold buildQualifiedName.
  change (st_nodes (eraseState st)) with (erase <$> st_nodes st).
  rewrite Hnames. reflexivity.
Qed.

Lemma createNode_erase (kind : NodeKind) (name : string) (n : SyntaxNode) (st : State) :
  createNode (stopped cfg) kind name n (eraseState st)
  = (erase (fst (createNode cfg kind name n st)),
     eraseState (snd (createNode cfg kind name n st))).
Proof.
  unfold createNode. rewrite buildQualifiedName_erase.
  unfold eraseState, erase. simpl. rewrite fmap_app. reflexivity.
Qed.

Lemma extractCall_erase (n : SyntaxNode) (st : State) :
  extractCall (stopped cfg) n (eraseState st) = eraseState (extractCall cfg n st).
Proof.
  unfold extractCall. simpl.
  repeat match goal with
         | |- context [match ?x with _ => _ end] => destruct x
         end; reflexivity.
Qed.

Lemma visitForCalls_erase (n : SyntaxNode) :
  forall st,
    visitForCalls (stopped cfg) e n (eraseState st) = eraseState (visitForCalls cfg e n st).
Proof.
  induction n as [ty nm fl si ei sp ep cs IH] using SyntaxNode_ind. intros st. simpl.
  match goal with
  | |- ?each0 cs ?a = eraseState (?each cs ?b) =>
      assert (H1 : a = eraseState b)
        by (destruct (isIn ty (callTypes e)); [apply extractCall_erase | reflexivity]);
      rewrite H1; clear H1; generalize b
  end.
  induction IH as [| c cs Hc _ IHcs]; intros s; [reflexivity |].
  destruct (isNamed c); [rewrite Hc |]; apply IHcs.
Qed.

Lemma extractFunction_erase (n : SyntaxNode) (st : State) :
  extractFunction (stopped cfg) e n (eraseState st) = eraseState (extractFunction cfg e n st).
Proof.
  unfold extractFunction. simpl source.
  destruct (String.eqb _ anonymous); [reflexivity |].
  rewrite createNode_erase. destruct (createNode cfg _ _ _ _) as [nd s1]. simpl.
  destruct (childForFieldName n (bodyField e)) as [body |]; [| reflexivity].
  unfold visitFunctionBody.
  change (push (n_id nd) (eraseState s1)) with (eraseState (push (n_id nd) s1)).
  rewrite visitForCalls_erase. reflexivity.
Qed.

Lemma extractMethod_erase (n : SyntaxNode) (st : State) :
  extractMethod (stopped cfg) e n (eraseState st) = eraseState (extractMethod cfg e n st).
Proof.
  unfold extractMethod. simpl source. simpl language. simpl nodeStack.
  destruct (_ && _); [apply extractFunction_erase |].
  rewrite createNode_erase. destruct (createNode cfg _ _ _ _) as [nd s1]. simpl.
  destruct (childForFieldName n (bodyField e)) as [body |]; [| reflexivity].
  unfold visitFunctionBody.
  change (push (n_id nd) (eraseState s1)) with (eraseState (push (n_id nd) s1)).
  rewrite visitForCalls_erase. reflexivity.
Qed.

Lemma fold_erase {A} (f0 f : State -> A -> State) (l : list A) :
  (forall s x, f0 (eraseState s) x = eraseState (f s x)) ->
  forall s, fold_left f0 l (eraseState s) = eraseState (fold_left f l s).
Proof.
  intros Hf. induction l as [| x l IH]; intros s; simpl; [reflexivity |].
  by rewrite Hf, IH.
Qed.

Lemma refs_fold_erase {A} (mk : A -> UnresolvedReference) (l : list A) :
  forall s,
    fold_left (fun s' x => addRef (mk x) s') l (eraseState s)
    = eraseState (fold_left (fun s' x => addRef (mk x) s') l s).
Proof.
  induction l as [| x l IH]; intros s; simpl; [reflexivity |].
  exact (IH (addRef (mk x) s)).
Qed.

Lemma extractInheritance_erase (n : SyntaxNode) (classId : string) (st : State) :
  extractInheritance (stopped cfg) n classId (eraseState st)
  = eraseState (extractInheritance cfg n classId st).
Proof.
  unfold extractInheritance. apply fold_erase. intros s child. simpl source.
  destruct (isIn (sn_type child) ["implements_clause"; "class_interface_clause"]).
  - destruct (isIn (sn_type child) _); [destruct (namedChild child 0) as [sup |] |].
    + exact (refs_fold_erase _ (namedChildren child) (addRef _ s)).
    + exact (refs_fold_erase _ (namedChildren child) s).
    + exact (refs_fold_erase _ (namedChildren child) s).
  - destruct (isIn (sn_type child) _); [destruct (namedChild child 0) |]; reflexivity.
Qed.

Lemma extractContainer_erase (kind : NodeKind) (inherits : bool)
    (vb vb0 : State -> State) (n : SyntaxNode) (st : State) :
  (forall s, vb0 (eraseState s) = eraseState (vb s)) ->
  extractContainer kind inherits (stopped cfg) e vb0 n (eraseState st)
  = eraseState (extractContainer kind inherits cfg e vb n st).
Proof.
  intros Hb. unfold extractContainer. simpl source.
  rewrite createNode_erase. destruct (createNode cfg _ _ _ _) as [nd s1]. simpl fst. simpl snd.
  change (n_id (erase nd)) with (n_id nd).
  destruct inherits.
  - rewrite extractInheritance_erase.
    match goal with
    | |- context [push ?i (eraseState ?s)] =>
        change (push i (eraseState s)) with (eraseState (push i s))
    end.
    by rewrite Hb.
  - change (push (n_id nd) (eraseState s1)) with (eraseState (push (n_id nd) s1)).
    by rewrite Hb.
Qed.

Lemma extractImport_erase (n : SyntaxNode) (st : State) :
  extractImport (stopped cfg) n (eraseState st) = eraseState (extractImport cfg n st).
Proof.
  unfold extractImport.
  change (moduleNameOf (stopped cfg) n) with (moduleNameOf cfg n). simpl nodeStack.
  destruct (_ && _); [| reflexivity].
  destruct (nodeStack st) as [| p rest]; [reflexivity |].
  destruct (String.eqb p ""); reflexivity.
Qed.

Lemma visitNodeWith_erase (n : SyntaxNode) (vb vb0 vc vc0 : State -> State) (st : State) :
  (forall s, vb0 (eraseState s) = eraseState (vb s)) ->
  (forall s, vc0 (eraseState s) = eraseState (vc s)) ->
  visitNodeWith (stopped cfg) e vb0 vc0 n (eraseState st)
  = eraseState (visitNodeWith cfg e vb vc n st).
Proof.
  intros Hb Hc.
  unfold visitNodeWith, extractStruct, extractClass, extractInterface, extractEnum.
  change (language (stopped cfg)) with (language cfg).
  change (source (stopped cfg)) with (source cfg).
  change (nodeStack (eraseState st)) with (nodeStack st).
  repeat match goal with
         | |- context [if ?b then _ else _] => destruct b
         end;
    rewrite ?extractImport_erase, ?extractCall_erase, ?Hc;
    auto using extractMethod_erase, extractFunction_erase, extractContainer_erase;
    simpl source; rewrite createNode_erase; reflexivity.
Qed.

End ClockFacts.

(** the walk with the clock stopped gives the same state, time stamps
    apart *)
Lemma visitNode_erase (cfg : Extract.Config) (n : SyntaxNode) (st : Extract.State) :
  Extract.visitNode (stopped cfg) n (eraseState st)
  = eraseState (Extract.visitNode cfg n st).
Proof.
  unfold Extract.visitNode. change (Extract.language (stopped cfg)) with (Extract.language cfg).
  destruct (Extract.EXTRACTORS (Extract.language cfg)) as [e |]; [| reflexivity].
  symmetry.
  refine (proj1 (visitors_respect cfg (stopped cfg) e
                   (fun s1 s2 => eraseState s1 = s2) _ n) st (eraseState st) eq_refl).
  intros m vb1 vb2 vc1 vc2 Hb Hc s1 s2 <-. symmetry.
  apply visitNodeWith_erase; intros s; symmetry; [by apply Hb | by apply Hc].
Qed.

Lemma GRAMMAR_MAP_ext (l1 l2 : Grammars.Grammar -> bool) (lang : Language) :
  (forall g, l1 g = l2 g) -> Grammars.GRAMMAR_MAP l1 lang = Grammars.GRAMMAR_MAP l2 lang.
Proof.
  intros H. unfold Grammars.GRAMMAR_MAP. f_equal.
  induction Grammars.grammarEntries as [| x l IH]; simpl; [reflexivity |].
  by rewrite H, IH.
Qed.

(** the result of an extraction does not depend on the time at which it
    runs, time stamps apart *)
Lemma extract_at_any_time (h1 h2 : Extract.Host) (filePath source : string)
    (language : Language) :
  sameHostLater h1 h2 ->
  erase <$> nodes (Extract.extract h1 filePath source language)
  = erase <$> nodes (Extract.extract h2 filePath source language)
  /\ edges (Extract.extract h1 filePath source language)
     = edges (Extract.extract h2 filePath source language)
  /\ unresolvedReferences (Extract.extract h1 filePath source language)
     = unresolvedReferences (Extract.extract h2 filePath source language)
  /\ errors (Extract.extract h1 filePath source language)
     = errors (Extract.extract h2 filePath source language).
Proof.
  intros [Hl Hp]. unfold Extract.extract, Grammars.isLanguageSupported, Grammars.getParser.
  rewrite (GRAMMAR_MAP_ext _ _ language Hl).
  destruct (negb _); [done |].
  destruct (Grammars.GRAMMAR_MAP (Extract.loaded h2) language) as [g |]; [| done].
  rewrite Hp. destruct (Extract.parse h2 g source) as [err | root]; [done |].
  pose proof (visitNode_erase (Extract.mkConfig filePath source language (Extract.now h1))
                root Extract.initial) as H1.
  pose proof (visitNode_erase (Extract.mkConfig filePath source language (Extract.now h2))
                root Extract.initial) as H2.
  change (stopped (Extract.mkConfig filePath source language (Extract.now h1)))
    with (stopped (Extract.mkConfig filePath source language (Extract.now h2))) in H1.
  rewrite H2 in H1. simpl.
  repeat split.
  - exact (f_equal Extract.st_nodes (eq_sym H1)).
  - exact (f_equal Extract.st_edges (eq_sym H1)).
  - exact (f_equal Extract.st_refs (eq_sym H1)).
  - exact (f_equal Extract.st_errors (eq_sym H1)).
Qed.

Section IdentityFacts.
Import Extract.
Variable cfg : Config.
Variable e : LanguageExtractor.


Lemma idsOk_onlyRefs (st st' : State) : onlyRefs st st' -> idsOk cfg st -> idsOk cfg st'.
Proof. intros (Hn & _). unfold idsOk. by rewrite Hn. Qed.

Lemma createNode_idsOk (kind : NodeKind) (name : string) (n : SyntaxNode) (st : State) :
  idsOk cfg st -> idsOk cfg (snd (createNode cfg kind name n st)).
Proof.
  intros H. unfold idsOk, createNode. simpl. apply Forall_app. split; [exact H |].
  constructor; [| constructor]. by split.
Qed.

Lemma extractImport_onlyRefs (n : SyntaxNode) (st : State) :
  onlyRefs st (extractImport cfg n st).
Proof.
  unfold extractImport.
  repeat match goal with
         | |- context [match ?x with _ => _ end] => destruct x
         end; by repeat split.
Qed.

Lemma fold_onlyRefs {A} (f : State -> A -> State) (l : list A) :
  (forall s x, onlyRefs s (f s x)) -> forall s, onlyRefs s (fold_left f l s).
Proof.
  intros Hf. induction l as [| x l IH]; intros s; simpl; [apply onlyRefs_refl |].
  eapply onlyRefs_trans; [apply Hf | apply IH].
Qed.

Lemma extractInheritance_onlyRefs (n : SyntaxNode) (classId : string) (st : State) :
  onlyRefs st (extractInheritance cfg n classId st).
Proof.
  unfold extractInheritance. apply fold_onlyRefs. intros s child.
  assert (H1 : forall P : State -> Prop,
             P s -> (forall r, P (addRef r s)) ->
             P (if isIn (sn_type child) ["extends_clause"; "class_heritage"; "superclass"]
                then match namedChild child 0 with
                     | Some superclass =>
                         addRef {| r_fromNodeId := classId;
                                   r_referenceName := getNodeText superclass (source cfg);
                                   r_referenceKind := EExtends;
                                   r_line := row (startPosition child) + 1;
                                   r_column := column (startPosition child);
                                   r_filePath := None;
                                   r_language := None |} s
                     | None => s
                     end
                else s)).
  { intros P Hs Hr. destruct (isIn _ _); [destruct (namedChild child 0) |]; auto. }
  destruct (isIn (sn_type child) ["implements_clause"; "class_interface_clause"]).
  - eapply onlyRefs_trans; [| apply fold_onlyRefs; intros; by repeat split].
    apply H1; by repeat split.
  - apply H1; by repeat split.
Qed.

Lemma extractContainer_idsOk (kind : NodeKind) (inherits : bool) (vb : State -> State)
    (n : SyntaxNode) (st : State) :
  (forall s, idsOk cfg s -> idsOk cfg (vb s)) ->
  idsOk cfg st -> idsOk cfg (extractContainer kind inherits cfg e vb n st).
Proof.
  intros Hb H. unfold extractContainer.
  pose proof (createNode_idsOk kind (extractName n (source cfg) e) n st H) as H1.
  destruct (createNode cfg kind _ n st) as [nd s1]. simpl in H1.
  assert (H2 : idsOk cfg (if inherits then extractInheritance cfg n (n_id nd) s1 else s1)).
  { destruct inherits; [| exact H1].
    eapply idsOk_onlyRefs; [apply extractInheritance_onlyRefs | exact H1]. }
  apply (Hb (push (n_id nd) (if inherits then extractInheritance cfg n (n_id nd) s1 else s1))).
  exact H2.
Qed.

Lemma extractFunction_idsOk (n : SyntaxNode) (st : State) :
  idsOk cfg st -> idsOk cfg (extractFunction cfg e n st).
Proof.
  intros H. unfold idsOk. rewrite (proj1 (extractFunction_nodes cfg e n st)).
  destruct (String.eqb _ _); [exact H |].
  apply (createNode_idsOk KFunction (extractName n (source cfg) e) n st H).
Qed.

Lemma extractMethod_idsOk (n : SyntaxNode) (st : State) :
  idsOk cfg st -> idsOk cfg (extractMethod cfg e n st).
Proof.
  intros H. unfold idsOk. rewrite (proj1 (extractMethod_nodes cfg e n st)).
  destruct (_ && _); [by apply extractFunction_idsOk |].
  apply (createNode_idsOk KMethod (extractName n (source cfg) e) n st H).
Qed.

Lemma visitNodeWith_idsOk (n : SyntaxNode) (vb vc : State -> State) (st : State) :
  (forall s, idsOk cfg s -> idsOk cfg (vb s)) ->
  (forall s, idsOk cfg s -> idsOk cfg (vc s)) ->
  idsOk cfg st -> idsOk cfg (visitNodeWith cfg e vb vc n st).
Proof.
  intros Hb Hc H.
  unfold visitNodeWith, extractStruct, extractClass, extractInterface, extractEnum.
  repeat match goal with
         | |- context [if ?b then _ else _] => destruct b
         end;
    auto using extractMethod_idsOk, extractFunction_idsOk, extractContainer_idsOk,
               createNode_idsOk;
    apply Hc; (eapply idsOk_onlyRefs; [| exact H]);
    auto using extractImport_onlyRefs, extractCall_onlyRefs.
Qed.

End IdentityFacts.

Lemma visitNode_idsOk (cfg : Extract.Config) (n : SyntaxNode) (st : Extract.State) :
  idsOk cfg st -> idsOk cfg (Extract.visitNode cfg n st).
Proof.
  unfold Extract.visitNode.
  destruct (Extract.EXTRACTORS (Extract.language cfg)) as [e |]; [| done].
  intros H.
  refine (proj1 (visitors_respect cfg cfg e (fun s1 _ => idsOk cfg s1) _ n) st st H).
  intros m vb1 vb2 vc1 vc2 Hb Hc s1 s2 Hs.
  apply visitNodeWith_idsOk; [| | exact Hs].
  - intros s Hi. exact (Hb s s Hi).
  - intros s Hi. exact (Hc s s Hi).
Qed.

Lemma digit_of_pretty_N_char (x : N) :
  (x < 10)%N -> Js.digit_of (pretty_N_char x) = Some (Z.of_N x).
Proof.
  intros H.
  assert (x = 0 \/ x = 1 \/ x = 2 \/ x = 3 \/ x = 4 \/ x = 5 \/ x = 6
          \/ x = 7 \/ x = 8 \/ x = 9)%N as Hx by lia.
  repeat (destruct Hx as [-> | Hx]; [reflexivity |]). subst. reflexivity.
Qed.

(** the digits that [pretty] puts in front of [s] are read back as the
    number they were written for *)
Lemma digits_pretty_N_go (x : N) (s : string) :
  Js.digits None (pretty_N_go x s)
  = Js.digits (if decide (x = 0%N) then None else Some (Z.of_N x)) s.
Proof.
  revert s. induction (N.lt_wf_0 x) as [x _ IH]. intros s.
  destruct (decide (x = 0%N)) as [-> | Hx].
  - by rewrite pretty_N_go_0.
  - rewrite pretty_N_go_step by lia.
    rewrite IH by (apply N.div_lt; lia).
    cbn [Js.digits]. rewrite digit_of_pretty_N_char by (apply N.mod_lt; lia).
    f_equal. f_equal.
    pose proof (N.div_mod x 10 ltac:(lia)) as Hdm.
    destruct (decide (x `div` 10 = 0)%N) as [Hz | Hz]; simpl; lia.
Qed.

Lemma kind_name_inj (k k' : NodeKind) : kind_name k = kind_name k' -> k = k'.
Proof. destruct k, k'; intros H; try reflexivity; discriminate H. Qed.

Lemma append_inv_head (a b c : string) : a ++ b = a ++ c -> b = c.
Proof.
  intros H. apply chars_inj. apply (f_equal chars) in H.
  rewrite !chars_app in H. by apply app_inv_head in H.
Qed.

Lemma append_inv_tail (a b c : string) : a ++ c = b ++ c -> a = b.
Proof.
  intros H. apply chars_inj. apply (f_equal chars) in H.
  rewrite !chars_app in H. by apply app_inv_tail in H.
Qed.

Lemma append_assoc (a b c : string) : (a ++ b) ++ c = a ++ b ++ c.
Proof. apply chars_inj. rewrite !chars_app. by rewrite <- app_assoc. Qed.

Lemma show_nat_read_back (n : nat) : Js.digits None (show_nat n) = Some (Z.of_nat n).
Proof.
  unfold show_nat, pretty, pretty_nat, pretty, pretty_N.
  destruct (decide (N.of_nat n = 0%N)) as [H0 | Hn].
  - assert (n = 0)%nat as -> by lia. reflexivity.
  - rewrite digits_pretty_N_go. destruct (decide (N.of_nat n = 0%N)); [done |].
    simpl. f_equal. lia.
Qed.

(** C5. A node id is the kind, a colon, and the first 16 characters of
    the hexadecimal SHA-256 digest of path:kind:name:line, sixteen
    hexadecimal digits.  The digest is SHA-256: it gives the published
    digests of the empty message, of abc and of the 56-byte message of
    FIPS 180, and the ones of messages of 55, 56 and 64 bytes, where the
    padding changes shape, and the id of a function computed with it is
    the one the hash of the platform gives.  The message holds the four
    inputs: the line is written as its decimal numeral, which reads back
    as the line, and two messages that differ in one of path, kind, name
    or line are different messages.  Every node of an extraction result
    carries the id computed from its own file path, kind, name and start
    line; and two extractions of the same content, at whatever times they
    run, give the same ids in the same order. *)
Theorem node_ids_are_digests_of_their_inputs :
  (forall filePath kind name line,
      exists h,
        generateNodeId filePath kind name line = kind_name kind ++ ":" ++ h
        /\ chars h
           = take 16 (chars (Sha256.hex (filePath ++ ":" ++ kind_name kind ++ ":"
                                         ++ name ++ ":" ++ show_nat line)))
        /\ length (chars h) = 16%nat
        /\ Forall isHexDigit (chars h))
  /\ (Sha256.hex ""
      = "e3b0c44298fc1c149afbf4c8996fb92427ae41e4649b934ca495991b7852b855"
      /\ Sha256.hex "abc"
         = "ba7816bf8f01cfea414140de5dae2223b00361a396177a9cb410ff61f20015ad"
      /\ Sha256.hex "abcdbcdecdefdefgefghfghighijhijkijkljklmklmnlmnomnopnopq"
         = "248d6a61d20638b8e5c026930c3e6039a33ce45964ff2167f6ecedd419db06c1"
      /\ Sha256.hex "aaaaaaaaaaaaaaaaaaaaaaaaaaaaaaaaaaaaaaaaaaaaaaaaaaaaaaa"
         = "9f4390f8d30c2dd92ec9f095b65e2b9ae9b0a925a5258e241c9f1e910f734318"
      /\ Sha256.hex "aaaaaaaaaaaaaaaaaaaaaaaaaaaaaaaaaaaaaaaaaaaaaaaaaaaaaaaa"
         = "b35439a4ac6f0948b6d6f9e3c6af0f5f590ce20f1bde7090ef7970686ec6738a"
      /\ Sha256.hex "aaaaaaaaaaaaaaaaaaaaaaaaaaaaaaaaaaaaaaaaaaaaaaaaaaaaaaaaaaaaaaaa"
         = "ffe054fe7ae0cb6dc65c3af9b61d5209f439851db43d0ba5997337df154668eb"
      /\ generateNodeId "src/utils/crypto.ts" KFunction "hashPassword" 12
         = "function:8cf46af8ac5a210a"
      /\ generateNodeId "src/a.ts" KClass "A" 1 = "class:5b01ad243e577150")
  /\ (forall line, Js.digits None (show_nat line) = Some (Z.of_nat line))
  /\ (forall filePath kind name line filePath' kind' name' line',
        filePath ++ ":" ++ kind_name kind ++ ":" ++ name ++ ":" ++ show_nat line
        = filePath' ++ ":" ++ kind_name kind' ++ ":" ++ name' ++ ":" ++ show_nat line' ->
        (kind = kind' -> name = name' -> line = line' -> filePath = filePath')
        /\ (filePath = filePath' -> name = name' -> line = line' -> kind = kind')
        /\ (filePath = filePath' -> kind = kind' -> line = line' -> name = name')
        /\ (filePath = filePath' -> kind = kind' -> name = name' -> line = line'))
  /\ (forall host filePath source language n,
        n ∈ nodes (Extract.extract host filePath source language) ->
        idFromAttributes filePath n)
  /\ (forall h1 h2 filePath source language,
        sameHostLater h1 h2 ->
        n_id <$> nodes (Extract.extract h1 filePath source language)
        = n_id <$> nodes (Extract.extract h2 filePath source language)).
Proof.
  split; [| split; [| split; [| split; [| split]]]].
  - intros fp k nm line. eexists. split; [reflexivity |].
    rewrite chars_substring0.
    destruct (hex_digest_shape (fp ++ ":" ++ kind_name k ++ ":" ++ nm ++ ":" ++ show_nat line))
      as [Hlen Hhex].
    split; [reflexivity |]. split.
    + rewrite length_take, Hlen. reflexivity.
    + by apply Forall_take.
  - repeat split; vm_compute; reflexivity.
  - apply show_nat_read_back.
  - intros fp k nm line fp' k' nm' line' H. repeat split.
    + intros <- <- <-. by apply append_inv_tail in H.
    + intros <- <- <-. apply append_inv_head, append_inv_head in H.
      apply append_inv_tail in H. by apply kind_name_inj.
    + intros <- <- <-. do 4 apply append_inv_head in H.
      by apply append_inv_tail in H.
    + intros <- <- <-. do 6 apply append_inv_head in H.
      unfold show_nat in H. by apply (inj pretty) in H.
  - intros host fp src lang n. unfold Extract.extract.
    destruct (negb _); [intros Hin; by apply elem_of_nil in Hin |].
    destruct (Grammars.getParser _ _) as [g |]; [| intros Hin; by apply elem_of_nil in Hin].
    destruct (Extract.parse host g src) as [err | root];
      [intros Hin; by apply elem_of_nil in Hin |].
    simpl. intros Hin.
    pose proof (visitNode_idsOk (Extract.mkConfig fp src lang (Extract.now host)) root
                  Extract.initial (List.Forall_nil _)) as Hok.
    unfold idsOk in Hok. rewrite Forall_forall in Hok. by apply Hok.
  - intros h1 h2 fp src lang Hsame.
    destruct (extract_at_any_time h1 h2 fp src lang Hsame) as (Hn & _).
    apply (f_equal (fmap n_id)) in Hn. rewrite <- !list_fmap_compose in Hn. exact Hn.
Qed.

Lemma node_ids_are_digests_of_their_inputs_witness :
  n_id <$> nodes (Extract.extract (host_with ts_static_block_tree)
                    "src/a.ts" ts_static_block_source LTypescript)
  = n_id <$> nodes (Extract.extract (host_later ts_static_block_tree)
                      "src/a.ts" ts_static_block_source LTypescript).
Proof.
  refine (proj2 (proj2 (proj2 (proj2 (proj2 node_ids_are_digests_of_their_inputs))))
            (host_with ts_static_block_tree) (host_later ts_static_block_tree)
            "src/a.ts" ts_static_block_source LTypescript _).
  split; intros; reflexivity.
Defined.

Example later_extraction_differs_in_time_only :
  nodes (Extract.extract (host_with ts_static_block_tree)
           "src/a.ts" ts_static_block_source LTypescript)
  <> nodes (Extract.extract (host_later ts_static_block_tree)
              "src/a.ts" ts_static_block_source LTypescript).
Proof. intros H. vm_compute in H. discriminate H. Qed.

(** ** Sync *)

Section SyncFacts.
Import Orchestrator.
Variable env : Env.
Variable rootDir : string.
Variable config : CodeGraphConfig.

Lemma unchanged_lookup (p content : string) (d d' : Store.Db) :
  Store.t_files d' !! p = Store.t_files d !! p ->
  unchanged p content d -> unchanged p content d'.
Proof. unfold unchanged, Store.getFileByPath. intros ->. done. Qed.

(** a store that does not fail takes the result in, and the record of the
    file then has the hash of its content; no other record changes *)
Lemma storeExtractionResult_ok (p content : string) (lang : Language)
    (stats : Stats) (result : ExtractionResult) (d : Store.Db) (i : list IoEvent) :
  exists d',
    storeExtractionResult env p content lang stats result (mkWorld d i None)
    = (Ok tt, mkWorld d' i None)
    /\ unchanged p content d'
    /\ (forall q, q <> p -> Store.t_files d' !! q = Store.t_files d !! q).
Proof.
  unfold storeExtractionResult, bind, query, when, mutate, ret. simpl.
  destruct (Store.getFileByPath p d) as [r |] eqn:Hr.
  - destruct (String.eqb_spec (Store.f_contentHash r) (hashContent content)) as [Hh | _].
    { exists d. split; [reflexivity |]. split; [by exists r | done]. }
    rewrite bool_decide_true by eauto.
    destruct (nonEmpty (nodes result)), (nonEmpty (edges result)),
      (nonEmpty (unresolvedReferences result)); simpl;
      (eexists; split; [reflexivity |]; split;
       [ eexists; split; [apply lookup_insert_eq | reflexivity]
       | intros q Hq; simpl; by rewrite lookup_insert_ne, lookup_delete_ne ]).
  - rewrite bool_decide_false by (intros [? ?]; congruence).
    destruct (nonEmpty (nodes result)), (nonEmpty (edges result)),
      (nonEmpty (unresolvedReferences result)); simpl;
      (eexists; split; [reflexivity |]; split;
       [ eexists; split; [apply lookup_insert_eq | reflexivity]
       | intros q Hq; simpl; by rewrite lookup_insert_ne ]).
Qed.

Lemma indexFileWithContent_ok (p content : string) (stats : Stats)
    (d : Store.Db) (i : list IoEvent) :
  exists res d',
    indexFileWithContent env rootDir config p content stats (mkWorld d i None)
    = (Ok res, mkWorld d' i None)
    /\ (forall q, q <> p -> Store.t_files d' !! q = Store.t_files d !! q)
    /\ (forall fullPath,
          Path.validatePathWithinRoot (cwd env) rootDir p = Some fullPath ->
          stat env fullPath = inr stats ->
          storable env rootDir config p content -> unchanged p content d').
Proof.
  unfold indexFileWithContent.
  destruct (Path.validatePathWithinRoot (cwd env) rootDir p) as [full |] eqn:Hv.
  2: { eexists _, d. split; [reflexivity |]. split; [done |]. intros ? [=]. }
  destruct (N.ltb_spec (maxFileSize config) (size stats)) as [Hbig | Hsmall].
  { eexists _, d. split; [reflexivity |]. split; [done |].
    intros f [= <-] Hst (f' & st' & Hf' & Hst' & _ & Hsz & _).
    rewrite Hv in Hf'. injection Hf' as <-. rewrite Hst in Hst'. injection Hst' as <-. lia. }
  destruct (Grammars.isLanguageSupported _ _) eqn:Hsup; simpl.
  2: { eexists _, d. split; [reflexivity |]. split; [done |].
       intros f _ _ (f' & st' & _ & _ & _ & _ & Hsup' & _). congruence. }
  unfold bind, when.
  destruct (nonEmpty _ || negb _) eqn:Hres.
  - destruct (storeExtractionResult_ok p content (Grammars.detectLanguage p) stats
                (Extract.extractFromSource (host env) p content
                   (Some (Grammars.detectLanguage p))) d i)
      as (d' & Hrun & Hu & Hothers).
    rewrite Hrun. eexists _, d'. split; [reflexivity |]. split; [exact Hothers |].
    intros. exact Hu.
  - eexists _, d. split; [reflexivity |]. split; [done |].
    intros f _ _ (f' & st' & _ & _ & _ & _ & _ & Hres'). congruence.
Qed.

Lemma indexFile_ok (p : string) (d : Store.Db) (i : list IoEvent) :
  exists res d' i',
    indexFile env rootDir config p (mkWorld d i None) = (Ok res, mkWorld d' i' None)
    /\ (forall q, q <> p -> Store.t_files d' !! q = Store.t_files d !! q)
    /\ (forall content, storable env rootDir config p content -> unchanged p content d').
Proof.
  unfold indexFile.
  destruct (Path.validatePathWithinRoot (cwd env) rootDir p) as [full |] eqn:Hv.
  2: { eexists _, d, i. split; [reflexivity |]. split; [done |].
       intros c (f' & st' & Hf' & _). congruence. }
  unfold bind, try_catch, fsStat, fsReadFile, bind, trace, modify, of_sum, throw, ret. simpl.
  destruct (stat env full) as [err | stats] eqn:Hst.
  { eexists _, d, _. split; [reflexivity |]. split; [done |].
    intros c (f' & st' & Hf' & Hst' & _). congruence. }
  destruct (readFile env full) as [err | content] eqn:Hrd.
  { eexists _, d, _. split; [reflexivity |]. split; [done |].
    intros c (f' & st' & Hf' & _ & Hrd' & _). congruence. }
  destruct (indexFileWithContent_ok p content stats d
              ((i ++ [IoStat full]) ++ [IoRead full])%list)
    as (res & d' & Hrun & Hothers & Hst').
  cbn [db io fault]. rewrite Hrun. eexists res, d', _. split; [reflexivity |]. split; [exact Hothers |].
  intros c Hc. assert (c = content) as ->.
  { destruct Hc as (f' & st' & Hf' & _ & Hrd' & _). congruence. }
  by apply (Hst' full).
Qed.

Lemma indexChanged_ok (l : list string) :
  forall n d i,
    exists n' d' i',
      indexChanged env rootDir config l n (mkWorld d i None)
      = (Ok n', mkWorld d' i' None)
      /\ (forall q, q ∉ l -> Store.t_files d' !! q = Store.t_files d !! q)
      /\ (forall q content,
            q ∈ l -> storable env rootDir config q content -> unchanged q content d').
Proof.
  induction l as [| p l IH]; intros n d i; simpl.
  - eexists n, d, i. split; [reflexivity |]. split; [done |].
    intros q c Hq. by apply elem_of_nil in Hq.
  - destruct (indexFile_ok p d i) as (res & d1 & i1 & Hrun & Hothers & Hst).
    destruct (IH (n + length (nodes res)) d1 i1) as (n' & d' & i' & Hrest & Hout & Hin).
    unfold bind. rewrite Hrun, Hrest. eexists n', d', i'. split; [reflexivity |].
    split.
    + intros q Hq. apply not_elem_of_cons in Hq as [Hne Hq].
      by rewrite Hout, Hothers.
    + intros q c Hq Hc. destruct (decide (q ∈ l)) as [Hl | Hl]; [by apply Hin |].
      apply elem_of_cons in Hq as [-> | Hq]; [| done].
      apply (unchanged_lookup p c d1); [by apply Hout | by apply Hst].
Qed.

End SyncFacts.

Lemma elem_of_distinct_seen (l seen : list string) (x : string) :
  x ∈ Orchestrator.distinct seen l <-> x ∈ l /\ x ∉ seen.
Proof.
  revert seen. induction l as [| y l IH]; intros seen; simpl.
  - split; [intros H; by apply elem_of_nil in H | intros [H _]; by apply elem_of_nil in H].
  - case_bool_decide as Hy.
    + rewrite IH, elem_of_cons. split; [tauto |]. intros [[-> | H] Hs]; [done | tauto].
    + rewrite !elem_of_cons, IH, not_elem_of_cons.
      destruct (decide (x = y)) as [-> | Hne]; [tauto |]. tauto.
Qed.

Lemma elem_of_distinct (l : list string) (x : string) :
  x ∈ Orchestrator.distinct [] l <-> x ∈ l.
Proof.
  rewrite elem_of_distinct_seen. split; [tauto |]. intros H. split; [done |].
  apply not_elem_of_nil.
Qed.

Section SyncLoops.
Import Orchestrator.
Variable env : Env.
Variable rootDir : string.

Lemma checkFile_ok (look : string -> option Store.FileRecord)
    (lookup : string -> M World (option Store.FileRecord)) (d : Store.Db) :
  (forall q j, lookup q (mkWorld d j None) = (Ok (look q), mkWorld d j None)) ->
  forall p t i,
    exists t' i',
      checkFile env rootDir lookup p t (mkWorld d i None) = (Ok t', mkWorld d i' None)
      /\ filesToIndex t'
         = (filesToIndex t ++ if needsIndex env rootDir look p then [p] else [])%list.
Proof.
  intros Hlook p t i.
  unfold checkFile, needsIndex, bind, try_catch, fsReadFile, bind, trace, modify,
    of_sum, throw, ret. simpl.
  destruct (readFile env (Path.join [rootDir; p])) as [err | content].
  - eexists _, _. split; [reflexivity |]. by rewrite app_nil_r.
  - rewrite Hlook. destruct (look p) as [r |].
    + destruct (negb _); eexists _, _; (split; [reflexivity |]);
        [reflexivity | by rewrite app_nil_r].
    + eexists _, _. split; reflexivity.
Qed.

Lemma check_loop_ok (look : string -> option Store.FileRecord)
    (lookup : string -> M World (option Store.FileRecord)) (d : Store.Db) :
  (forall q j, lookup q (mkWorld d j None) = (Ok (look q), mkWorld d j None)) ->
  forall l t i,
    exists t' i',
      loop l (checkFile env rootDir lookup) t (mkWorld d i None)
      = (Ok t', mkWorld d i' None)
      /\ filesToIndex t'
         = (filesToIndex t ++ List.filter (needsIndex env rootDir look) l)%list.
Proof.
  intros Hlook. induction l as [| p l IH]; intros t i; simpl.
  - eexists t, i. split; [reflexivity |]. by rewrite app_nil_r.
  - destruct (checkFile_ok look lookup d Hlook p t i) as (t1 & i1 & Hrun & Ht1).
    destruct (IH t1 i1) as (t' & i' & Hrest & Ht').
    unfold bind. rewrite Hrun, Hrest. eexists t', i'. split; [reflexivity |].
    rewrite Ht', Ht1, <- app_assoc. f_equal.
    destruct (needsIndex env rootDir look p); reflexivity.
Qed.

Lemma removeIfTracked_ok (p : string) (t : Tally) (d : Store.Db) (i : list IoEvent) :
  exists t' d',
    removeIfTracked p t (mkWorld d i None) = (Ok t', mkWorld d' i None)
    /\ filesToIndex t' = filesToIndex t
    /\ (forall q, Store.t_files d' !! q
                  = if decide (q = p) then None else Store.t_files d !! q).
Proof.
  unfold removeIfTracked, bind, query, mutate, ret. cbn [db io fault].
  destruct (Store.getFileByPath p d) as [r |] eqn:Hr.
  - eexists _, _. split; [reflexivity |]. split; [reflexivity |].
    intros q. cbn [Store.deleteFile Store.t_files]. case_decide as Hq.
    + subst q. apply lookup_delete_eq.
    + by apply lookup_delete_ne.
  - eexists _, _. split; [reflexivity |]. split; [reflexivity |].
    intros q. case_decide as Hq; [by subst q | done].
Qed.

Lemma removeIfTracked_loop_ok (l : list string) :
  forall t d i,
    exists t' d',
      loop l removeIfTracked t (mkWorld d i None) = (Ok t', mkWorld d' i None)
      /\ filesToIndex t' = filesToIndex t
      /\ (forall q, Store.t_files d' !! q
                    = if decide (q ∈ l) then None else Store.t_files d !! q).
Proof.
  induction l as [| p l IH]; intros t d i; cbn [loop].
  - eexists t, d. split; [reflexivity |]. split; [reflexivity |].
    intros q. case_decide as Hq; [by apply elem_of_nil in Hq | done].
  - destruct (removeIfTracked_ok p t d i) as (t1 & d1 & Hstep & Ht1 & Hd1).
    destruct (IH t1 d1 i) as (t' & d' & Hrest & Ht & Hd).
    unfold bind. rewrite Hstep, Hrest. eexists t', d'. split; [reflexivity |].
    split; [congruence |].
    intros q. rewrite Hd, Hd1. repeat case_decide; try done; set_solver.
Qed.

Lemma removeIfGone_ok (current : list string) (r : Store.FileRecord) (t : Tally)
    (d : Store.Db) (i : list IoEvent) :
  exists t' d',
    removeIfGone current r t (mkWorld d i None) = (Ok t', mkWorld d' i None)
    /\ filesToIndex t' = filesToIndex t
    /\ (forall q, Store.t_files d' !! q
                  = if decide (q = Store.f_path r /\ q ∉ current)
                    then None else Store.t_files d !! q).
Proof.
  unfold removeIfGone, bind, mutate, ret. cbn [db io fault].
  case_bool_decide as Hcur; cbn [negb].
  - eexists _, _. split; [reflexivity |]. split; [reflexivity |].
    intros q. case_decide as Hq; [| done]. destruct Hq as [-> Hq]. done.
  - eexists _, _. split; [reflexivity |]. split; [reflexivity |].
    intros q. cbn [Store.deleteFile Store.t_files]. case_decide as Hq.
    + destruct Hq as [-> _]. apply lookup_delete_eq.
    + apply lookup_delete_ne. intros <-. apply Hq. done.
Qed.

Lemma removeIfGone_loop_ok (current : list string) (l : list Store.FileRecord) :
  forall t d i,
    exists t' d',
      loop l (removeIfGone current) t (mkWorld d i None) = (Ok t', mkWorld d' i None)
      /\ filesToIndex t' = filesToIndex t
      /\ (forall q, Store.t_files d' !! q
                    = if decide (q ∈ (Store.f_path <$> l) /\ q ∉ current)
                      then None else Store.t_files d !! q).
Proof.
  induction l as [| r l IH]; intros t d i; cbn [loop].
  - eexists t, d. split; [reflexivity |]. split; [reflexivity |].
    intros q. case_decide as Hq; [| done]. destruct Hq as [Hq _].
    by apply elem_of_nil in Hq.
  - destruct (removeIfGone_ok current r t d i) as (t1 & d1 & Hstep & Ht1 & Hd1).
    destruct (IH t1 d1 i) as (t' & d' & Hrest & Ht & Hd).
    unfold bind. rewrite Hstep, Hrest. eexists t', d'. split; [reflexivity |].
    split; [congruence |].
    intros q. rewrite Hd, Hd1. rewrite fmap_cons.
    repeat case_decide; try done; set_solver.
Qed.

Lemma trackedMapOf_lookup (d : Store.Db) (p : string) :
  keyed d -> trackedMapOf (Store.getAllFiles d) !! p = Store.t_files d !! p.
Proof.
  intros Hk. unfold trackedMapOf, Store.getAllFiles.
  assert (Hgen : forall (l : list (string * Store.FileRecord))
                        (m0 : gmap string Store.FileRecord),
             NoDup l.*1 -> Forall (fun kv => Store.f_path kv.2 = kv.1) l ->
             fold_left (fun m f => <[Store.f_path f := f]> m) (snd <$> l) m0 !! p
             = match list_find (fun kv => kv.1 = p) l with
               | Some (_, kv) => Some kv.2
               | None => m0 !! p
               end).
  { induction l as [| [k r] l IH]; intros m0 Hnd Hf; simpl; [reflexivity |].
    inversion Hnd as [| ? ? Hk1 Hnd']; subst. inversion Hf as [| ? ? Hr Hf']; subst.
    simpl in *. subst k. rewrite IH by done.
    destruct (decide (Store.f_path r = p)) as [<- | Hne].
    - destruct (list_find _ l) as [[j kv] |] eqn:Hfind; simpl.
      + apply list_find_Some in Hfind as (Hl & Hkv & _).
        destruct Hk1. apply list_elem_of_fmap. exists kv. split; [done |].
        by apply list_elem_of_lookup_2 in Hl.
      + apply lookup_insert_eq.
    - destruct (list_find _ l) as [[j kv] |]; simpl; [reflexivity |].
      by apply lookup_insert_ne. }
  rewrite Hgen.
  - destruct (list_find _ _) as [[j [k r]] |] eqn:Hfind; simpl.
    + apply list_find_Some in Hfind as (Hl & Hkv & _). simpl in Hkv. subst k.
      apply list_elem_of_lookup_2, elem_of_map_to_list in Hl. by rewrite Hl.
    + rewrite lookup_empty. symmetry. apply eq_None_not_Some. intros [r Hr].
      apply list_find_None in Hfind. rewrite Forall_forall in Hfind.
      apply (Hfind (p, r)); [by apply elem_of_map_to_list | reflexivity].
  - apply NoDup_fst_map_to_list.
  - apply Forall_forall. intros [k r] Hin. apply elem_of_map_to_list in Hin. by apply Hk.
Qed.

Lemma getAllFiles_paths (d : Store.Db) (q : string) :
  keyed d -> q ∈ (Store.f_path <$> Store.getAllFiles d) <-> is_Some (Store.t_files d !! q).
Proof.
  intros Hk. unfold Store.getAllFiles. split.
  - intros Hin. apply list_elem_of_fmap in Hin as (r & -> & Hr).
    apply list_elem_of_fmap in Hr as ([k r'] & -> & Hkr).
    apply elem_of_map_to_list in Hkr. simpl. rewrite (Hk _ _ Hkr). by eexists.
  - intros [r Hr]. apply list_elem_of_fmap. exists r. split; [by rewrite (Hk _ _ Hr) |].
    apply list_elem_of_fmap. exists (q, r). split; [done | by apply elem_of_map_to_list].
Qed.

End SyncLoops.

Section SyncTheorem.
Import Orchestrator.
Variable env : Env.
Variable rootDir : string.
Variable config : CodeGraphConfig.

Lemma added_loop_ok (l : list string) :
  forall t (w : World),
    exists t',
      loop l (fun filePath t => ret (tallyAdded filePath t)) t w = (Ok t', w)
      /\ filesToIndex t' = (filesToIndex t ++ l)%list.
Proof.
  induction l as [| p l IH]; intros t w; cbn [loop].
  - exists t. split; [reflexivity | by rewrite app_nil_r].
  - destruct (IH (tallyAdded p t) w) as (t' & Hrest & Ht').
    unfold bind, ret at 1. rewrite Hrest. exists t'. split; [reflexivity |].
    rewrite Ht'. cbn [tallyAdded filesToIndex]. by rewrite <- app_assoc.
Qed.

Lemma syncGit_ok (g : GitChanges) (d : Store.Db) (i : list IoEvent) :
  exists t d1 i1,
    syncGit env rootDir g (mkWorld d i None) = (Ok t, mkWorld d1 i1 None)
    /\ (forall q, Store.t_files d1 !! q
                  = if decide (q ∈ deleted g) then None else Store.t_files d !! q)
    /\ filesToIndex t
       = (List.filter (needsIndex env rootDir (fun p => Store.t_files d1 !! p)) (modified g)
          ++ added g)%list.
Proof.
  unfold syncGit.
  destruct (removeIfTracked_loop_ok (deleted g) (mkTally [] [] 0 0 0) d i)
    as (t1 & d1 & Hdel & Ht1 & Hd1).
  destruct (check_loop_ok env rootDir (fun p => Store.t_files d1 !! p)
              (fun p => query (Store.getFileByPath p)) d1 (fun q j => eq_refl)
              (modified g) t1 i)
    as (t2 & i2 & Hmod & Ht2).
  destruct (added_loop_ok (added g) t2 (mkWorld d1 i2 None)) as (t3 & Hadd & Ht3).
  unfold bind. rewrite Hdel, Hmod, Hadd. exists t3, d1, i2.
  split; [reflexivity |]. split; [exact Hd1 |].
  rewrite Ht3, Ht2, Ht1. reflexivity.
Qed.

Lemma syncScan_ok (d : Store.Db) (i : list IoEvent) :
  exists t d1 i1,
    syncScan env rootDir (mkWorld d i None) = (Ok t, mkWorld d1 i1 None)
    /\ (keyed d ->
        forall q, Store.t_files d1 !! q
                  = if decide (q ∈ scanned env) then Store.t_files d !! q else None)
    /\ filesToIndex t
       = List.filter (needsIndex env rootDir
                        (fun p => trackedMapOf (Store.getAllFiles d) !! p))
                     (Orchestrator.distinct [] (scanned env)).
Proof.
  unfold syncScan, bind at 1, query. cbn [db].
  destruct (removeIfGone_loop_ok (Orchestrator.distinct [] (scanned env)) (Store.getAllFiles d)
              (mkTally [] [] 0 0 0) d i)
    as (t1 & d1 & Hdel & Ht1 & Hd1).
  destruct (check_loop_ok env rootDir
              (fun p => trackedMapOf (Store.getAllFiles d) !! p)
              (fun p => ret (trackedMapOf (Store.getAllFiles d) !! p)) d1
              (fun q j => eq_refl) (Orchestrator.distinct [] (scanned env)) t1 i)
    as (t2 & i2 & Hchk & Ht2).
  unfold bind. rewrite Hdel, Hchk. exists t2, d1, i2.
  split; [reflexivity |]. split; [| by rewrite Ht2, Ht1].
  intros Hk q. rewrite Hd1.
  destruct (decide (q ∈ scanned env)) as [Hs | Hs].
  - rewrite decide_False; [done |]. intros [_ Hn]. apply Hn. by apply elem_of_distinct.
  - destruct (Store.t_files d !! q) as [r |] eqn:Hq.
    + rewrite decide_True; [done |]. split.
      * apply getAllFiles_paths; [done | by eexists].
      * by rewrite elem_of_distinct.
    + by case_decide.
Qed.

Lemma needsIndex_false (look : string -> option Store.FileRecord) (p content : string) :
  needsIndex env rootDir look p = false ->
  readFile env (Path.join [rootDir; p]) = inr content ->
  exists r, look p = Some r /\ Store.f_contentHash r = hashContent content.
Proof.
  unfold needsIndex. intros H Hread. rewrite Hread in H.
  destruct (look p) as [r |]; [| discriminate].
  exists r. split; [reflexivity |]. apply negb_false_iff in H. by apply String.eqb_eq.
Qed.

Lemma filter_elem (f : string -> bool) (l : list string) (p : string) :
  p ∈ List.filter f l <-> p ∈ l /\ f p = true.
Proof. rewrite !list_elem_of_In. apply filter_In. Qed.

(** C2, as the code has it. A sync over a store that does not fail
    returns.  After the full scan every file record belongs to a scanned
    path, and every scanned file that can be read and stored has a record
    with the hash of its content.  After the fast path this holds of the
    paths that git status reports: the records of the deleted ones are
    gone, the modified and added ones that can be read and stored have a
    record with the hash of their content; every other record is left as it
    was. *)
Theorem sync_reconciles_what_it_inspects (w : World) :
  fault w = None ->
  exists res w',
    sync env rootDir config w = (Ok res, w')
    /\ match getGitChangedFiles env config with
       | None =>
           keyed (db w) ->
           (forall p, is_Some (Store.t_files (db w') !! p) -> p ∈ scanned env)
           /\ (forall p content,
                 p ∈ scanned env ->
                 readFile env (Path.join [rootDir; p]) = inr content ->
                 storable env rootDir config p content ->
                 unchanged p content (db w'))
       | Some g =>
           (forall p, p ∈ deleted g -> p ∉ modified g -> p ∉ added g ->
                      Store.t_files (db w') !! p = None)
           /\ (forall p content,
                 p ∈ modified g \/ p ∈ added g ->
                 readFile env (Path.join [rootDir; p]) = inr content ->
                 storable env rootDir config p content ->
                 unchanged p content (db w'))
           /\ (forall p, p ∉ deleted g -> p ∉ modified g -> p ∉ added g ->
                         Store.t_files (db w') !! p = Store.t_files (db w) !! p)
       end.
Proof.
  destruct w as [d i f]. cbn [fault db]. intros ->. unfold sync.
  destruct (getGitChangedFiles env config) as [g |].
  - destruct (syncGit_ok g d i) as (t & d1 & i1 & Hrun & Hd1 & Ht).
    destruct (indexChanged_ok env rootDir config (filesToIndex t) 0 d1 i1)
      as (n' & d' & i' & Hidx & Hout & Hin).
    unfold bind. rewrite Hrun. unfold ret at 1. rewrite Hidx.
    eexists _, _. split; [reflexivity |]. cbn [db].
    assert (HL : forall p, p ∈ filesToIndex t <->
                   (p ∈ modified g
                    /\ needsIndex env rootDir (fun p => Store.t_files d1 !! p) p = true)
                   \/ p ∈ added g).
    { intros p. rewrite Ht, elem_of_app, filter_elem. done. }
    split; [| split].
    + intros p Hdel Hm Ha. rewrite Hout by (rewrite HL; tauto).
      rewrite Hd1. by rewrite decide_True.
    + intros p content Hp Hread Hst.
      destruct (decide (p ∈ filesToIndex t)) as [HinL | HoutL]; [by apply Hin |].
      rewrite HL in HoutL.
      destruct Hp as [Hm | Ha]; [| tauto].
      destruct (needsIndex env rootDir (fun p => Store.t_files d1 !! p) p) eqn:Hneed;
        [tauto |].
      destruct (needsIndex_false _ p content Hneed Hread) as (r & Hr & Hh).
      exists r. split; [| exact Hh]. unfold Store.getFileByPath.
      rewrite Hout; [exact Hr |]. rewrite HL, Hneed. intros [[_ ?] | ?]; [done | tauto].
    + intros p Hdel Hm Ha. rewrite Hout by (rewrite HL; tauto).
      rewrite Hd1. by rewrite decide_False.
  - destruct (syncScan_ok d i) as (t & d1 & i1 & Hrun & Hd1 & Ht).
    destruct (indexChanged_ok env rootDir config (filesToIndex t) 0 d1 i1)
      as (n' & d' & i' & Hidx & Hout & Hin).
    unfold bind. rewrite Hrun. unfold ret at 1. rewrite Hidx.
    eexists _, _. split; [reflexivity |]. cbn [db]. intros Hk.
    specialize (Hd1 Hk).
    assert (HL : forall p, p ∈ filesToIndex t <->
                   p ∈ scanned env
                   /\ needsIndex env rootDir (fun p => Store.t_files d !! p) p = true).
    { intros p. rewrite Ht, filter_elem, elem_of_distinct.
      unfold needsIndex. by rewrite trackedMapOf_lookup. }
    split.
    + intros p Hp. destruct (decide (p ∈ filesToIndex t)) as [HinL | HoutL].
      * by apply HL in HinL as [? _].
      * rewrite Hout, Hd1 in Hp by done. case_decide; [done | by destruct Hp].
    + intros p content Hp Hread Hst.
      destruct (decide (p ∈ filesToIndex t)) as [HinL | HoutL]; [by apply Hin |].
      rewrite HL in HoutL.
      destruct (needsIndex env rootDir (fun p => Store.t_files d !! p) p) eqn:Hneed;
        [tauto |].
      destruct (needsIndex_false _ p content Hneed Hread) as (r & Hr & Hh).
      exists r. split; [| exact Hh]. unfold Store.getFileByPath.
      rewrite Hout, Hd1; [by rewrite decide_True | rewrite HL, Hneed; by intros [_ ?]].
Qed.

End SyncTheorem.

(** C2 fails on the code: git status reports nothing, the store has no
    record of src/a.ts, which is on disk and can be indexed, and it has a
    record of gone.ts, which is not on disk.  After sync both are as
    before. *)
Lemma sync_fast_path_leaves_unreported_files :
  "src/a.ts" ∈ Orchestrator.scanned clean_git_env
  /\ storable clean_git_env "/proj" plain_config "src/a.ts" ts_static_block_source
  /\ Orchestrator.readFile clean_git_env "/proj/gone.ts" = inl (Error "ENOENT")
  /\ exists res w',
       Orchestrator.sync clean_git_env "/proj" plain_config gone_world = (Ok res, w')
       /\ Store.getFileByPath "src/a.ts" (Orchestrator.db w') = None
       /\ is_Some (Store.getFileByPath "gone.ts" (Orchestrator.db w')).
Proof.
  split; [by left |]. split.
  { exists "/proj/src/a.ts", (Orchestrator.mkStats 62 0).
    repeat split; try reflexivity. simpl. lia. }
  split; [reflexivity |].
  eexists _, _. split; [vm_compute; reflexivity |].
  split; [reflexivity |]. vm_compute. by eexists.
Qed.

Lemma sync_reconciles_what_it_inspects_witness :
  exists res w',
    Orchestrator.sync no_git_env "/proj" plain_config gone_world = (Ok res, w')
    /\ (forall p, is_Some (Store.t_files (Orchestrator.db w') !! p) ->
                  p ∈ Orchestrator.scanned no_git_env)
    /\ unchanged "src/a.ts" ts_static_block_source (Orchestrator.db w').
Proof.
  destruct (sync_reconciles_what_it_inspects no_git_env "/proj" plain_config
              gone_world eq_refl) as (res & w' & Hrun & Hafter).
  exists res, w'. split; [exact Hrun |].
  change (Orchestrator.getGitChangedFiles no_git_env plain_config) with
    (@None Orchestrator.GitChanges) in Hafter.
  destruct Hafter as [Hrecords Hfiles].
  - intros p r Hp. unfold gone_world, gone_store in Hp. simpl in Hp.
    apply lookup_insert_Some in Hp as [[<- <-] | [_ Hp]]; [reflexivity |].
    by rewrite lookup_empty in Hp.
  - split; [exact Hrecords |]. apply Hfiles.
    + by left.
    + reflexivity.
    + exists "/proj/src/a.ts", (Orchestrator.mkStats 62 0).
      repeat split; try reflexivity. simpl. lia.
Defined.

Example sync_full_scan_run :
  exists res w',
    Orchestrator.sync no_git_env "/proj" plain_config gone_world = (Ok res, w')
    /\ (Orchestrator.filesAdded res, Orchestrator.filesModified res,
        Orchestrator.filesRemoved res, Orchestrator.nodesUpdated res) = (1, 0, 1, 3)
    /\ Store.getFileByPath "gone.ts" (Orchestrator.db w') = None
    /\ Store.f_contentHash <$> Store.getFileByPath "src/a.ts" (Orchestrator.db w')
       = Some (Orchestrator.hashContent ts_static_block_source).
Proof.
  eexists _, _. split; [vm_compute; reflexivity |].
  split; [reflexivity |]. split; reflexivity.
Qed.

Example git_status_parsing :
  Orchestrator.getGitChangedFiles
    (plain_env (fun _ => inl (Error "ENOENT"))
       (Some " M src/a.ts
?? src/new.ts
 D src/old.ts
AM src/b.ts
") [] no_parse_host) plain_config
  = Some (Orchestrator.mkGitChanges ["src/a.ts"; "src/b.ts"] ["src/new.ts"] ["src/old.ts"]).
Proof. vm_compute. reflexivity. Qed.

(** indexing a Liquid template fails the run: the error entry of the
    extraction is handed on, and nothing is stored *)
Example liquid_template_fails_the_run :
  Orchestrator.indexFiles liquid_env "/shop" plain_config ["sections/header.liquid"]
    fresh_world
  = (Ok (Orchestrator.mkIndexResult false 0 1 0 0
           [mkError "Failed to get parser for language: liquid" SevError]),
     Orchestrator.mkWorld Store.empty
       [Orchestrator.IoStat "/shop/sections/header.liquid";
        Orchestrator.IoRead "/shop/sections/header.liquid"] None).
Proof. vm_compute. reflexivity. Qed.

(** ** Decimal numerals, written and read back *)

Section NumeralFacts.

Lemma pretty_N_char_digit (x : N) : is_Some (Js.digit_of (pretty_N_char x)).
Proof.
  unfold pretty_N_char. repeat case_match; by eexists.
Qed.

Lemma digit_code (c : ascii) :
  is_Some (Js.digit_of c) -> (48 <= nat_of_ascii c <= 57)%nat.
Proof.
  unfold Js.digit_of. intros [d H].
  destruct (48 <=? nat_of_ascii c)%nat eqn:E1; [| done].
  destruct (nat_of_ascii c <=? 57)%nat eqn:E2; [| done].
  apply Nat.leb_le in E1, E2. lia.
Qed.

Lemma append_snoc (d : string) (c : ascii) (s : string) :
  d ++ String c s = (d ++ String c EmptyString) ++ s.
Proof.
  apply chars_inj. rewrite !chars_app. unfold chars. simpl.
  by rewrite <- app_assoc.
Qed.

Lemma append_empty_r (d : string) : d ++ EmptyString = d.
Proof. apply chars_inj. rewrite chars_app. unfold chars. simpl. by rewrite app_nil_r. Qed.

(** the numeral of [x] is put in front of [s], digit by digit *)
Lemma pretty_N_go_digits (x : N) (s : string) :
  exists d, pretty_N_go x s = d ++ s
            /\ Forall (fun c => is_Some (Js.digit_of c)) (chars d)
            /\ ((0 < x)%N -> d <> EmptyString).
Proof.
  revert s. induction (N.lt_wf_0 x) as [x _ IH]. intros s.
  destruct (decide (x = 0%N)) as [-> | Hx].
  - exists EmptyString. rewrite pretty_N_go_0. split; [done |]. split; [constructor | lia].
  - rewrite pretty_N_go_step by lia.
    destruct (IH (x `div` 10)%N) with (s := String (pretty_N_char (x `mod` 10)) s)
      as (d & Hd & Hall & _).
    { apply N.div_lt; lia. }
    exists (d ++ String (pretty_N_char (x `mod` 10)) EmptyString).
    rewrite Hd. split; [apply append_snoc |]. split.
    + rewrite chars_app. apply Forall_app. split; [exact Hall |].
      constructor; [apply pretty_N_char_digit | constructor].
    + intros _ H. apply (f_equal chars) in H. rewrite chars_app in H.
      by destruct (chars d).
Qed.

(** a string that neither starts nor ends with a byte that starts or ends
    the encoding of a white-space character is not trimmed *)
Lemma stripOne_first_byte (table : list (list nat)) (c : ascii) (l : list ascii) :
  Forall (fun p => match p with [] => False | b :: _ => b <> nat_of_ascii c end) table ->
  Js.stripOne table (c :: l) = None.
Proof.
  induction table as [| p table IH]; [done |]. intros H.
  inversion H as [| ? ? Hp Hrest]; subst. cbn [Js.stripOne].
  destruct p as [| b p]; [done |]. cbn [Js.stripBytes].
  destruct (Nat.eqb_spec (nat_of_ascii c) b) as [Heq | _]; [by destruct Hp | by apply IH].
Qed.

Lemma numeral_byte_is_no_white_space (c : ascii) (l : list ascii) :
  (45 <= nat_of_ascii c <= 57)%nat ->
  Js.stripOne Js.whiteSpace (c :: l) = None
  /\ Js.stripOne (map (@rev nat) Js.whiteSpace) (c :: l) = None.
Proof.
  intros Hc. split; apply stripOne_first_byte; unfold Js.whiteSpace;
    cbn [map rev app]; repeat constructor; lia.
Qed.

Lemma trim_numeral (s : string) (c c' : ascii) (l l' : list ascii) :
  chars s = c :: l -> rev (chars s) = c' :: l' ->
  (45 <= nat_of_ascii c <= 57)%nat -> (45 <= nat_of_ascii c' <= 57)%nat ->
  Js.trimStart s = s /\ Js.trim s = s.
Proof.
  intros Hs Hr Hc Hc'.
  assert (Js.trimStart s = s) as Hstart.
  { unfold Js.trimStart. fold (chars s). rewrite Hs. cbn [length Js.stripAll].
    rewrite (proj1 (numeral_byte_is_no_white_space c l Hc)).
    rewrite <- Hs. apply String.string_of_list_ascii_of_string. }
  split; [exact Hstart |].
  unfold Js.trim. rewrite Hstart. unfold Js.trimEnd. fold (chars s). rewrite Hr.
  cbn [length Js.stripAll].
  rewrite (proj2 (numeral_byte_is_no_white_space c' l' Hc')).
  rewrite <- Hr, rev_involutive. apply String.string_of_list_ascii_of_string.
Qed.

(** the numeral of a positive number starts and ends with a digit *)
Lemma numeral_ends (x : N) :
  (0 < x)%N ->
  exists c l c' l',
    chars (pretty_N_go x EmptyString) = c :: l
    /\ rev (chars (pretty_N_go x EmptyString)) = c' :: l'
    /\ is_Some (Js.digit_of c) /\ is_Some (Js.digit_of c').
Proof.
  intros Hx.
  destruct (pretty_N_go_digits x EmptyString) as (d & Hd & Hall & Hne).
  rewrite append_empty_r in Hd. rewrite Hd.
  assert (chars d <> []) as Hnil.
  { intros H. apply Hne; [done |]. apply chars_inj. by rewrite H. }
  destruct (chars d) as [| c l] eqn:E; [done |].
  assert (rev (c :: l) <> []) as Hrev.
  { intros H. apply (f_equal (@rev ascii)) in H. by rewrite rev_involutive in H. }
  destruct (rev (c :: l)) as [| c' l'] eqn:E'; [done |].
  exists c, l, c', l'. split; [done |]. split; [done |].
  inversion Hall; subst. split; [done |].
  apply Forall_rev in Hall. rewrite E' in Hall. by inversion Hall.
Qed.

(** a pid is written and read back: [parseInt(String(z).trim(), 10)] is
    [z], for an integer that is a Number *)
Lemma parseInt_pretty (z : Z) :
  (Z.abs z < 2 ^ 53)%Z -> Js.parseInt (Js.trim (pretty z)) = Js.Finite z.
Proof.
  intros Hz.
  assert (forall v : Z, (Z.abs v < 2 ^ 53)%Z -> Js.toNumber v = Js.Finite v) as Hnum.
  { intros v Hv. unfold Js.toNumber.
    destruct (Z.ltb_spec (Z.abs v) (2 ^ 53)); [done | lia]. }
  destruct z as [| p | p]; [reflexivity | |].
  - unfold pretty, pretty_Z, pretty, pretty_positive, pretty, pretty_N.
    destruct (decide (N.pos p = 0%N)); [lia |].
    destruct (numeral_ends (N.pos p)) as (c & l & c' & l' & Hs & Hr & Hc & Hc'); [lia |].
    apply digit_code in Hc as Hcode. apply digit_code in Hc' as Hcode'.
    destruct (trim_numeral _ c c' l l' Hs Hr) as [Hstart Htrim]; [lia | lia |].
    rewrite Htrim. unfold Js.parseInt. rewrite Hstart.
    pose proof (digits_pretty_N_go (N.pos p) EmptyString) as Hdig.
    destruct (decide (N.pos p = 0%N)); [lia |]. cbn [Js.digits] in Hdig.
    destruct (pretty_N_go (N.pos p) EmptyString) as [| a rest] eqn:E; [done |].
    injection Hs as -> _.
    assert (Js.digits None (String c rest) = Some (Z.pos p)) as Hd by exact Hdig.
    destruct Hc as [v Hv].
    destruct c as [[] [] [] [] [] [] [] []]; try done;
      rewrite Hd; by apply Hnum.
  - unfold pretty, pretty_Z, pretty, pretty_positive, pretty, pretty_N.
    destruct (decide (N.pos p = 0%N)); [lia |].
    destruct (numeral_ends (N.pos p)) as (c & l & c' & l' & Hs & Hr & Hc & Hc'); [lia |].
    apply digit_code in Hc' as Hcode'.
    pose proof (digits_pretty_N_go (N.pos p) EmptyString) as Hdig.
    destruct (decide (N.pos p = 0%N)); [lia |]. cbn [Js.digits] in Hdig.
    set (num := pretty_N_go (N.pos p) EmptyString) in *.
    assert (chars ("-" +:+ num) = "-"%char :: chars num) as Hs' by reflexivity.
    assert (rev (chars ("-" +:+ num)) = c' :: (l' ++ ["-"%char])%list) as Hr'.
    { rewrite Hs'. cbn [rev]. by rewrite Hr. }
    destruct (trim_numeral _ _ _ _ _ Hs' Hr') as [Hstart Htrim];
      [vm_compute; lia | lia |].
    rewrite Htrim. unfold Js.parseInt. rewrite Hstart.
    change ("-" +:+ num) with (String "-" num). cbv beta iota.
    rewrite Hdig. apply Hnum. lia.
Qed.

End NumeralFacts.

(** ** Taking the lock *)

Section AcquireFacts.
Import Lock.

Ltac lock_step := cbv beta iota zeta; cbn [fs files dirWritable lockPath held].

Lemma locked_message_is_recognised (rest : string) :
  Js.includes ("CodeGraph database is locked by another process (PID " ++ rest)
              "locked by another" = true.
Proof. reflexivity. Qed.

Lemma alive_is_a_number (proc : Proc) (n : Js.Num) :
  isProcessAlive proc n = true -> Js.isNaN n = false.
Proof. by destruct n. Qed.

Lemma acquire_blocked (proc : Proc) (w : World) (f : File) :
  files (fs w) !! lockPath w = Some f ->
  readable f = true ->
  isProcessAlive proc (Js.parseInt (Js.trim (content f))) = true ->
  acquire proc w
  = (Throw (Error ("CodeGraph database is locked by another process (PID "
                   ++ showNumber (Js.parseInt (Js.trim (content f))) ++ "). "
                   ++ "If this is stale, delete " ++ lockPath w)),
     w).
Proof.
  intros Hf Hr Hlive.
  cbv [acquire bind get existsSync try_catch readFileSync ret throw].
  rewrite Hf. rewrite bool_decide_eq_true_2 by eauto. cbv beta iota zeta.
  rewrite Hf. cbv beta iota. rewrite Hr. cbv beta iota zeta.
  rewrite Hlive, (alive_is_a_number _ _ Hlive). cbn [negb andb]. cbv beta iota.
  cbn [message Error].
  rewrite locked_message_is_recognised. reflexivity.
Qed.

Lemma acquire_available (proc : Proc) (w : World) :
  lockAvailable proc w = true -> acquire proc w = (Ok tt, lockedBy proc w).
Proof.
  destruct w as [lp h [fl dw]]. unfold lockAvailable, lockedBy.
  cbn [fs files dirWritable lockPath].
  intros H. apply andb_true_iff in H as [-> H].
  cbv [acquire bind get existsSync try_catch readFileSync unlinkSync
    writeFileSync_wx set_fs set_held modify ret throw].
  lock_step.
  assert (delete lp fl !! lp = None) as Hdel by apply lookup_delete_eq.
  destruct (fl !! lp) as [f |] eqn:Hf.
  - rewrite bool_decide_eq_true_2 by eauto. lock_step. rewrite Hf. lock_step.
    apply andb_true_iff in H as [Hr H]. rewrite Hr. lock_step.
    apply negb_true_iff in H. rewrite H, andb_false_r. lock_step.
    rewrite Hf. lock_step. rewrite Hdel. lock_step.
    by rewrite insert_delete_eq.
  - rewrite bool_decide_eq_false_2 by (intros [? ?]; done). lock_step.
    rewrite Hf. reflexivity.
Qed.

Lemma lockedBy_owns (proc : Proc) (w : World) :
  (Z.abs (pid proc) < 2 ^ 53)%Z -> ownsFile proc (lockedBy proc w) = true.
Proof.
  intros Hpid. unfold ownsFile, lockedBy. cbn [fs files lockPath].
  rewrite lookup_insert_eq. cbn [readable content].
  rewrite parseInt_pretty by done. by rewrite bool_decide_eq_true_2.
Qed.


(** X2. Taking a lock that is free or stale and releasing it returns: the
    instance no longer holds the lock and the lock file is gone, a stale
    one included; when there was no lock file, the file system is exactly
    as it was. *)
Theorem acquire_release_round_trip (proc : Proc) (w : World) :
  (Z.abs (pid proc) < 2 ^ 53)%Z ->
  lockAvailable proc w = true ->
  (acquire proc ;; release proc) w
  = (Ok tt, mkWorld (lockPath w) false
              (mkFs (delete (lockPath w) (files (fs w))) (dirWritable (fs w))))
  /\ (files (fs w) !! lockPath w = None -> held w = false ->
      (acquire proc ;; release proc) w = (Ok tt, w)).
Proof.
  intros Hpid Hav.
  assert ((acquire proc ;; release proc) w
          = (Ok tt, mkWorld (lockPath w) false
                      (mkFs (delete (lockPath w) (files (fs w))) (dirWritable (fs w)))))
    as Hrun.
  { unfold bind at 1. rewrite (acquire_available proc w Hav).
    rewrite release_closed_form. rewrite lockedBy_owns by done.
    unfold lockAvailable in Hav. apply andb_true_iff in Hav as [Hdw _].
    unfold lockedBy. cbn [fs files dirWritable lockPath held]. rewrite Hdw.
    cbn [andb]. by rewrite delete_insert_eq. }
  split; [exact Hrun |].
  intros Hnone Hheld. rewrite Hrun. rewrite delete_id by done.
  destruct w as [lp h [fl dw]]. cbn in *. by subst.
Qed.

(** X3. [withLock] gives back what [fn] returned or threw, and the
    instance holds no lock afterwards; if [fn] left the lock file alone it
    is removed, and no other file is touched by the release. *)
Theorem withLock_always_releases {A} (proc : Proc) (fn : M World A)
    (w w1 w2 : World) (r : Res A) :
  acquire proc w = (Ok tt, w1) ->
  fn w1 = (r, w2) ->
  exists w3,
    withLock proc fn w = (r, w3)
    /\ held w3 = false
    /\ lockPath w3 = lockPath w2
    /\ (held w2 = true -> ownsFile proc w2 = true -> dirWritable (fs w2) = true ->
        files (fs w3) !! lockPath w2 = None)
    /\ (forall p, p <> lockPath w2 -> files (fs w3) !! p = files (fs w2) !! p).
Proof.
  intros Hacq Hfn. unfold withLock, bind. rewrite Hacq.
  unfold try_finally. rewrite Hfn. rewrite release_closed_form.
  eexists. split; [reflexivity |]. cbn [held lockPath fs].
  split; [done |]. split; [done |]. split.
  - intros -> -> ->. cbn [andb files]. apply lookup_delete_eq.
  - intros p Hp. destruct (held w2 && ownsFile proc w2 && dirWritable (fs w2)); [| done].
    cbn [files]. by rewrite lookup_delete_ne.
Qed.

(** X4. While the lock file is read and names a live process, [acquire]
    throws the error that names that process and [withLock] throws it
    without running [fn]; the file system and the held flag stay as they
    were.  The holder of the lock is such a process, so the lock is not
    re-entrant. *)
Theorem lock_excludes_live_owner (proc : Proc) (w : World) (f : File) :
  files (fs w) !! lockPath w = Some f ->
  readable f = true ->
  isProcessAlive proc (Js.parseInt (Js.trim (content f))) = true ->
  let locked :=
    Error ("CodeGraph database is locked by another process (PID "
           ++ showNumber (Js.parseInt (Js.trim (content f))) ++ "). "
           ++ "If this is stale, delete " ++ lockPath w) in
  acquire proc w = (Throw locked, w)
  /\ forall (A : Type) (fn : M World A), withLock proc fn w = (Throw locked, w).
Proof.
  intros Hf Hr Hlive locked.
  pose proof (acquire_blocked proc w f Hf Hr Hlive) as Hacq.
  split; [exact Hacq |].
  intros A fn. unfold withLock, bind. by rewrite Hacq.
Qed.

End AcquireFacts.


Lemma acquire_release_round_trip_witness :
  (Lock.acquire lock_proc ;; Lock.release lock_proc) lock_stale
  = (Ok tt, Lock.mkWorld "l" false
              (Lock.mkFs {[ "db" := Lock.mkFile "rows" true ]} true)).
Proof.
  refine (eq_trans (proj1 (acquire_release_round_trip lock_proc lock_stale _ _)) _).
  - vm_compute. reflexivity.
  - vm_compute. reflexivity.
  - vm_compute. reflexivity.
Defined.

Lemma withLock_always_releases_witness :
  exists w3,
    Lock.withLock lock_proc (throw (Error "disk full") : M Lock.World nat) lock_free
    = (Throw (Error "disk full"), w3)
    /\ Lock.held w3 = false
    /\ Lock.files (Lock.fs w3) !! Lock.lockPath lock_free = None.
Proof.
  destruct (withLock_always_releases lock_proc (throw (Error "disk full") : M Lock.World nat)
              lock_free (lockedBy lock_proc lock_free) (lockedBy lock_proc lock_free)
              (Throw (Error "disk full")))
    as (w3 & Hrun & Hheld & _ & Hgone & _).
  - vm_compute. reflexivity.
  - reflexivity.
  - exists w3. split; [exact Hrun |]. split; [exact Hheld |].
    apply Hgone; vm_compute; reflexivity.
Defined.

Lemma lock_excludes_live_owner_witness :
  Lock.acquire lock_holder (lockedBy lock_holder lock_free)
  = (Throw (Error ("CodeGraph database is locked by another process (PID 4242). "
                   ++ "If this is stale, delete /p/.codegraph/codegraph.lock")),
     lockedBy lock_holder lock_free).
Proof.
  refine (eq_trans
            (proj1 (lock_excludes_live_owner lock_holder (lockedBy lock_holder lock_free)
                      (Lock.mkFile "4242" true) _ _ _)) _).
  - vm_compute. reflexivity.
  - reflexivity.
  - vm_compute. reflexivity.
  - vm_compute. reflexivity.
Defined.

(** ** The registry: what is detected, what is supported *)

Section RegistryMore.
Import Grammars.

Lemma GRAMMAR_MAP_is_Some (loaded : Grammar -> bool) (l : Language) :
  is_Some (GRAMMAR_MAP loaded l)
  <-> exists e, In e grammarEntries /\ fst e = l /\ loaded (snd e) = true.
Proof.
  unfold GRAMMAR_MAP. split.
  - intros [g Hg].
    destruct (List.find _ grammarEntries) as [e |] eqn:Hfind; [| done].
    apply find_some in Hfind as [Hin Hf]. apply andb_true_iff in Hf as [Hl Hld].
    apply bool_decide_eq_true in Hl. eauto.
  - intros (e & Hin & Hl & Hld).
    destruct (List.find _ grammarEntries) as [e' |] eqn:Hfind; [by eexists |].
    pose proof (find_none _ _ Hfind e Hin) as Hno. cbv beta in Hno.
    rewrite Hld, bool_decide_eq_true_2 in Hno by done. done.
Qed.

Lemma NoDup_fmap_filter {A B} `{EqDecision B} (f : A -> B) (P : A -> bool) (l : list A) :
  NoDup (f <$> l) -> NoDup (f <$> List.filter P l).
Proof.
  induction l as [| a l IH]; [done |]. cbn [fmap list_fmap List.filter].
  intros Hnd. apply NoDup_cons in Hnd as [Hni Hnd].
  destruct (P a); [| by apply IH].
  cbn [fmap list_fmap]. apply NoDup_cons. split; [| by apply IH].
  intros Hin. apply Hni.
  apply list_elem_of_fmap in Hin as (x & -> & Hx).
  apply list_elem_of_In, filter_In in Hx as [Hx _].
  apply list_elem_of_fmap. exists x. split; [done | by apply list_elem_of_In].
Qed.

(** X5. The two views of the registry agree: a language is reported as
    supported exactly when it is listed among the supported languages,
    whichever grammars loaded on the host, and the list names no language
    twice. *)
Theorem supported_iff_listed (loaded : Grammar -> bool) :
  (forall l, isLanguageSupported loaded l = true <-> l ∈ getSupportedLanguages loaded)
  /\ NoDup (getSupportedLanguages loaded).
Proof.
  assert (forall l, l ∈ fst <$> List.filter (fun e => loaded (snd e)) grammarEntries
                    <-> is_Some (GRAMMAR_MAP loaded l)) as Hkeys.
  { intros l. rewrite GRAMMAR_MAP_is_Some, list_elem_of_fmap. split.
    - intros (e & -> & He). apply list_elem_of_In, filter_In in He as [Hin Hld]. eauto.
    - intros (e & Hin & <- & Hld). exists e. split; [done |].
      apply list_elem_of_In, filter_In. done. }
  assert (forall e, In e grammarEntries -> fst e <> LUnknown /\ fst e <> LLiquid) as Hnot.
  { apply List.Forall_forall. unfold grammarEntries. repeat constructor; done. }
  split.
  - intros l. unfold isLanguageSupported, getSupportedLanguages.
    rewrite elem_of_app, Hkeys, list_elem_of_singleton.
    case_bool_decide as Hliq; [by split; [right |] |].
    rewrite andb_true_iff, negb_true_iff, bool_decide_eq_false, bool_decide_eq_true.
    split; [intros [_ H]; by left |].
    intros [H | H]; [| done]. split; [| done].
    apply GRAMMAR_MAP_is_Some in H as (e & Hin & <- & _). by apply Hnot.
  - unfold getSupportedLanguages. apply NoDup_app. split; [| split].
    + apply NoDup_fmap_filter. apply (bool_decide_eq_true_1 _). vm_compute. reflexivity.
    + intros l Hl ->%list_elem_of_singleton.
      apply Hkeys, GRAMMAR_MAP_is_Some in Hl as (e & Hin & He & _).
      by apply Hnot in Hin as [_ ?].
    + apply NoDup_singleton.
Qed.

End RegistryMore.

Section DetectFacts.
Import Grammars.

Lemma toLowerChar_dot (c : ascii) :
  Ascii.eqb (Js.toLowerChar c) "." = Ascii.eqb c ".".
Proof. destruct c as [[] [] [] [] [] [] [] []]; reflexivity. Qed.

Lemma toLowerChar_idem (c : ascii) : Js.toLowerChar (Js.toLowerChar c) = Js.toLowerChar c.
Proof. destruct c as [[] [] [] [] [] [] [] []]; reflexivity. Qed.

Lemma toLowerCase_idem (s : string) : Js.toLowerCase (Js.toLowerCase s) = Js.toLowerCase s.
Proof.
  induction s as [| c s IH]; [done |]. cbn [Js.toLowerCase].
  by rewrite toLowerChar_idem, IH.
Qed.

Lemma fromLastDot_none (s : string) :
  "."%char ∉ chars s -> Js.fromLastDot s = None.
Proof.
  induction s as [| c s IH]; [done |]. unfold chars. cbn [String.list_ascii_of_string].
  intros H. apply not_elem_of_cons in H as [Hc Hs]. cbn [Js.fromLastDot].
  rewrite (IH Hs). destruct (Ascii.eqb_spec c "."); [congruence | done].
Qed.

Lemma fromLastDot_last (stem ext : string) :
  "."%char ∉ chars ext ->
  Js.fromLastDot (stem ++ String "." ext) = Some (String "." ext).
Proof.
  intros Hext. induction stem as [| c stem IH].
  - change (EmptyString ++ String "." ext) with (String "." ext).
    cbn [Js.fromLastDot]. by rewrite (fromLastDot_none ext Hext).
  - change (String c stem ++ String "." ext) with (String c (stem ++ String "." ext)).
    cbn [Js.fromLastDot]. by rewrite IH.
Qed.

Lemma toLowerCase_dotless (s : string) :
  "."%char ∉ chars s -> "."%char ∉ chars (Js.toLowerCase s).
Proof.
  induction s as [| c s IH]; [done |]. unfold chars.
  cbn [Js.toLowerCase String.list_ascii_of_string].
  intros H. apply not_elem_of_cons in H as [Hc Hs]. apply not_elem_of_cons. split.
  - intros Heq. pose proof (toLowerChar_dot c) as Hd. rewrite <- Heq in Hd.
    rewrite Ascii.eqb_refl in Hd. symmetry in Hd. apply Ascii.eqb_eq in Hd. congruence.
  - by apply IH.
Qed.

(** X6. The language of a file with an extension is decided by what
    follows the last dot of its path, letters compared without case: the
    path before the dot plays no part. *)
Theorem language_is_decided_by_extension (stem ext : string) :
  "."%char ∉ chars ext ->
  detectLanguage (stem ++ String "." ext)
  = detectLanguage (String "." (Js.toLowerCase ext)).
Proof.
  intros Hext. unfold detectLanguage.
  rewrite (fromLastDot_last stem ext Hext).
  change (String "." (Js.toLowerCase ext))
    with (EmptyString ++ String "." (Js.toLowerCase ext)).
  rewrite (fromLastDot_last EmptyString _ (toLowerCase_dotless ext Hext)).
  unfold default. cbn [from_option id Js.toLowerCase]. unfold id.
  by rewrite toLowerCase_idem.
Qed.

(** X7. Every extension of the table names a language that the registry
    supports once its grammar has loaded: a file with an extension is
    never detected as a language that the registry does not know. *)
Theorem detected_language_is_registered (stem ext : string) :
  detectLanguage (stem ++ String "." ext) <> LUnknown ->
  isLanguageSupported (fun _ => true) (detectLanguage (stem ++ String "." ext)) = true.
Proof.
  unfold detectLanguage.
  destruct (List.find _ EXTENSION_MAP) as [e |] eqn:Hfind; [| done].
  intros _. apply find_some in Hfind as [Hin _].
  revert Hin. generalize e. apply List.Forall_forall. unfold EXTENSION_MAP.
  repeat constructor.
Qed.

End DetectFacts.

Lemma language_is_decided_by_extension_witness :
  Grammars.detectLanguage "src/my.component/Main.Kt" = Grammars.detectLanguage ".kt".
Proof.
  apply (language_is_decided_by_extension "src/my.component/Main" "Kt").
  vm_compute. intros Hin.
  repeat (apply elem_of_cons in Hin as [Hin | Hin]; [discriminate Hin |]).
  by apply elem_of_nil in Hin.
Defined.

Lemma detected_language_is_registered_witness :
  Grammars.isLanguageSupported (fun _ => true) (Grammars.detectLanguage "lib/Main.KT") = true.
Proof.
  apply (detected_language_is_registered "lib/Main" "KT"). vm_compute. discriminate.
Defined.

(** ** The graph of one file is closed *)

Section ClosedFacts.
Import Extract.
Variable cfg : Config.
Variable e : LanguageExtractor.

Lemma closed_addRef (r : UnresolvedReference) (st : State) :
  closed st -> r_fromNodeId r ∈ idsOf st ->
  r_referenceKind r ∈ [ECalls; EImports; EExtends; EImplements] ->
  closed (addRef r st).
Proof.
  intros (He & Hr & Hs) Hfrom Hkind. unfold closed, idsOf, addRef in *. simpl.
  split; [exact He |]. split; [| exact Hs].
  apply Forall_app. split; [exact Hr |]. constructor; [by split | constructor].
Qed.

Lemma closed_top (st : State) (i : string) (rest : list string) :
  closed st -> nodeStack st = i :: rest -> i ∈ idsOf st.
Proof. intros (_ & _ & Hs) Heq. rewrite Heq in Hs. by inversion Hs. Qed.

Lemma closed_createNode (kind : NodeKind) (name : string) (n : SyntaxNode) (st : State) :
  closed st ->
  closed (snd (createNode cfg kind name n st))
  /\ n_id (fst (createNode cfg kind name n st)) ∈ idsOf (snd (createNode cfg kind name n st)).
Proof.
  intros Hc. pose proof Hc as (He & Hr & Hs).
  unfold closed, idsOf, createNode in *. cbn [fst snd st_nodes st_edges st_refs nodeStack].
  rewrite fmap_app. cbn [fmap list_fmap n_id].
  assert (forall i, i ∈ n_id <$> st_nodes st ->
                    i ∈ ((n_id <$> st_nodes st) ++
                        [generateNodeId (filePath cfg) kind name (row (startPosition n) + 1)])%list)
    as Hmono by (intros i Hi; apply elem_of_app; by left).
  assert (generateNodeId (filePath cfg) kind name (row (startPosition n) + 1)
          ∈ ((n_id <$> st_nodes st) ++
              [generateNodeId (filePath cfg) kind name (row (startPosition n) + 1)])%list)
    as Hnew by (apply elem_of_app; right; apply list_elem_of_here).
  split; [| exact Hnew]. split; [| split].
  - apply Forall_app. split.
    + eapply Forall_impl; [exact He |]. intros x (? & ? & ?). auto.
    + destruct (nodeStack st) as [| parentId rest] eqn:Hstack; [constructor |].
      destruct (String.eqb parentId EmptyString); [constructor |].
      constructor; [| constructor]. cbn [e_kind e_source e_target].
      split; [done |]. split; [| exact Hnew].
      apply Hmono. by inversion Hs.
  - eapply Forall_impl; [exact Hr |]. intros x [? ?]. auto.
  - eapply Forall_impl; [exact Hs |]. auto.
Qed.

Lemma closed_push (i : string) (st : State) :
  closed st -> i ∈ idsOf st -> closed (push i st).
Proof.
  intros (He & Hr & Hs) Hi. unfold closed, idsOf, push in *. simpl.
  split; [exact He |]. split; [exact Hr |]. by constructor.
Qed.

Lemma closed_pop (st : State) : closed st -> closed (pop st).
Proof.
  intros (He & Hr & Hs). unfold closed, idsOf, pop in *. simpl.
  split; [exact He |]. split; [exact Hr |].
  destruct (nodeStack st); [constructor | by inversion Hs].
Qed.

Lemma closed_extractCall (n : SyntaxNode) (st : State) :
  closed st -> closed (extractCall cfg n st).
Proof.
  intros Hc. unfold extractCall.
  destruct (nodeStack st) as [| callerId rest] eqn:Hstack; [exact Hc |].
  destruct (String.eqb callerId EmptyString); [exact Hc |].
  destruct (String.eqb _ EmptyString); [exact Hc |].
  apply closed_addRef; [exact Hc | by eapply closed_top | set_solver].
Qed.

Lemma closed_visitForCalls (n : SyntaxNode) :
  forall st, closed st -> closed (visitForCalls cfg e n st).
Proof.
  induction n as [ty nm fl si ei sp ep cs IH] using SyntaxNode_ind. intros st Hc. simpl.
  match goal with
  | |- closed (?each cs ?st1) =>
      assert (H1 : closed st1)
        by (destruct (isIn ty (callTypes e)); [by apply closed_extractCall | exact Hc]);
      revert H1; generalize st1
  end.
  induction IH as [| c cs Hch _ IHcs]; intros s Hs; [exact Hs |].
  apply IHcs. destruct (isNamed c); [by apply Hch | exact Hs].
Qed.

(** a node is made, its id is pushed, the body is searched for calls, the
    id is popped *)
Lemma closed_with_body (kind : NodeKind) (n : SyntaxNode) (st : State) :
  closed st ->
  closed (let '(newNode, st1) := createNode cfg kind (extractName n (source cfg) e) n st in
          pop (match childForFieldName n (bodyField e) with
               | Some body => visitFunctionBody cfg e body (push (n_id newNode) st1)
               | None => push (n_id newNode) st1
               end)).
Proof.
  intros Hc.
  destruct (closed_createNode kind (extractName n (source cfg) e) n st Hc) as [Hc1 Hid].
  destruct (createNode cfg kind _ n st) as [newNode st1]. cbn [fst snd] in *.
  apply closed_pop.
  destruct (childForFieldName n (bodyField e)) as [body |].
  - apply closed_visitForCalls. by apply closed_push.
  - by apply closed_push.
Qed.

Lemma closed_extractFunction (n : SyntaxNode) (st : State) :
  closed st -> closed (extractFunction cfg e n st).
Proof.
  intros Hc. unfold extractFunction.
  destruct (String.eqb _ anonymous); [exact Hc |].
  by apply (closed_with_body KFunction).
Qed.

Lemma closed_extractMethod (n : SyntaxNode) (st : State) :
  closed st -> closed (extractMethod cfg e n st).
Proof.
  intros Hc. unfold extractMethod.
  destruct (_ && _); [by apply closed_extractFunction |].
  by apply (closed_with_body KMethod).
Qed.

Lemma closed_fold {A} (f : State -> A -> State) (l : list A) (P : State -> Prop) :
  (forall s x, closed s /\ P s -> closed (f s x) /\ P (f s x)) ->
  forall s, closed s /\ P s -> closed (fold_left f l s) /\ P (fold_left f l s).
Proof.
  intros Hf. induction l as [| x l IH]; intros s Hs; simpl; [exact Hs |].
  apply IH, Hf, Hs.
Qed.

Lemma closed_extractInheritance (n : SyntaxNode) (classId : string) (st : State) :
  closed st -> classId ∈ idsOf st -> closed (extractInheritance cfg n classId st).
Proof.
  intros Hc Hid. unfold extractInheritance.
  refine (proj1 (closed_fold _ _ (fun s => classId ∈ idsOf s) _ st (conj Hc Hid))).
  intros s child [Hs Hi].
  assert (forall r, r_fromNodeId r = classId ->
                    r_referenceKind r ∈ [ECalls; EImports; EExtends; EImplements] ->
                    forall s0, closed s0 /\ classId ∈ idsOf s0 ->
                               closed (addRef r s0) /\ classId ∈ idsOf (addRef r s0))
    as Hadd.
  { intros r Hr Hk s0 [Hs0 Hi0]. split; [| exact Hi0].
    apply closed_addRef; [exact Hs0 | by rewrite Hr | exact Hk]. }
  match goal with
  | |- closed (if ?b then fold_left ?f ?l ?s1 else ?s1') /\ _ =>
      assert (closed s1 /\ classId ∈ idsOf s1) as H1
  end.
  { destruct (isIn (sn_type child) ["extends_clause"; "class_heritage"; "superclass"]);
      [| by split].
    destruct (namedChild child 0); [| by split].
    apply Hadd; [done | set_solver | by split]. }
  destruct (isIn (sn_type child) ["implements_clause"; "class_interface_clause"]);
    [| exact H1].
  apply (closed_fold _ _ (fun s => classId ∈ idsOf s)); [| exact H1].
  intros s0 iface Hs0. apply Hadd; [done | set_solver | exact Hs0].
Qed.

Lemma closed_extractContainer (kind : NodeKind) (inherits : bool) (vb : State -> State)
    (n : SyntaxNode) (st : State) :
  (forall s, closed s -> closed (vb s)) ->
  closed st -> closed (extractContainer kind inherits cfg e vb n st).
Proof.
  intros Hb Hc. unfold extractContainer.
  destruct (closed_createNode kind (extractName n (source cfg) e) n st Hc) as [Hc1 Hid].
  destruct (createNode cfg kind _ n st) as [newNode st1]. cbn [fst snd] in *.
  apply closed_pop, Hb.
  destruct inherits.
  - assert (idsOf (extractInheritance cfg n (n_id newNode) st1) = idsOf st1) as Hids.
    { unfold idsOf. by rewrite (proj1 (extractInheritance_onlyRefs cfg n (n_id newNode) st1)). }
    apply closed_push; [by apply closed_extractInheritance | by rewrite Hids].
  - by apply closed_push.
Qed.

Lemma closed_extractImport (n : SyntaxNode) (st : State) :
  closed st -> closed (extractImport cfg n st).
Proof.
  intros Hc. unfold extractImport.
  destruct (_ && _); [| exact Hc].
  destruct (nodeStack st) as [| parentId rest] eqn:Hstack; [exact Hc |].
  destruct (String.eqb parentId EmptyString); [exact Hc |].
  apply closed_addRef; [exact Hc | by eapply closed_top | set_solver].
Qed.

Lemma closed_visitNodeWith (n : SyntaxNode) (vb vc : State -> State) (st : State) :
  (forall s, closed s -> closed (vb s)) ->
  (forall s, closed s -> closed (vc s)) ->
  closed st -> closed (visitNodeWith cfg e vb vc n st).
Proof.
  intros Hb Hc H.
  unfold visitNodeWith, extractStruct, extractClass, extractInterface, extractEnum.
  repeat match goal with
         | |- context [if ?b then _ else _] => destruct b
         end;
    auto using closed_extractMethod, closed_extractFunction, closed_extractContainer,
               closed_extractImport, closed_extractCall;
    by apply closed_createNode.
Qed.

End ClosedFacts.

Lemma closed_visitNode (cfg : Extract.Config) (n : SyntaxNode) (st : Extract.State) :
  closed st -> closed (Extract.visitNode cfg n st).
Proof.
  unfold Extract.visitNode.
  destruct (Extract.EXTRACTORS (Extract.language cfg)) as [e |]; [| done].
  intros H.
  refine (proj1 (visitors_respect cfg cfg e (fun s1 _ => closed s1) _ n) st st H).
  intros m vb1 vb2 vc1 vc2 Hb Hc s1 s2 Hs.
  apply closed_visitNodeWith; [| | exact Hs].
  - intros s Hi. exact (Hb s s Hi).
  - intros s Hi. exact (Hc s s Hi).
Qed.

(** X8. The graph that extraction returns for a file is closed: every
    edge is a containment edge from a node of the result to a node of the
    result, and every unresolved reference starts from a node of the
    result and is a call, an import, an extension or an implementation. *)
Theorem extraction_result_is_closed (host : Extract.Host) (filePath source : string)
    (language : Language) :
  let result := Extract.extract host filePath source language in
  Forall (fun e => e_kind e = EContains
                   /\ e_source e ∈ n_id <$> nodes result
                   /\ e_target e ∈ n_id <$> nodes result) (edges result)
  /\ Forall (fun r => r_fromNodeId r ∈ n_id <$> nodes result
                      /\ r_referenceKind r ∈ [ECalls; EImports; EExtends; EImplements])
            (unresolvedReferences result).
Proof.
  cbv zeta. unfold Extract.extract.
  destruct (negb _); [by split; constructor |].
  destruct (Grammars.getParser _ _) as [g |]; [| by split; constructor].
  destruct (Extract.parse host g source) as [err | root]; [by split; constructor |].
  cbn [nodes edges unresolvedReferences].
  assert (closed Extract.initial) as H0 by (repeat split; constructor).
  destruct (closed_visitNode (Extract.mkConfig filePath source language (Extract.now host))
              root Extract.initial H0) as (He & Hr & _).
  by split.
Qed.

(** ** Indexing a list of files *)

Section IndexFilesFacts.
Import Orchestrator.
Variable env : Env.
Variable rootDir : string.
Variable config : CodeGraphConfig.

Lemma countFile_counts (result : ExtractionResult) (r : IndexResult) :
  filesIndexed (countFile result r) + filesSkipped (countFile result r)
  = S (filesIndexed r + filesSkipped r)
  /\ (filesIndexed r <= nodesCreated r ->
      filesIndexed (countFile result r) <= nodesCreated (countFile result r))
  /\ indexErrors (countFile result r) = (indexErrors r ++ errors result)%list.
Proof.
  unfold countFile. destruct (nodes result) as [| n ns]; simpl; repeat split; lia.
Qed.

Lemma indexEach_counts (filePaths : list string) :
  forall r d i,
    exists r' d' i',
      indexEach env rootDir config filePaths r (mkWorld d i None)
      = (Ok r', mkWorld d' i' None)
      /\ filesIndexed r' + filesSkipped r'
         = filesIndexed r + filesSkipped r + length filePaths
      /\ (filesIndexed r <= nodesCreated r -> filesIndexed r' <= nodesCreated r').
Proof.
  induction filePaths as [| p l IH]; intros r d i; cbn [indexEach].
  - eexists r, d, i. split; [reflexivity |]. simpl. split; [lia | done].
  - destruct (indexFile_ok env rootDir config p d i) as (res & d1 & i1 & Hrun & _).
    destruct (IH (countFile res r) d1 i1) as (r' & d' & i' & Hrest & Hsum & Hle).
    unfold bind. rewrite Hrun, Hrest. eexists r', d', i'. split; [reflexivity |].
    destruct (countFile_counts res r) as (Hc & Hn & _).
    split; [simpl; lia | auto].
Qed.

(** X9. When the store does not fail, [indexFiles] returns and counts
    every file of the list once: as indexed when indexing it gave nodes,
    as skipped otherwise, a file that could not be read or lies outside
    the root included.  There are at least as many nodes as indexed
    files, and the run is a success exactly when no entry of severity
    error was collected. *)
Theorem indexFiles_counts_every_file (filePaths : list string)
    (d : Store.Db) (i : list IoEvent) :
  exists r d' i',
    indexFiles env rootDir config filePaths (mkWorld d i None)
    = (Ok r, mkWorld d' i' None)
    /\ filesIndexed r + filesSkipped r = length filePaths
    /\ filesIndexed r <= nodesCreated r
    /\ (success r = true <-> Forall (fun e => severity e <> SevError) (indexErrors r)).
Proof.
  destruct (indexEach_counts filePaths (mkIndexResult true 0 0 0 0 []) d i)
    as (r & d' & i' & Hrun & Hsum & Hle).
  unfold indexFiles, bind. rewrite Hrun. eexists _, d', i'.
  split; [reflexivity |]. cbn [filesIndexed filesSkipped nodesCreated success indexErrors].
  split; [simpl in Hsum; lia |]. split; [apply Hle; simpl; lia |].
  rewrite negb_true_iff. split.
  - intros Hex. apply List.Forall_forall. intros e He Hsev.
    assert (existsb (fun e => bool_decide (severity e = SevError)) (indexErrors r) = true)
      as Hyes; [| congruence].
    apply existsb_exists. exists e. split; [done | by apply bool_decide_eq_true].
  - intros Hall. destruct (existsb _ (indexErrors r)) eqn:Hex; [| done].
    apply existsb_exists in Hex as (e & He & Hsev).
    apply bool_decide_eq_true in Hsev.
    rewrite List.Forall_forall in Hall. by destruct (Hall e He).
Qed.

End IndexFilesFacts.

(** ** The path check, exactly *)

Section PathExact.
Import Path.

Lemma join_app (rs : list string) (x : string) (rest : list string) :
  rs <> [] ->
  chars (Js.join "/" (rs ++ x :: rest))
  = (chars (Js.join "/" rs) ++ "/"%char :: chars (Js.join "/" (x :: rest)))%list.
Proof.
  induction rs as [| r rs IH]; [done |]. intros _.
  destruct rs as [| r' rs].
  - cbn [app]. rewrite chars_join_cons. reflexivity.
  - change ((r :: r' :: rs) ++ x :: rest)%list with (r :: r' :: (rs ++ x :: rest))%list.
    rewrite !chars_join_cons.
    change (r' :: (rs ++ x :: rest))%list with ((r' :: rs) ++ x :: rest)%list.
    rewrite IH by done. rewrite <- app_assoc. reflexivity.
Qed.

Lemma below_starts_with (rs ss : list string) :
  rs <> [] -> rs `prefix_of` ss ->
  Js.startsWith ("/" ++ Js.join "/" ss) (("/" ++ Js.join "/" rs) ++ sep) = true
  \/ "/" ++ Js.join "/" ss = "/" ++ Js.join "/" rs.
Proof.
  intros Hne [tl ->]. destruct tl as [| x rest].
  - right. by rewrite app_nil_r.
  - left. unfold Js.startsWith. apply string_prefix_chars.
    rewrite !chars_app, join_app by done.
    exists (chars (Js.join "/" (x :: rest))).
    unfold sep, chars. cbn [String.list_ascii_of_string].
    rewrite <- !app_assoc. reflexivity.
Qed.

Lemma slash_root_rejects (ss : list string) :
  Forall segment ss -> ss <> [] ->
  Js.startsWith ("/" ++ Js.join "/" ss) (("/" ++ Js.join "/" []) ++ sep) = false
  /\ "/" ++ Js.join "/" ss <> "/" ++ Js.join "/" [].
Proof.
  intros Hseg Hne. destruct ss as [| s ss]; [done |].
  inversion Hseg as [| ? ? Hs _]; subst.
  destruct (chars_join_head s ss Hs) as (c & rest & Hc).
  assert (c <> "/"%char) as Hslash.
  { destruct Hs as [Hs0 Hs1]. intros ->. apply Hs1.
    destruct s as [| a s]; [done |].
    destruct ss as [| s' ss].
    - cbn [Js.join] in Hc. unfold chars in *. cbn [String.list_ascii_of_string] in *.
      injection Hc as -> _. apply list_elem_of_here.
    - rewrite chars_join_cons in Hc. unfold chars in *.
      cbn [String.list_ascii_of_string app] in *.
      injection Hc as -> _. apply list_elem_of_here. }
  split.
  - destruct (Js.startsWith _ _) eqn:Hp; [| done].
    unfold Js.startsWith in Hp. apply string_prefix_chars in Hp.
    rewrite !chars_app, Hc in Hp. unfold sep, chars in Hp.
    cbn [Js.join String.list_ascii_of_string app] in Hp.
    destruct Hp as [k Hk]. cbn [app] in Hk. by injection Hk.
  - intros Heq. apply (f_equal chars) in Heq. rewrite !chars_app, Hc in Heq.
    unfold chars in Heq. cbn [Js.join String.list_ascii_of_string app] in Heq.
    discriminate Heq.
Qed.

(** X10. Under a root other than [/], the lexical check accepts a path
    exactly when its resolution lies at or below the root, segment by
    segment: nothing that escapes is accepted and nothing inside is
    refused.  Under the root [/] the appended separator doubles the
    slash, and only the paths that resolve to [/] itself are accepted. *)
Theorem validatePathWithinRoot_exact (cwd projectRoot filePath : string) :
  isAbsolute cwd = true ->
  (resolveSegs cwd [projectRoot] <> [] ->
   (is_Some (validatePathWithinRoot cwd projectRoot filePath)
    <-> staysWithin cwd projectRoot filePath))
  /\ (resolveSegs cwd [projectRoot] = [] ->
      (is_Some (validatePathWithinRoot cwd projectRoot filePath)
       <-> resolveSegs cwd [projectRoot; filePath] = []))
  /\ (forall resolved,
        validatePathWithinRoot cwd projectRoot filePath = Some resolved ->
        resolved = resolve cwd [projectRoot; filePath]
        /\ isPathWithinRoot cwd filePath projectRoot = true).
Proof.
  intros Habs.
  destruct (resolve_segments cwd [projectRoot] Habs) as [Hroot Hrs].
  destruct (resolve_segments cwd [projectRoot; filePath] Habs) as [Hres Hss].
  split; [| split].
  - intros Hne. split.
    + intros [r Hr]. by apply (validatePathWithinRoot_sound cwd _ _ r Habs) in Hr as [_ ?].
    + intros Hin. unfold validatePathWithinRoot. rewrite Hroot, Hres.
      destruct (below_starts_with _ _ Hne Hin) as [-> | ->]; [by eexists |].
      rewrite String.eqb_refl, andb_false_r. by eexists.
  - intros Hnil. unfold validatePathWithinRoot. rewrite Hroot, Hres, Hnil. split.
    + intros Hsome.
      destruct (decide (resolveSegs cwd [projectRoot; filePath] = [])) as [? | Hne]; [done |].
      destruct (slash_root_rejects _ Hss Hne) as [Hp Hq].
      rewrite Hp in Hsome. apply String.eqb_neq in Hq. rewrite Hq in Hsome.
      by destruct Hsome.
    + intros ->. rewrite String.eqb_refl, andb_false_r. by eexists.
  - intros resolved. unfold validatePathWithinRoot, isPathWithinRoot.
    destruct (Js.startsWith _ _); cbn [negb andb orb].
    + intros [= <-]. done.
    + destruct (String.eqb _ _); cbn [negb]; [intros [= <-]; done | done].
Qed.

End PathExact.

Lemma validatePathWithinRoot_exact_witness :
  is_Some (Path.validatePathWithinRoot "/home/u" "proj" "src/../lib/./a.ts")
  /\ Path.validatePathWithinRoot "/" "/" "etc/passwd" = None.
Proof.
  destruct (validatePathWithinRoot_exact "/home/u" "proj" "src/../lib/./a.ts" eq_refl)
    as (Hin & _ & _).
  split.
  - apply Hin; [vm_compute; discriminate |]. vm_compute. by exists ["lib"; "a.ts"].
  - vm_compute. reflexivity.
Defined.

(** ** Named parameters of the portable backend *)

Section NamedParams.
Import Sqlite.

Lemma word_is_no_placeholder (c : ascii) : isWordChar c = true -> Ascii.eqb c "?" = false.
Proof. destruct c as [[] [] [] [] [] [] [] []]; vm_compute; congruence. Qed.

Lemma fillNames_name (w out : string) (names : list string) :
  Forall (fun c => isWordChar c = true) (chars w) ->
  fillNames (w ++ out) names = w ++ fillNames out names.
Proof.
  induction w as [| c w IH]; [done |]. unfold chars.
  cbn [String.list_ascii_of_string]. intros H. inversion H as [| ? ? Hc Hw]; subst.
  change (String c w ++ out) with (String c (w ++ out)). cbn [fillNames].
  rewrite (word_is_no_placeholder c Hc). by rewrite (IH Hw).
Qed.

(** what [replaceNamed] returns, outside of a name and inside of one: the
    names put back give the text that was read *)
Lemma replaceNamed_round_trip (s : string) :
  "?"%char ∉ chars s ->
  (fillNames (fst (replaceNamed s None)) (snd (replaceNamed s None)) = s
   /\ placeholders (fst (replaceNamed s None)) = length (snd (replaceNamed s None)))
  /\ (forall n,
        exists nm names,
          snd (replaceNamed s (Some n)) = nm :: names
          /\ n ++ s = nm ++ fillNames (fst (replaceNamed s (Some n))) names
          /\ placeholders (fst (replaceNamed s (Some n))) = length names).
Proof.
  induction s as [| c s IH]; intros Hq.
  { split; [done |]. intros n. exists n, [].
    cbn [replaceNamed fst snd fillNames placeholders length]. done. }
  unfold chars in Hq. cbn [String.list_ascii_of_string] in Hq.
  apply not_elem_of_cons in Hq as [Hc Hs].
  destruct (IH Hs) as [[Hnone Hcount] Hsome].
  assert (Ascii.eqb c "?" = false) as Hcq by (apply Ascii.eqb_neq; congruence).
  assert (let outside :=
            if Ascii.eqb c "@" && startsWithWord s then
              let '(o, ns) := replaceNamed s (Some EmptyString) in (String "?" o, ns)
            else
              let '(o, ns) := replaceNamed s None in (String c o, ns) in
          fillNames (fst outside) (snd outside) = String c s
          /\ placeholders (fst outside) = length (snd outside)) as Hout.
  { cbv zeta. destruct (Ascii.eqb c "@" && startsWithWord s) eqn:Hat.
    - apply andb_true_iff in Hat as [Hat _]. apply Ascii.eqb_eq in Hat as ->.
      destruct (Hsome EmptyString) as (nm & names & Hnames & Hfill & Hlen).
      destruct (replaceNamed s (Some EmptyString)) as [o ns].
      cbn [fst snd] in *. subst ns. cbn [fillNames placeholders length].
      change (Ascii.eqb "?" "?") with true. cbv iota.
      change (EmptyString ++ s) with s in Hfill. rewrite Hfill. split; [done | lia].
    - destruct (replaceNamed s None) as [o ns]. cbn [fst snd] in *.
      cbn [fillNames placeholders]. rewrite Hcq. cbv iota. rewrite Hnone.
      split; [done | simpl; lia]. }
  cbv zeta in Hout. split.
  - cbn [replaceNamed]. exact Hout.
  - intros n. cbn [replaceNamed]. destruct (isWordChar c) eqn:Hw.
    + destruct (Hsome (n ++ String c EmptyString)) as (nm & names & Hnames & Hfill & Hlen).
      exists nm, names. split; [done |]. split; [| done].
      rewrite <- Hfill. apply append_snoc.
    + eexists n, _. split; [reflexivity |]. cbn [fst snd].
      destruct Hout as [Hfill Hlen]. split; [by rewrite Hfill | exact Hlen].
Qed.

(** the names are names: one or more characters of [\w] each *)
Lemma replaceNamed_names (s : string) :
  Forall isName (snd (replaceNamed s None))
  /\ (forall n,
        Forall (fun c => isWordChar c = true) (chars n) ->
        n <> EmptyString \/ startsWithWord s = true ->
        Forall isName (snd (replaceNamed s (Some n)))).
Proof.
  induction s as [| c s IH].
  { split; [constructor |]. intros n Hn [Hne | Hw]; [| done].
    constructor; [by split | constructor]. }
  destruct IH as [Hnone Hsome].
  assert (Forall isName
            (snd (if Ascii.eqb c "@" && startsWithWord s then
                    let '(o, ns) := replaceNamed s (Some EmptyString) in (String "?" o, ns)
                  else
                    let '(o, ns) := replaceNamed s None in (String c o, ns)))) as Hout.
  { destruct (Ascii.eqb c "@" && startsWithWord s) eqn:Hat.
    - apply andb_true_iff in Hat as [_ Hw].
      specialize (Hsome EmptyString (List.Forall_nil _) (or_intror Hw)).
      by destruct (replaceNamed s (Some EmptyString)).
    - by destruct (replaceNamed s None). }
  split; [exact Hout |].
  intros n Hn Hstart. cbn [replaceNamed]. destruct (isWordChar c) eqn:Hw.
  - apply Hsome.
    + rewrite chars_app. apply Forall_app. split; [exact Hn |].
      by repeat constructor.
    + left. intros H. apply (f_equal chars) in H. rewrite chars_app in H.
      unfold chars in H. cbn [String.list_ascii_of_string] in H.
      by destruct (String.list_ascii_of_string n).
  - destruct Hstart as [Hne | Hstart]; [| cbn [startsWithWord] in Hstart; congruence].
    cbn [snd]. constructor; [by split | exact Hout].
Qed.

(** X11. Named parameters are translated without loss.  For a statement
    without a question mark of its own: when it has no named parameter it
    is handed on as it is, with no parameter order; otherwise every
    [@name] becomes one [?], there are as many names as placeholders,
    each name is a non-empty word, and putting the names back at the
    placeholders, in order, gives the statement that was written. *)
Theorem named_parameters_round_trip (sql : string) :
  "?"%char ∉ chars sql ->
  match translateNamedParams sql with
  | (rewritten, None) => rewritten = sql /\ placeholders sql = 0
  | (rewritten, Some paramOrder) =>
      paramOrder <> []
      /\ Forall isName paramOrder
      /\ placeholders rewritten = length paramOrder
      /\ fillNames rewritten paramOrder = sql
  end.
Proof.
  intros Hq. unfold translateNamedParams.
  destruct (replaceNamed_round_trip sql Hq) as [[Hfill Hlen] _].
  pose proof (proj1 (replaceNamed_names sql)) as Hnames.
  destruct (replaceNamed sql None) as [rewritten paramOrder]. cbn [fst snd] in *.
  destruct paramOrder as [| n ns].
  - split; [done |]. clear -Hq. induction sql as [| c s IH]; [done |].
    unfold chars in Hq. cbn [String.list_ascii_of_string] in Hq.
    apply not_elem_of_cons in Hq as [Hc Hs]. cbn [placeholders].
    assert (Ascii.eqb c "?" = false) as -> by (apply Ascii.eqb_neq; congruence).
    by rewrite (IH Hs).
  - done.
Qed.

End NamedParams.

Lemma named_parameters_round_trip_witness :
  Sqlite.translateNamedParams "UPDATE files SET hash = @hash, size = @size WHERE path = @path OR hash = @hash"
  = ("UPDATE files SET hash = ?, size = ? WHERE path = ? OR hash = ?",
     Some ["hash"; "size"; "path"; "hash"])
  /\ fillNames "UPDATE files SET hash = ?, size = ? WHERE path = ? OR hash = ?"
       ["hash"; "size"; "path"; "hash"]
     = "UPDATE files SET hash = @hash, size = @size WHERE path = @path OR hash = @hash".
Proof.
  pose proof (named_parameters_round_trip
    "UPDATE files SET hash = @hash, size = @size WHERE path = @path OR hash = @hash") as H.
  assert (Sqlite.translateNamedParams
            "UPDATE files SET hash = @hash, size = @size WHERE path = @path OR hash = @hash"
          = ("UPDATE files SET hash = ?, size = ? WHERE path = ? OR hash = ?",
             Some ["hash"; "size"; "path"; "hash"])) as Heq by (vm_compute; reflexivity).
  rewrite Heq in H. split; [exact Heq |]. apply H.
  vm_compute. intros Hin.
  repeat (apply elem_of_cons in Hin as [Hin | Hin]; [discriminate Hin |]).
  by apply elem_of_nil in Hin.
Defined.

(** ** Detecting changes ([getChangedFiles]) *)

Section ChangeLoops.
Import Orchestrator.
Variable env : Env.
Variable rootDir : string.

Lemma needsIndex_split (look : string -> option Store.FileRecord) (p : string) :
  needsIndex env rootDir look p
  = looksAdded env rootDir look p || looksModified env rootDir look p.
Proof.
  unfold needsIndex, looksAdded, looksModified.
  destruct (readFile env _); [reflexivity |]. by destruct (look p).
Qed.

Lemma looks_exclusive (look : string -> option Store.FileRecord) (p : string) :
  looksAdded env rootDir look p = true -> looksModified env rootDir look p = false.
Proof.
  unfold looksAdded, looksModified.
  destruct (readFile env _); [done |]. by destruct (look p).
Qed.

Lemma looksAdded_spec (d : Store.Db) (p : string) :
  looksAdded env rootDir (fun q => Store.t_files d !! q) p = true
  <-> appearsNew env rootDir d p.
Proof.
  unfold looksAdded, appearsNew. destruct (readFile env _) as [e | content].
  - split; [done |]. by intros [[c Hc] _].
  - destruct (Store.t_files d !! p) as [r |]; split; try done.
    + by intros [_ ?].
    + intros _. split; [by exists content | done].
Qed.

Lemma looksModified_spec (d : Store.Db) (p : string) :
  looksModified env rootDir (fun q => Store.t_files d !! q) p = true
  <-> appearsChanged env rootDir d p.
Proof.
  unfold looksModified, appearsChanged. destruct (readFile env _) as [e | content].
  - split; [done |]. by intros (c & r & Hc & _).
  - destruct (Store.t_files d !! p) as [r |].
    + rewrite negb_true_iff, String.eqb_neq. split.
      * intros Hne. by exists content, r.
      * intros (c & r' & Hc & Hr & Hne). congruence.
    + split; [done |]. by intros (c & r & _ & Hr & _).
Qed.

Lemma filter_agree (f g : string -> bool) (l : list string) :
  Forall (fun p => f p = g p) l -> List.filter f l = List.filter g l.
Proof.
  induction 1 as [| p l Hp _ IH]; [reflexivity |]. simpl. by rewrite Hp, IH.
Qed.

Lemma filter_needs_split (look : string -> option Store.FileRecord) (l : list string) :
  List.filter (needsIndex env rootDir look) l
  ≡ₚ List.filter (looksAdded env rootDir look) l
     ++ List.filter (looksModified env rootDir look) l.
Proof.
  induction l as [| p l IH]; [reflexivity |]. simpl. rewrite needsIndex_split.
  destruct (looksAdded env rootDir look p) eqn:Ha.
  - rewrite (looks_exclusive _ _ Ha). simpl. by rewrite IH.
  - simpl. destruct (looksModified env rootDir look p).
    + rewrite IH. by rewrite Permutation_middle.
    + exact IH.
Qed.

(** *** the loops of [getChangedFiles] *)

Lemma detectFile_ok (look : string -> option Store.FileRecord)
    (lookup : string -> M World (option Store.FileRecord)) (d : Store.Db)
    (f : option nat) :
  (forall q j, lookup q (mkWorld d j f) = (Ok (look q), mkWorld d j f)) ->
  forall p c i,
    exists c' i',
      detectFile env rootDir lookup p c (mkWorld d i f) = (Ok c', mkWorld d i' f)
      /\ addedFiles c'
         = (addedFiles c ++ if looksAdded env rootDir look p then [p] else [])%list
      /\ modifiedFiles c'
         = (modifiedFiles c ++ if looksModified env rootDir look p then [p] else [])%list
      /\ removedFiles c' = removedFiles c.
Proof.
  intros Hlook p c i.
  unfold detectFile, looksAdded, looksModified, bind, try_catch, fsReadFile, bind, trace,
    modify, of_sum, throw, ret. simpl.
  destruct (readFile env (Path.join [rootDir; p])) as [err | content].
  - eexists _, _. split; [reflexivity |]. by rewrite !app_nil_r.
  - rewrite Hlook. destruct (look p) as [r |].
    + destruct (negb _); eexists _, _; (split; [reflexivity |]); simpl;
        by rewrite ?app_nil_r.
    + eexists _, _. split; [reflexivity |]. simpl. by rewrite ?app_nil_r.
Qed.

Lemma detect_loop_ok (look : string -> option Store.FileRecord)
    (lookup : string -> M World (option Store.FileRecord)) (d : Store.Db)
    (f : option nat) :
  (forall q j, lookup q (mkWorld d j f) = (Ok (look q), mkWorld d j f)) ->
  forall l c i,
    exists c' i',
      collect l (detectFile env rootDir lookup) c (mkWorld d i f)
      = (Ok c', mkWorld d i' f)
      /\ addedFiles c'
         = (addedFiles c ++ List.filter (looksAdded env rootDir look) l)%list
      /\ modifiedFiles c'
         = (modifiedFiles c ++ List.filter (looksModified env rootDir look) l)%list
      /\ removedFiles c' = removedFiles c.
Proof.
  intros Hlook. induction l as [| p l IH]; intros c i; simpl.
  - eexists c, i. split; [reflexivity |]. by rewrite !app_nil_r.
  - destruct (detectFile_ok look lookup d f Hlook p c i)
      as (c1 & i1 & Hrun & Ha1 & Hm1 & Hr1).
    destruct (IH c1 i1) as (c' & i' & Hrest & Ha & Hm & Hr).
    unfold bind. rewrite Hrun, Hrest. eexists c', i'. split; [reflexivity |].
    rewrite Ha, Hm, Hr, Ha1, Hm1, Hr1, <- !app_assoc.
    split; [| split; [| reflexivity]]; f_equal.
    + by destruct (looksAdded env rootDir look p).
    + by destruct (looksModified env rootDir look p).
Qed.

Lemma reportIfTracked_loop_ok (l : list string) :
  forall c (w : World),
    exists c',
      collect l reportIfTracked c w = (Ok c', w)
      /\ addedFiles c' = addedFiles c
      /\ modifiedFiles c' = modifiedFiles c
      /\ removedFiles c'
         = (removedFiles c
            ++ List.filter (fun p => bool_decide (is_Some (Store.t_files (db w) !! p))) l)%list.
Proof.
  induction l as [| p l IH]; intros c w; cbn [collect].
  - exists c. split; [reflexivity |]. by rewrite app_nil_r.
  - unfold bind at 1, reportIfTracked at 1, bind, query, Store.getFileByPath. cbn [List.filter].
    destruct (Store.t_files (db w) !! p) as [r |] eqn:Hp.
    + unfold ret at 1. destruct (IH (pushRemoved p c) w) as (c' & Hrest & Ha & Hm & Hr).
      rewrite Hrest. exists c'. split; [reflexivity |].
      rewrite Ha, Hm, Hr. cbn [pushRemoved addedFiles modifiedFiles removedFiles].
      rewrite bool_decide_eq_true_2 by (by eexists). by rewrite <- app_assoc.
    + unfold ret at 1. destruct (IH c w) as (c' & Hrest & Ha & Hm & Hr).
      rewrite Hrest. exists c'. split; [reflexivity |].
      rewrite bool_decide_eq_false_2 by (by intros [? ?]). done.
Qed.

Lemma reportIfGone_loop_ok (current : list string) (l : list Store.FileRecord) :
  forall c (w : World),
    exists c',
      collect l (reportIfGone current) c w = (Ok c', w)
      /\ addedFiles c' = addedFiles c
      /\ modifiedFiles c' = modifiedFiles c
      /\ removedFiles c'
         = (removedFiles c
            ++ List.filter (fun p => negb (bool_decide (p ∈ current)))
                           (Store.f_path <$> l))%list.
Proof.
  induction l as [| r l IH]; intros c w; cbn [collect].
  - exists c. split; [reflexivity |]. by rewrite app_nil_r.
  - unfold bind at 1, reportIfGone at 1. rewrite fmap_cons. cbn [List.filter].
    destruct (negb (bool_decide (Store.f_path r ∈ current))).
    + unfold ret at 1. destruct (IH (pushRemoved (Store.f_path r) c) w)
        as (c' & Hrest & Ha & Hm & Hr).
      rewrite Hrest. exists c'. split; [reflexivity |].
      rewrite Ha, Hm, Hr. cbn [pushRemoved addedFiles modifiedFiles removedFiles].
      by rewrite <- app_assoc.
    + unfold ret at 1. destruct (IH c w) as (c' & Hrest & Ha & Hm & Hr).
      rewrite Hrest. by exists c'.
Qed.

Lemma pushAdded_loop_ok (l : list string) :
  forall c (w : World),
    exists c',
      collect l (fun filePath c => ret (pushAdded filePath c)) c w = (Ok c', w)
      /\ addedFiles c' = (addedFiles c ++ l)%list
      /\ modifiedFiles c' = modifiedFiles c
      /\ removedFiles c' = removedFiles c.
Proof.
  induction l as [| p l IH]; intros c w; cbn [collect].
  - exists c. split; [reflexivity |]. by rewrite app_nil_r.
  - destruct (IH (pushAdded p c) w) as (c' & Hrest & Ha & Hm & Hr).
    unfold bind, ret at 1. rewrite Hrest. exists c'. split; [reflexivity |].
    rewrite Ha, Hm, Hr. cbn [pushAdded addedFiles modifiedFiles removedFiles].
    by rewrite <- app_assoc.
Qed.

(** *** the loops of [sync], with their counters *)

Lemma checkFile_counts (look : string -> option Store.FileRecord)
    (lookup : string -> M World (option Store.FileRecord)) (d : Store.Db) :
  (forall q j, lookup q (mkWorld d j None) = (Ok (look q), mkWorld d j None)) ->
  forall p t i,
    exists t' i',
      checkFile env rootDir lookup p t (mkWorld d i None) = (Ok t', mkWorld d i' None)
      /\ filesToIndex t'
         = (filesToIndex t ++ if needsIndex env rootDir look p then [p] else [])%list
      /\ changed t'
         = (changed t ++ if needsIndex env rootDir look p then [p] else [])%list
      /\ nAdded t' = nAdded t + (if looksAdded env rootDir look p then 1 else 0)
      /\ nModified t' = nModified t + (if looksModified env rootDir look p then 1 else 0)
      /\ nRemoved t' = nRemoved t.
Proof.
  intros Hlook p t i.
  unfold checkFile, needsIndex, looksAdded, looksModified, bind, try_catch, fsReadFile,
    bind, trace, modify, of_sum, throw, ret. simpl.
  destruct (readFile env (Path.join [rootDir; p])) as [err | content].
  - eexists _, _. split; [reflexivity |]. rewrite !app_nil_r. repeat split; lia.
  - rewrite Hlook. destruct (look p) as [r |].
    + destruct (negb _); eexists _, _; (split; [reflexivity |]); simpl;
        rewrite ?app_nil_r; repeat split; lia.
    + eexists _, _. split; [reflexivity |]. simpl. repeat split; lia.
Qed.

Lemma check_loop_counts (look : string -> option Store.FileRecord)
    (lookup : string -> M World (option Store.FileRecord)) (d : Store.Db) :
  (forall q j, lookup q (mkWorld d j None) = (Ok (look q), mkWorld d j None)) ->
  forall l t i,
    exists t' i',
      loop l (checkFile env rootDir lookup) t (mkWorld d i None)
      = (Ok t', mkWorld d i' None)
      /\ filesToIndex t'
         = (filesToIndex t ++ List.filter (needsIndex env rootDir look) l)%list
      /\ changed t' = (changed t ++ List.filter (needsIndex env rootDir look) l)%list
      /\ nAdded t' = nAdded t + length (List.filter (looksAdded env rootDir look) l)
      /\ nModified t'
         = nModified t + length (List.filter (looksModified env rootDir look) l)
      /\ nRemoved t' = nRemoved t.
Proof.
  intros Hlook. induction l as [| p l IH]; intros t i; simpl.
  - eexists t, i. split; [reflexivity |]. rewrite !app_nil_r. repeat split; lia.
  - destruct (checkFile_counts look lookup d Hlook p t i)
      as (t1 & i1 & Hrun & Hf1 & Hc1 & Ha1 & Hm1 & Hr1).
    destruct (IH t1 i1) as (t' & i' & Hrest & Hf & Hc & Ha & Hm & Hr).
    unfold bind. rewrite Hrun, Hrest. eexists t', i'. split; [reflexivity |].
    rewrite Hf, Hc, Ha, Hm, Hr, Hf1, Hc1, Ha1, Hm1, Hr1, <- !app_assoc.
    destruct (needsIndex env rootDir look p), (looksAdded env rootDir look p),
      (looksModified env rootDir look p); simpl; repeat split; lia.
Qed.

Lemma removeIfTracked_loop_counts (l : list string) :
  NoDup l ->
  forall t d i,
    exists t' d',
      loop l removeIfTracked t (mkWorld d i None) = (Ok t', mkWorld d' i None)
      /\ filesToIndex t' = filesToIndex t
      /\ changed t' = changed t
      /\ nAdded t' = nAdded t
      /\ nModified t' = nModified t
      /\ nRemoved t'
         = nRemoved t
           + length (List.filter (fun p => bool_decide (is_Some (Store.t_files d !! p))) l)
      /\ (forall q, Store.t_files d' !! q
                    = if decide (q ∈ l) then None else Store.t_files d !! q).
Proof.
  induction 1 as [| p l Hp Hnd IH]; intros t d i; cbn [loop].
  - eexists t, d. split; [reflexivity |]. cbn [List.filter length].
    repeat split; lia.
  - assert (Hsame : forall d1,
              (forall q, Store.t_files d1 !! q
                         = if decide (q = p) then None else Store.t_files d !! q) ->
              List.filter (fun q => bool_decide (is_Some (Store.t_files d1 !! q))) l
              = List.filter (fun q => bool_decide (is_Some (Store.t_files d !! q))) l).
    { intros d1 Hd1. apply filter_agree, List.Forall_forall. intros q Hq.
      apply list_elem_of_In in Hq. rewrite Hd1. rewrite decide_False; [done |].
      by intros ->. }
    unfold bind at 1, removeIfTracked at 1, bind, query, mutate, ret, Store.getFileByPath.
    cbn [db io fault List.filter].
    destruct (Store.t_files d !! p) as [r |] eqn:Hr; cbv beta iota zeta; cbn [db io fault].
    + destruct (IH (tallyRemoved t) (Store.deleteFile p d) i)
        as (t' & d' & Hrest & Hf & Hc & Ha & Hm & Hrm & Hd).
      rewrite Hrest. eexists t', d'. split; [reflexivity |].
      rewrite Hf, Hc, Ha, Hm, Hrm. rewrite Hsame.
      * rewrite bool_decide_eq_true_2 by (by eexists).
        cbn [tallyRemoved filesToIndex changed nAdded nModified nRemoved length].
        repeat split; try lia.
        intros q. rewrite Hd. cbn [Store.deleteFile Store.t_files].
        destruct (decide (q = p)) as [-> | Hne].
        -- rewrite lookup_delete_eq. rewrite (decide_True (P := p ∈ p :: l)) by set_solver.
           by case_decide.
        -- rewrite lookup_delete_ne by done. repeat case_decide; try done; set_solver.
      * intros q. cbn [Store.deleteFile Store.t_files]. case_decide as Hq.
        -- subst q. apply lookup_delete_eq.
        -- by apply lookup_delete_ne.
    + destruct (IH t d i) as (t' & d' & Hrest & Hf & Hc & Ha & Hm & Hrm & Hd).
      rewrite Hrest. eexists t', d'. split; [reflexivity |].
      rewrite bool_decide_eq_false_2 by (by intros [? ?]).
      repeat split; try done.
      intros q. rewrite Hd. destruct (decide (q = p)) as [-> | Hne].
      * rewrite (decide_True (P := p ∈ p :: l)) by set_solver. by case_decide.
      * repeat case_decide; try done; set_solver.
Qed.

Lemma removeIfGone_loop_counts (current : list string) (l : list Store.FileRecord) :
  forall t d i,
    exists t' d',
      loop l (removeIfGone current) t (mkWorld d i None) = (Ok t', mkWorld d' i None)
      /\ filesToIndex t' = filesToIndex t
      /\ changed t' = changed t
      /\ nAdded t' = nAdded t
      /\ nModified t' = nModified t
      /\ nRemoved t'
         = nRemoved t
           + length (List.filter (fun p => negb (bool_decide (p ∈ current)))
                                 (Store.f_path <$> l)).
Proof.
  induction l as [| r l IH]; intros t d i; cbn [loop].
  - eexists t, d. split; [reflexivity |]. simpl. repeat split; lia.
  - unfold bind at 1, removeIfGone at 1, bind, mutate, ret. cbn [db io fault].
    rewrite fmap_cons. cbn [List.filter].
    destruct (negb (bool_decide (Store.f_path r ∈ current)));
      cbv beta iota zeta; cbn [db io fault].
    + destruct (IH (tallyRemoved t) (Store.deleteFile (Store.f_path r) d) i)
        as (t' & d' & Hrest & Hf & Hc & Ha & Hm & Hrm).
      rewrite Hrest. eexists t', d'. split; [reflexivity |].
      rewrite Hf, Hc, Ha, Hm, Hrm.
      cbn [tallyRemoved filesToIndex changed nAdded nModified nRemoved length].
      repeat split; lia.
    + destruct (IH t d i) as (t' & d' & Hrest & Hf & Hc & Ha & Hm & Hrm).
      rewrite Hrest. by eexists t', d'.
Qed.

Lemma tallyAdded_loop_counts (l : list string) :
  forall t (w : World),
    exists t',
      loop l (fun filePath t => ret (tallyAdded filePath t)) t w = (Ok t', w)
      /\ filesToIndex t' = (filesToIndex t ++ l)%list
      /\ changed t' = (changed t ++ l)%list
      /\ nAdded t' = nAdded t + length l
      /\ nModified t' = nModified t
      /\ nRemoved t' = nRemoved t.
Proof.
  induction l as [| p l IH]; intros t w; cbn [loop].
  - exists t. split; [reflexivity |]. rewrite !app_nil_r. simpl. repeat split; lia.
  - destruct (IH (tallyAdded p t) w) as (t' & Hrest & Hf & Hc & Ha & Hm & Hr).
    unfold bind, ret at 1. rewrite Hrest. exists t'. split; [reflexivity |].
    rewrite Hf, Hc, Ha, Hm, Hr.
    cbn [tallyAdded filesToIndex changed nAdded nModified nRemoved length].
    rewrite <- !app_assoc. repeat split; lia.
Qed.

End ChangeLoops.

Section ChangeFacts.
Import Orchestrator.
Variable env : Env.
Variable rootDir : string.
Variable config : CodeGraphConfig.

Lemma looks_agree (look1 look2 : string -> option Store.FileRecord) (p : string) :
  look1 p = look2 p ->
  looksAdded env rootDir look1 p = looksAdded env rootDir look2 p
  /\ looksModified env rootDir look1 p = looksModified env rootDir look2 p
  /\ needsIndex env rootDir look1 p = needsIndex env rootDir look2 p.
Proof. unfold looksAdded, looksModified, needsIndex. by intros ->. Qed.

(** the lists of [getChangedFiles], which leaves the store as it is *)
Lemma getChangedFiles_lists (d : Store.Db) (i : list IoEvent) (f : option nat) :
  exists c i1,
    getChangedFiles env rootDir config (mkWorld d i f) = (Ok c, mkWorld d i1 f)
    /\ match getGitChangedFiles env config with
       | Some g =>
           addedFiles c
           = (List.filter (looksAdded env rootDir (fun p => Store.t_files d !! p))
                          (modified g) ++ added g)%list
           /\ modifiedFiles c
              = List.filter (looksModified env rootDir (fun p => Store.t_files d !! p))
                            (modified g)
           /\ removedFiles c
              = List.filter (fun p => bool_decide (is_Some (Store.t_files d !! p)))
                            (deleted g)
       | None =>
           addedFiles c
           = List.filter (looksAdded env rootDir
                            (fun p => trackedMapOf (Store.getAllFiles d) !! p))
                         (Orchestrator.distinct [] (scanned env))
           /\ modifiedFiles c
              = List.filter (looksModified env rootDir
                               (fun p => trackedMapOf (Store.getAllFiles d) !! p))
                            (Orchestrator.distinct [] (scanned env))
           /\ removedFiles c
              = List.filter
                  (fun p => negb (bool_decide (p ∈ Orchestrator.distinct [] (scanned env))))
                  (Store.f_path <$> Store.getAllFiles d)
       end.
Proof.
  unfold getChangedFiles. destruct (getGitChangedFiles env config) as [g |].
  - destruct (reportIfTracked_loop_ok (deleted g) (mkChangedFiles [] [] []) (mkWorld d i f))
      as (c1 & Hdel & Ha1 & Hm1 & Hr1).
    destruct (detect_loop_ok env rootDir (fun p => Store.t_files d !! p)
                (fun p => query (Store.getFileByPath p)) d f (fun q j => eq_refl)
                (modified g) c1 i)
      as (c2 & i2 & Hmod & Ha2 & Hm2 & Hr2).
    destruct (pushAdded_loop_ok (added g) c2 (mkWorld d i2 f))
      as (c3 & Hadd & Ha3 & Hm3 & Hr3).
    unfold bind. rewrite Hdel, Hmod, Hadd. exists c3, i2. split; [reflexivity |].
    rewrite Ha3, Hm3, Hr3, Ha2, Hm2, Hr2, Ha1, Hm1, Hr1. done.
  - unfold bind at 1, query. cbn [db].
    destruct (reportIfGone_loop_ok (Orchestrator.distinct [] (scanned env))
                (Store.getAllFiles d) (mkChangedFiles [] [] []) (mkWorld d i f))
      as (c1 & Hdel & Ha1 & Hm1 & Hr1).
    destruct (detect_loop_ok env rootDir
                (fun p => trackedMapOf (Store.getAllFiles d) !! p)
                (fun p => ret (trackedMapOf (Store.getAllFiles d) !! p)) d f
                (fun q j => eq_refl) (Orchestrator.distinct [] (scanned env)) c1 i)
      as (c2 & i2 & Hchk & Ha2 & Hm2 & Hr2).
    unfold bind. rewrite Hdel, Hchk. exists c2, i2. split; [reflexivity |].
    rewrite Ha2, Hm2, Hr2, Ha1, Hm1, Hr1. done.
Qed.

(** the tally of the two modes of [sync] *)
Lemma syncGit_counts (g : GitChanges) (d : Store.Db) (i : list IoEvent) :
  NoDup (deleted g) ->
  Forall (fun p => p ∉ deleted g) (modified g) ->
  exists t d1 i1,
    syncGit env rootDir g (mkWorld d i None) = (Ok t, mkWorld d1 i1 None)
    /\ changed t
       = (List.filter (needsIndex env rootDir (fun p => Store.t_files d !! p)) (modified g)
          ++ added g)%list
    /\ nAdded t
       = length (List.filter (looksAdded env rootDir (fun p => Store.t_files d !! p))
                             (modified g)) + length (added g)
    /\ nModified t
       = length (List.filter (looksModified env rootDir (fun p => Store.t_files d !! p))
                             (modified g))
    /\ nRemoved t
       = length (List.filter (fun p => bool_decide (is_Some (Store.t_files d !! p)))
                             (deleted g)).
Proof.
  intros Hnd Hdisj. unfold syncGit.
  destruct (removeIfTracked_loop_counts (deleted g) Hnd (mkTally [] [] 0 0 0) d i)
    as (t1 & d1 & Hdel & Hf1 & Hc1 & Ha1 & Hm1 & Hr1 & Hd1).
  destruct (check_loop_counts env rootDir (fun p => Store.t_files d1 !! p)
              (fun p => query (Store.getFileByPath p)) d1 (fun q j => eq_refl)
              (modified g) t1 i)
    as (t2 & i2 & Hmod & Hf2 & Hc2 & Ha2 & Hm2 & Hr2).
  destruct (tallyAdded_loop_counts (added g) t2 (mkWorld d1 i2 None))
    as (t3 & Hadd & Hf3 & Hc3 & Ha3 & Hm3 & Hr3).
  unfold bind. rewrite Hdel, Hmod, Hadd. exists t3, d1, i2. split; [reflexivity |].
  assert (Hsame : Forall (fun p => Store.t_files d1 !! p = Store.t_files d !! p)
                         (modified g)).
  { eapply Forall_impl; [exact Hdisj |]. intros p Hp. rewrite Hd1. by rewrite decide_False. }
  rewrite Hc3, Ha3, Hm3, Hr3, Hc2, Ha2, Hm2, Hr2, Hc1, Ha1, Hm1, Hr1.
  cbn [changed nAdded nModified nRemoved].
  rewrite (filter_agree (needsIndex env rootDir (fun p => Store.t_files d1 !! p))
             (needsIndex env rootDir (fun p => Store.t_files d !! p))),
    (filter_agree (looksAdded env rootDir (fun p => Store.t_files d1 !! p))
       (looksAdded env rootDir (fun p => Store.t_files d !! p))),
    (filter_agree (looksModified env rootDir (fun p => Store.t_files d1 !! p))
       (looksModified env rootDir (fun p => Store.t_files d !! p))).
  - done.
  - eapply Forall_impl; [exact Hsame |]. intros p Hp. by apply looks_agree.
  - eapply Forall_impl; [exact Hsame |]. intros p Hp. by apply looks_agree.
  - eapply Forall_impl; [exact Hsame |]. intros p Hp. by apply looks_agree.
Qed.

Lemma syncScan_counts (d : Store.Db) (i : list IoEvent) :
  exists t d1 i1,
    syncScan env rootDir (mkWorld d i None) = (Ok t, mkWorld d1 i1 None)
    /\ changed t
       = List.filter (needsIndex env rootDir
                        (fun p => trackedMapOf (Store.getAllFiles d) !! p))
                     (Orchestrator.distinct [] (scanned env))
    /\ nAdded t
       = length (List.filter (looksAdded env rootDir
                                (fun p => trackedMapOf (Store.getAllFiles d) !! p))
                             (Orchestrator.distinct [] (scanned env)))
    /\ nModified t
       = length (List.filter (looksModified env rootDir
                                (fun p => trackedMapOf (Store.getAllFiles d) !! p))
                             (Orchestrator.distinct [] (scanned env)))
    /\ nRemoved t
       = length (List.filter
                   (fun p => negb (bool_decide (p ∈ Orchestrator.distinct [] (scanned env))))
                   (Store.f_path <$> Store.getAllFiles d)).
Proof.
  unfold syncScan, bind at 1, query. cbn [db].
  destruct (removeIfGone_loop_counts (Orchestrator.distinct [] (scanned env))
              (Store.getAllFiles d) (mkTally [] [] 0 0 0) d i)
    as (t1 & d1 & Hdel & Hf1 & Hc1 & Ha1 & Hm1 & Hr1).
  destruct (check_loop_counts env rootDir
              (fun p => trackedMapOf (Store.getAllFiles d) !! p)
              (fun p => ret (trackedMapOf (Store.getAllFiles d) !! p)) d1
              (fun q j => eq_refl) (Orchestrator.distinct [] (scanned env)) t1 i)
    as (t2 & i2 & Hchk & Hf2 & Hc2 & Ha2 & Hm2 & Hr2).
  unfold bind. rewrite Hdel, Hchk. exists t2, d1, i2. split; [reflexivity |].
  rewrite Hc2, Ha2, Hm2, Hr2, Hc1, Ha1, Hm1, Hr1. done.
Qed.

(** X12. [getChangedFiles] returns, and leaves the store and the fault to
    come as they are.  On the fast path it reports as removed the deleted
    paths of git status that have a record, as modified the modified paths
    of git status that can be read and have a record with another hash, and
    as added the untracked paths of git status and the modified ones that
    can be read and have no record.  On the full scan over a store that
    files every record under its path it reports as removed the recorded
    paths that were not scanned, as added the scanned files that can be
    read and have no record, and as modified the scanned files that can be
    read and have a record with another hash. *)
Theorem getChangedFiles_reports_without_writing (w : World) :
  exists c i1,
    getChangedFiles env rootDir config w = (Ok c, mkWorld (db w) i1 (fault w))
    /\ match getGitChangedFiles env config with
       | Some g =>
           (forall p, p ∈ removedFiles c
                      <-> p ∈ deleted g /\ is_Some (Store.t_files (db w) !! p))
           /\ (forall p, p ∈ addedFiles c
                         <-> p ∈ added g
                             \/ (p ∈ modified g /\ appearsNew env rootDir (db w) p))
           /\ (forall p, p ∈ modifiedFiles c
                         <-> p ∈ modified g /\ appearsChanged env rootDir (db w) p)
       | None =>
           keyed (db w) ->
           (forall p, p ∈ removedFiles c
                      <-> is_Some (Store.t_files (db w) !! p) /\ p ∉ scanned env)
           /\ (forall p, p ∈ addedFiles c
                         <-> p ∈ scanned env /\ appearsNew env rootDir (db w) p)
           /\ (forall p, p ∈ modifiedFiles c
                         <-> p ∈ scanned env /\ appearsChanged env rootDir (db w) p)
       end.
Proof.
  destruct w as [d i f]. cbn [db fault].
  destruct (getChangedFiles_lists d i f) as (c & i1 & Hrun & Hlists).
  exists c, i1. split; [exact Hrun |].
  destruct (getGitChangedFiles env config) as [g |].
  - destruct Hlists as (Ha & Hm & Hr). split; [| split]; intros p.
    + rewrite Hr, filter_elem, bool_decide_eq_true. done.
    + rewrite Ha, elem_of_app, filter_elem, looksAdded_spec. tauto.
    + rewrite Hm, filter_elem, looksModified_spec. done.
  - destruct Hlists as (Ha & Hm & Hr). intros Hk.
    assert (Hlook : forall p,
              looksAdded env rootDir (fun q => trackedMapOf (Store.getAllFiles d) !! q) p
              = looksAdded env rootDir (fun q => Store.t_files d !! q) p
              /\ looksModified env rootDir
                   (fun q => trackedMapOf (Store.getAllFiles d) !! q) p
                 = looksModified env rootDir (fun q => Store.t_files d !! q) p).
    { intros p. destruct (looks_agree (fun q => trackedMapOf (Store.getAllFiles d) !! q)
                            (fun q => Store.t_files d !! q) p) as (H1 & H2 & _);
        [by apply trackedMapOf_lookup | done]. }
    split; [| split]; intros p.
    + rewrite Hr, filter_elem, negb_true_iff, bool_decide_eq_false, elem_of_distinct.
      by rewrite getAllFiles_paths.
    + rewrite Ha, filter_elem, elem_of_distinct, (proj1 (Hlook p)), looksAdded_spec. done.
    + rewrite Hm, filter_elem, elem_of_distinct, (proj2 (Hlook p)), looksModified_spec.
      done.
Qed.

(** X13. Where git status lists no path twice as deleted and none both as
    deleted and as modified, and always on the full scan, a [sync] over a
    store that does not fail counts what [getChangedFiles] lists from the
    same state: [filesAdded], [filesModified] and [filesRemoved] are the
    lengths of its three lists, and [changedFilePaths] holds the added and
    modified paths, and is absent when there are none. *)
Theorem sync_counts_what_getChangedFiles_lists (w : World) :
  fault w = None ->
  reportsEachPathOnce (getGitChangedFiles env config) ->
  exists c w1 res w2,
    getChangedFiles env rootDir config w = (Ok c, w1)
    /\ sync env rootDir config w = (Ok res, w2)
    /\ filesAdded res = length (addedFiles c)
    /\ filesModified res = length (modifiedFiles c)
    /\ filesRemoved res = length (removedFiles c)
    /\ default [] (changedFilePaths res) ≡ₚ addedFiles c ++ modifiedFiles c
    /\ changedFilePaths res <> Some [].
Proof.
  destruct w as [d i f]. cbn [fault]. intros -> Honce.
  destruct (getChangedFiles_lists d i None) as (c & i1 & Hrun & Hlists).
  exists c, (mkWorld d i1 None). unfold sync.
  destruct (getGitChangedFiles env config) as [g |].
  - destruct Honce as [Hnd Hdisj]. destruct Hlists as (Ha & Hm & Hr).
    destruct (syncGit_counts g d i Hnd Hdisj)
      as (t & d1 & i2 & Hsync & Hc & Hna & Hnm & Hnr).
    destruct (indexChanged_ok env rootDir config (filesToIndex t) 0 d1 i2)
      as (n' & d' & i' & Hidx & _).
    unfold bind. rewrite Hsync. unfold ret at 1. rewrite Hidx.
    eexists _, _. split; [exact Hrun |]. split; [reflexivity |].
    cbn [filesAdded filesModified filesRemoved changedFilePaths].
    rewrite Ha, Hm, Hr, Hna, Hnm, Hnr, length_app.
    split; [done |]. split; [done |]. split; [done |].
    split; [| by destruct (changed t)].
    transitivity (changed t); [by destruct (changed t) |].
    rewrite Hc, filter_needs_split.
    rewrite <- !app_assoc. apply Permutation_app_head, Permutation_app_comm.
  - destruct Hlists as (Ha & Hm & Hr).
    destruct (syncScan_counts d i) as (t & d1 & i2 & Hsync & Hc & Hna & Hnm & Hnr).
    destruct (indexChanged_ok env rootDir config (filesToIndex t) 0 d1 i2)
      as (n' & d' & i' & Hidx & _).
    unfold bind. rewrite Hsync. unfold ret at 1. rewrite Hidx.
    eexists _, _. split; [exact Hrun |]. split; [reflexivity |].
    cbn [filesAdded filesModified filesRemoved changedFilePaths].
    rewrite Ha, Hm, Hr, Hna, Hnm, Hnr.
    split; [done |]. split; [done |]. split; [done |].
    split; [| by destruct (changed t)].
    transitivity (changed t); [by destruct (changed t) |].
    rewrite Hc. apply filter_needs_split.
Qed.

End ChangeFacts.

Lemma getChangedFiles_reports_without_writing_witness :
  exists c i1,
    Orchestrator.getChangedFiles no_git_env "/proj" plain_config gone_world
    = (Ok c, Orchestrator.mkWorld gone_store i1 None)
    /\ "gone.ts" ∈ Orchestrator.removedFiles c
    /\ "src/a.ts" ∈ Orchestrator.addedFiles c
    /\ "src/a.ts" ∉ Orchestrator.modifiedFiles c.
Proof.
  destruct (getChangedFiles_reports_without_writing no_git_env "/proj" plain_config
              gone_world) as (c & i1 & Hrun & Hlists).
  exists c, i1. split; [exact Hrun |].
  change (Orchestrator.getGitChangedFiles no_git_env plain_config) with
    (@None Orchestrator.GitChanges) in Hlists.
  destruct Hlists as (Hr & Ha & Hm).
  - intros p r Hp. unfold gone_world, gone_store in Hp. simpl in Hp.
    apply lookup_insert_Some in Hp as [[<- <-] | [_ Hp]]; [reflexivity |].
    by rewrite lookup_empty in Hp.
  - split; [| split].
    + apply Hr. split; [by eexists |].
      change (Orchestrator.scanned no_git_env) with ["src/a.ts"].
      intros H%list_elem_of_singleton. discriminate H.
    + apply Ha. split; [by left |]. split; [by eexists |]. reflexivity.
    + rewrite Hm. intros [_ (content & r & _ & Hrec & _)]. discriminate Hrec.
Defined.

Lemma sync_counts_what_getChangedFiles_lists_witness :
  exists c w1 res w2,
    Orchestrator.getChangedFiles busy_git_env "/proj" plain_config
      (Orchestrator.mkWorld busy_store [] None) = (Ok c, w1)
    /\ Orchestrator.sync busy_git_env "/proj" plain_config
         (Orchestrator.mkWorld busy_store [] None) = (Ok res, w2)
    /\ Orchestrator.filesAdded res = length (Orchestrator.addedFiles c)
    /\ Orchestrator.filesModified res = length (Orchestrator.modifiedFiles c)
    /\ Orchestrator.filesRemoved res = length (Orchestrator.removedFiles c)
    /\ default [] (Orchestrator.changedFilePaths res)
       ≡ₚ Orchestrator.addedFiles c ++ Orchestrator.modifiedFiles c
    /\ Orchestrator.changedFilePaths res <> Some [].
Proof.
  apply (sync_counts_what_getChangedFiles_lists busy_git_env "/proj" plain_config
           (Orchestrator.mkWorld busy_store [] None) eq_refl).
  change (Orchestrator.getGitChangedFiles busy_git_env plain_config) with
    (Some (Orchestrator.mkGitChanges ["src/a.ts"] ["src/new.ts"]
             ["src/old.ts"; "src/never.ts"])).
  split.
  - apply (bool_decide_eq_true_1 _). vm_compute. reflexivity.
  - apply (bool_decide_eq_true_1 _). vm_compute. reflexivity.
Defined.

Example changes_listed_and_counted :
  exists c w1 res w2,
    Orchestrator.getChangedFiles busy_git_env "/proj" plain_config
      (Orchestrator.mkWorld busy_store [] (Some 0%nat)) = (Ok c, w1)
    /\ c = Orchestrator.mkChangedFiles ["src/new.ts"] ["src/a.ts"] ["src/old.ts"]
    /\ Orchestrator.db w1 = busy_store
    /\ Orchestrator.sync busy_git_env "/proj" plain_config
         (Orchestrator.mkWorld busy_store [] None) = (Ok res, w2)
    /\ (Orchestrator.filesAdded res, Orchestrator.filesModified res,
        Orchestrator.filesRemoved res) = (1, 1, 1).
Proof.
  eexists _, _, _, _. split; [vm_compute; reflexivity |].
  split; [reflexivity |]. split; [reflexivity |].
  split; [vm_compute; reflexivity |]. reflexivity.
Qed.

(** a path that git status lists twice as deleted is removed once by
    [sync] and listed twice by [getChangedFiles] *)
Example a_path_deleted_twice :
  let env := plain_env (fun _ => inl (Error "ENOENT"))
               (Some (" D src/old.ts" ++ bytes [10] ++ "D  src/old.ts" ++ bytes [10]))
               [] no_parse_host in
  let w := Orchestrator.mkWorld busy_store [] None in
  exists c w1 res w2,
    Orchestrator.getChangedFiles env "/proj" plain_config w = (Ok c, w1)
    /\ Orchestrator.removedFiles c = ["src/old.ts"; "src/old.ts"]
    /\ Orchestrator.sync env "/proj" plain_config w = (Ok res, w2)
    /\ Orchestrator.filesRemoved res = 1.
Proof.
  eexists _, _, _, _. split; [vm_compute; reflexivity |].
  split; [reflexivity |]. split; [vm_compute; reflexivity |]. reflexivity.
Qed.
